(** * OneDrive_API.py: a shallow embedding of the OneDrive client

    The class [OneDrive] of [src/OneDrive_API.py] is embedded as a record of
    its member variables together with the history of everything the client
    did to the outside world (HTTP requests, clock readings, sleeps, local
    file accesses, thread starts).  The outside world answers through an
    environment [Env] whose oracles are functions of that history, so that a
    probe may fail twice and then succeed, the clock may advance, and so on.

    Every method is a computation in a state-and-exception monad: it takes
    the configuration (object, history) and returns a [result] and the new
    configuration.  A raised exception keeps the mutations made before it,
    exactly as in Python. *)

From Stdlib Require Import ZArith List String Ascii Bool Lia Permutation.
Import ListNotations.

Local Open Scope string_scope.
Local Open Scope list_scope.
Local Open Scope Z_scope.
Set Warnings "-register-all".

(** ** Strings, as Python uses them in this file *)

Notation "a +s b" := (String.append a b) (at level 60, right associativity).

Definition char_quote : ascii := "034"%char.
Definition char_backslash : ascii := "092"%char.
Definition char_slash : ascii := "/"%char.

Definition quote (s : string) : string :=
  String char_quote EmptyString +s s +s String char_quote EmptyString.

(** [str.lstrip(c)] and [str.rstrip(c)] for a one-character argument. *)
Fixpoint lstrip (c : ascii) (s : string) : string :=
  match s with
  | EmptyString => EmptyString
  | String a s' => if Ascii.eqb a c then lstrip c s' else s
  end.

Fixpoint rstrip (c : ascii) (s : string) : string :=
  match s with
  | EmptyString => EmptyString
  | String a s' =>
      let r := rstrip c s' in
      if (Ascii.eqb a c && String.eqb r EmptyString)%bool
      then EmptyString else String a r
  end.

(** [s.replace(a, b)] for one-character [a] and [b]. *)
Fixpoint replace (a b : ascii) (s : string) : string :=
  match s with
  | EmptyString => EmptyString
  | String x s' => String (if Ascii.eqb x a then b else x) (replace a b s')
  end.

(** [s.split(c)]: never the empty list. *)
Fixpoint split (c : ascii) (s : string) : list string :=
  match s with
  | EmptyString => [EmptyString]
  | String x s' =>
      if Ascii.eqb x c then EmptyString :: split c s'
      else match split c s' with
           | h :: t => String x h :: t
           | [] => [String x EmptyString]
           end
  end.

(** [needle in hay] on strings. *)
Fixpoint str_in (needle hay : string) : bool :=
  String.prefix needle hay
  || match hay with
     | EmptyString => false
     | String _ hay' => str_in needle hay'
     end.

(** The first and the last character, [s[0]] and [s[-1]]. *)
Definition first_char (s : string) : option ascii :=
  match s with EmptyString => None | String a _ => Some a end.

Fixpoint last_char (s : string) : option ascii :=
  match s with
  | EmptyString => None
  | String a EmptyString => Some a
  | String _ s' => last_char s'
  end.

(** ** Python values (what [json.load] and [json.loads] produce) *)

(** A [float] that is a number: [mantissa * 2 ^ exponent], as every finite
    float is, or an infinity.  [nan] is left out: as the key of a dict it is
    told apart by the identity of the object, which these values do not
    have. *)
Inductive pyfloat : Type :=
| Finite (mantissa exponent : Z)
| Infinite (negative : bool).

Inductive pyval : Type :=
| PNone
| PBool (b : bool)
| PInt (z : Z)
| PFloat (f : pyfloat)
| PStr (s : string)
| PList (l : list pyval)
| PDict (d : list (string * pyval)).

(** A [dict] keeps insertion order: an association list with the key looked
    up from the front, and [d[k] = v] replacing in place or appending. *)
Fixpoint dict_get {V : Type} (k : string) (d : list (string * V)) : option V :=
  match d with
  | [] => None
  | (k', v) :: d' => if String.eqb k k' then Some v else dict_get k d'
  end.

Fixpoint dict_set {V : Type} (k : string) (v : V) (d : list (string * V))
  : list (string * V) :=
  match d with
  | [] => [(k, v)]
  | (k', v') :: d' =>
      if String.eqb k k' then (k', v) :: d' else (k', v') :: dict_set k v d'
  end.

Definition dict_keys {V : Type} (d : list (string * V)) : list string :=
  map fst d.

Definition dict_has {V : Type} (k : string) (d : list (string * V)) : bool :=
  match dict_get k d with Some _ => true | None => false end.

(** A [dict] the code builds itself takes any hashable value as a key.
    Keys are compared by [==]: [None] with [None], strings with strings,
    and [bool], [int] and [float] by the number they are, so that
    [True == 1 == 1.0]. *)
Definition hashable (v : pyval) : bool :=
  match v with
  | PList _ | PDict _ => false
  | _ => true
  end.

Definition number_of (v : pyval) : option pyfloat :=
  match v with
  | PBool b => Some (Finite (if b then 1 else 0) 0)
  | PInt z => Some (Finite z 0)
  | PFloat f => Some f
  | _ => None
  end.

Definition float_eqb (a b : pyfloat) : bool :=
  match a, b with
  | Finite m1 e1, Finite m2 e2 =>
      let e := Z.min e1 e2 in
      m1 * 2 ^ (e1 - e) =? m2 * 2 ^ (e2 - e)
  | Infinite s1, Infinite s2 => Bool.eqb s1 s2
  | _, _ => false
  end.

Definition key_eqb (a b : pyval) : bool :=
  match a, b with
  | PNone, PNone => true
  | PStr s, PStr t => String.eqb s t
  | _, _ =>
      match number_of a, number_of b with
      | Some x, Some y => float_eqb x y
      | _, _ => false
      end
  end.

Abbreviation Dict := (list (pyval * pyval)).

Fixpoint pydict_get (k : pyval) (d : Dict) : option pyval :=
  match d with
  | [] => None
  | (k', v) :: d' => if key_eqb k k' then Some v else pydict_get k d'
  end.

(** [d[k] = v]: an equal key that is there stays, with the new value. *)
Fixpoint pydict_set (k v : pyval) (d : Dict) : Dict :=
  match d with
  | [] => [(k, v)]
  | (k', v') :: d' =>
      if key_eqb k k' then (k', v) :: d' else (k', v') :: pydict_set k v d'
  end.

Definition pydict_keys (d : Dict) : list pyval := map fst d.

(** The types [_SetsAndChecksVariable] is called with.  [bool] is a subclass
    of [int] in Python, so [isinstance(True, int)] holds. *)
Inductive pytype := TInt | TStr | TList.

Definition isinstance (v : pyval) (t : pytype) : bool :=
  match t, v with
  | TInt, PInt _ | TInt, PBool _ => true
  | TStr, PStr _ => true
  | TList, PList _ => true
  | _, _ => false
  end.

(** The integer an [int] (or [bool]) value counts as in comparisons and in
    [range]. *)
Definition int_of (v : pyval) : Z :=
  match v with
  | PInt z => z
  | PBool true => 1
  | _ => 0
  end.

(** [l[i]] on a list, with Python's negative indices. *)
Definition py_index {A : Type} (l : list A) (i : Z) : option A :=
  let n := Z.of_nat (List.length l) in
  if (0 <=? i) && (i <? n) then nth_error l (Z.to_nat i)
  else if (- n <=? i) && (i <? 0) then nth_error l (Z.to_nat (n + i))
  else None.

(** ** Exceptions *)

Inductive exn : Type :=
| Exception (msg : string)
| KeyError (key : string)
| TypeError (msg : string)
| IndexError (msg : string)
| AttributeError (msg : string)
| OSError (msg : string)
| JSONDecodeError (msg : string)
| RequestException (msg : string).

(** [str(ex)]. *)
Definition str (e : exn) : string :=
  match e with
  | Exception m => m
  | KeyError k => "'" +s k +s "'"
  | TypeError m => m
  | IndexError m => m
  | AttributeError m => m
  | OSError m => m
  | JSONDecodeError m => m
  | RequestException m => m
  end.

Inductive result (A : Type) : Type :=
| Ok (a : A)
| Raise (e : exn)
| Diverge.

Arguments Ok {A} a.
Arguments Raise {A} e.
Arguments Diverge {A}.

(** ** The object, the outside world and the history *)

Abbreviation Headers := (list (string * string)).

(** The two thread targets, with the arguments [Thread(target=..., args=...)]
    passes them; [CheckError] is the method of the shared object.  In the
    history [EvStart w] is [thread.start()] and [EvJoin ws] is one call of
    [_JoinThreads] that joined the threads [ws] of the registry. *)
Inductive Worker : Type :=
| UploadIntern (filename url : string) (header : Headers) (log : bool)
| DownloadIntern (path_local : string) (filename : pyval) (url : string)
    (header : Headers) (log : bool).

Inductive method := GET | POST | PUT | PATCH.

Inductive payload : Type :=
| NoBody
| FormData (d : list (string * pyval))
| JsonBody (v : pyval)
| FileContent (path : string).

Record request : Type := mkRequest {
  req_method : method;
  req_url : string;
  req_headers : Headers;
  req_body : payload
}.

(** A [requests.Response]: the status, the library's [ok] flag, what
    [json.loads(response.text)] gives ([None] when it raises) and the raw
    content. *)
Record Response : Type := mkResponse {
  status_code : Z;
  ok : bool;
  text_json : option pyval;
  content : string
}.

Inductive event : Type :=
| EvRequest (r : request)
| EvClock
| EvSleep (milliseconds : Z)
| EvStart (w : Worker)
| EvJoin (ws : list Worker)
| EvIsFile (path : string)
| EvOpenRead (path : string)
| EvWrite (path data : string)
| EvPathExists (path : string)
| EvMakedirs (path : string)
| EvPrint (line : string).

(** The history, newest event first. *)
Abbreviation History := (list event).

Record OneDrive : Type := mkOneDrive {
  threads : list Worker;
  max_threads : Z;
  refresh_token : pyval;
  url : string;
  auth_url : string;
  client_id : string;
  permissions : list pyval;
  redirect_uri : string;
  scope : string;
  refresh_interval : Z;
  number_retry_connection : Z;
  token : pyval;
  last_updated : Z;
  headers : Headers;
  errors : list string;
  is_connected : bool
}.

(** The outside world.  Each oracle sees the history so far.  [http] gives
    the exception [requests] raises or the response; [clock] is
    [time.mktime(datetime.today().timetuple())], whole seconds; [sched] is
    the order in which the workers of a batch get to run, and [finished]
    tells of a thread that was started and not joined whether it has come
    to its end. *)
Record Env : Type := mkEnv {
  http : History -> request -> exn + Response;
  clock : History -> Z;
  isfile : History -> string -> bool;
  open_read : History -> string -> bool;
  write_ok : History -> string -> bool;
  path_exists : History -> string -> bool;
  sched : History -> list Worker -> list Worker;
  finished : History -> Worker -> bool
}.

Abbreviation Conf := (OneDrive * list event)%type.

(** ** The monad of methods *)

Definition M (A : Type) : Type := Conf -> result A * Conf.

Definition ret {A : Type} (a : A) : M A := fun c => (Ok a, c).

Definition bind {A B : Type} (m : M A) (f : A -> M B) : M B :=
  fun c =>
    match m c with
    | (Ok a, c') => f a c'
    | (Raise e, c') => (Raise e, c')
    | (Diverge, c') => (Diverge, c')
    end.

Definition raise {A : Type} (e : exn) : M A := fun c => (Raise e, c).

Definition diverge {A : Type} : M A := fun c => (Diverge, c).

(** [try: m except Exception as ex: h ex]. *)
Definition try_except {A : Type} (m : M A) (h : exn -> M A) : M A :=
  fun c =>
    match m c with
    | (Raise e, c') => h e c'
    | r => r
    end.

Notation "x <- m ;; k" := (bind m (fun x => k))
  (at level 61, m at next level, right associativity).
Notation "m ;; k" := (bind m (fun _ => k))
  (at level 61, right associativity).

Definition get_self : M OneDrive := fun c => (Ok (fst c), c).
Definition get_history : M History := fun c => (Ok (snd c), c).
Definition modify (f : OneDrive -> OneDrive) : M unit :=
  fun c => (Ok tt, (f (fst c), snd c)).
Definition emit (e : event) : M unit :=
  fun c => (Ok tt, (fst c, e :: snd c)).

(** Assignments to member variables. *)
Definition set_threads v (o : OneDrive) : OneDrive :=
  mkOneDrive v o.(max_threads) o.(refresh_token) o.(url) o.(auth_url)
    o.(client_id) o.(permissions) o.(redirect_uri) o.(scope)
    o.(refresh_interval) o.(number_retry_connection) o.(token)
    o.(last_updated) o.(headers) o.(errors) o.(is_connected).
Definition set_max_threads v (o : OneDrive) : OneDrive :=
  mkOneDrive o.(threads) v o.(refresh_token) o.(url) o.(auth_url)
    o.(client_id) o.(permissions) o.(redirect_uri) o.(scope)
    o.(refresh_interval) o.(number_retry_connection) o.(token)
    o.(last_updated) o.(headers) o.(errors) o.(is_connected).
Definition set_refresh_token v (o : OneDrive) : OneDrive :=
  mkOneDrive o.(threads) o.(max_threads) v o.(url) o.(auth_url)
    o.(client_id) o.(permissions) o.(redirect_uri) o.(scope)
    o.(refresh_interval) o.(number_retry_connection) o.(token)
    o.(last_updated) o.(headers) o.(errors) o.(is_connected).
Definition set_url v (o : OneDrive) : OneDrive :=
  mkOneDrive o.(threads) o.(max_threads) o.(refresh_token) v o.(auth_url)
    o.(client_id) o.(permissions) o.(redirect_uri) o.(scope)
    o.(refresh_interval) o.(number_retry_connection) o.(token)
    o.(last_updated) o.(headers) o.(errors) o.(is_connected).
Definition set_auth_url v (o : OneDrive) : OneDrive :=
  mkOneDrive o.(threads) o.(max_threads) o.(refresh_token) o.(url) v
    o.(client_id) o.(permissions) o.(redirect_uri) o.(scope)
    o.(refresh_interval) o.(number_retry_connection) o.(token)
    o.(last_updated) o.(headers) o.(errors) o.(is_connected).
Definition set_client_id v (o : OneDrive) : OneDrive :=
  mkOneDrive o.(threads) o.(max_threads) o.(refresh_token) o.(url)
    o.(auth_url) v o.(permissions) o.(redirect_uri) o.(scope)
    o.(refresh_interval) o.(number_retry_connection) o.(token)
    o.(last_updated) o.(headers) o.(errors) o.(is_connected).
Definition set_permissions v (o : OneDrive) : OneDrive :=
  mkOneDrive o.(threads) o.(max_threads) o.(refresh_token) o.(url)
    o.(auth_url) o.(client_id) v o.(redirect_uri) o.(scope)
    o.(refresh_interval) o.(number_retry_connection) o.(token)
    o.(last_updated) o.(headers) o.(errors) o.(is_connected).
Definition set_redirect_uri v (o : OneDrive) : OneDrive :=
  mkOneDrive o.(threads) o.(max_threads) o.(refresh_token) o.(url)
    o.(auth_url) o.(client_id) o.(permissions) v o.(scope)
    o.(refresh_interval) o.(number_retry_connection) o.(token)
    o.(last_updated) o.(headers) o.(errors) o.(is_connected).
Definition set_scope v (o : OneDrive) : OneDrive :=
  mkOneDrive o.(threads) o.(max_threads) o.(refresh_token) o.(url)
    o.(auth_url) o.(client_id) o.(permissions) o.(redirect_uri) v
    o.(refresh_interval) o.(number_retry_connection) o.(token)
    o.(last_updated) o.(headers) o.(errors) o.(is_connected).
Definition set_refresh_interval v (o : OneDrive) : OneDrive :=
  mkOneDrive o.(threads) o.(max_threads) o.(refresh_token) o.(url)
    o.(auth_url) o.(client_id) o.(permissions) o.(redirect_uri) o.(scope)
    v o.(number_retry_connection) o.(token)
    o.(last_updated) o.(headers) o.(errors) o.(is_connected).
Definition set_number_retry_connection v (o : OneDrive) : OneDrive :=
  mkOneDrive o.(threads) o.(max_threads) o.(refresh_token) o.(url)
    o.(auth_url) o.(client_id) o.(permissions) o.(redirect_uri) o.(scope)
    o.(refresh_interval) v o.(token)
    o.(last_updated) o.(headers) o.(errors) o.(is_connected).
Definition set_token v (o : OneDrive) : OneDrive :=
  mkOneDrive o.(threads) o.(max_threads) o.(refresh_token) o.(url)
    o.(auth_url) o.(client_id) o.(permissions) o.(redirect_uri) o.(scope)
    o.(refresh_interval) o.(number_retry_connection) v
    o.(last_updated) o.(headers) o.(errors) o.(is_connected).
Definition set_last_updated v (o : OneDrive) : OneDrive :=
  mkOneDrive o.(threads) o.(max_threads) o.(refresh_token) o.(url)
    o.(auth_url) o.(client_id) o.(permissions) o.(redirect_uri) o.(scope)
    o.(refresh_interval) o.(number_retry_connection) o.(token)
    v o.(headers) o.(errors) o.(is_connected).
Definition set_headers v (o : OneDrive) : OneDrive :=
  mkOneDrive o.(threads) o.(max_threads) o.(refresh_token) o.(url)
    o.(auth_url) o.(client_id) o.(permissions) o.(redirect_uri) o.(scope)
    o.(refresh_interval) o.(number_retry_connection) o.(token)
    o.(last_updated) v o.(errors) o.(is_connected).
Definition set_errors v (o : OneDrive) : OneDrive :=
  mkOneDrive o.(threads) o.(max_threads) o.(refresh_token) o.(url)
    o.(auth_url) o.(client_id) o.(permissions) o.(redirect_uri) o.(scope)
    o.(refresh_interval) o.(number_retry_connection) o.(token)
    o.(last_updated) o.(headers) v o.(is_connected).
Definition set_is_connected v (o : OneDrive) : OneDrive :=
  mkOneDrive o.(threads) o.(max_threads) o.(refresh_token) o.(url)
    o.(auth_url) o.(client_id) o.(permissions) o.(redirect_uri) o.(scope)
    o.(refresh_interval) o.(number_retry_connection) o.(token)
    o.(last_updated) o.(headers) o.(errors) v.

(** ** Pieces of Python the methods use *)

Definition type_name (v : pyval) : string :=
  match v with
  | PNone => "NoneType"
  | PBool _ => "bool"
  | PInt _ => "int"
  | PFloat _ => "float"
  | PStr _ => "str"
  | PList _ => "list"
  | PDict _ => "dict"
  end.

(** [left + v] where [left] is a [str]. *)
Definition concat_str (left : string) (v : pyval) : exn + string :=
  match v with
  | PStr s => inr (left +s s)
  | _ => inl (TypeError ("can only concatenate str (not " +s
                         quote (type_name v) +s ") to str"))
  end.

(** [v[key]] for a string [key]. *)
Definition getitem (v : pyval) (key : string) : exn + pyval :=
  match v with
  | PDict d =>
      match dict_get key d with
      | Some x => inr x
      | None => inl (KeyError key)
      end
  | PStr _ => inl (TypeError "string indices must be integers")
  | PList _ => inl (TypeError "list indices must be integers or slices, not str")
  | _ => inl (TypeError ("'" +s type_name v +s "' object is not subscriptable"))
  end.

Definition lift {A : Type} (r : exn + A) : M A :=
  match r with
  | inl e => raise e
  | inr a => ret a
  end.

(** [json.loads(response.text)]. *)
Definition json_loads (r : Response) : M pyval :=
  match r.(text_json) with
  | Some v => ret v
  | None => raise (JSONDecodeError "Expecting value")
  end.

(** What a [for] loop iterates over: the elements of a list, the keys of a
    dict, the characters of a string. *)
Fixpoint chars (s : string) : list pyval :=
  match s with
  | EmptyString => []
  | String a s' => PStr (String a EmptyString) :: chars s'
  end.

Definition iterate (v : pyval) : exn + list pyval :=
  match v with
  | PList l => inr l
  | PDict d => inr (map PStr (dict_keys d))
  | PStr s => inr (chars s)
  | _ => inl (TypeError ("'" +s type_name v +s "' object is not iterable"))
  end.

(** The member variables [setattr] is called on.  The types are those
    [isinstance] has checked, or those of the default values. *)
Inductive member :=
| m_max_threads | m_refresh_token | m_url | m_auth_url | m_client_id
| m_permissions | m_redirect_uri | m_refresh_interval
| m_number_retry_connection.

Definition str_of (v : pyval) : string :=
  match v with PStr s => s | _ => EmptyString end.

Definition list_of (v : pyval) : list pyval :=
  match v with PList l => l | _ => [] end.

Definition setattr (m : member) (v : pyval) : OneDrive -> OneDrive :=
  match m with
  | m_max_threads => set_max_threads (int_of v)
  | m_refresh_token => set_refresh_token v
  | m_url => set_url (str_of v)
  | m_auth_url => set_auth_url (str_of v)
  | m_client_id => set_client_id (str_of v)
  | m_permissions => set_permissions (list_of v)
  | m_redirect_uri => set_redirect_uri (str_of v)
  | m_refresh_interval => set_refresh_interval (int_of v)
  | m_number_retry_connection => set_number_retry_connection (int_of v)
  end.

(** The object as [__init__] has it before [_SetParameters]. *)
Definition new_OneDrive : OneDrive :=
  mkOneDrive [] 0 (PStr EmptyString) EmptyString EmptyString EmptyString []
    EmptyString EmptyString 0 0 (PStr EmptyString) 0 [] [] false.

(** ** Construction parameters *)

Definition _SetsAndChecksVariable (parameters : list (string * pyval))
  (var : string) (var_type : pytype) (member_var_name : member) : M unit :=
  match dict_get var parameters with
  | None =>
      raise (Exception ("The variable " +s quote var +s
                        " is not given in the settings-json-file."))
  | Some v =>
      if isinstance v var_type then modify (setattr member_var_name v)
      else raise (Exception ("The variable " +s quote var +s
                             " did not match the specified data type"))
  end.

Definition _SetsAndChecksVariableWithDefaultValue
  (parameters : list (string * pyval)) (var : string) (default_value : pyval)
  (var_type : pytype) (member_var_name : member) : M unit :=
  try_except
    (_SetsAndChecksVariable parameters var var_type member_var_name)
    (fun _ => modify (setattr member_var_name default_value)).

(** The loop building [self.scope] from [self.permissions]. *)
Fixpoint scope_loop (perms : list pyval) : M unit :=
  match perms with
  | [] => ret tt
  | p :: rest =>
      o <- get_self ;;
      s <- lift (concat_str o.(scope) p) ;;
      modify (set_scope s) ;;
      match rest with
      | [] => ret tt
      | _ :: _ => modify (fun o => set_scope (o.(scope) +s "+") o)
      end ;;
      scope_loop rest
  end.

Definition _SetParameters (parameters : list (string * pyval)) : M unit :=
  try_except
    (_SetsAndChecksVariable parameters "max_threads" TInt m_max_threads ;;
     _SetsAndChecksVariable parameters "refresh_token" TStr m_refresh_token ;;
     _SetsAndChecksVariable parameters "browse_url" TStr m_url ;;
     _SetsAndChecksVariable parameters "auth_url" TStr m_auth_url ;;
     _SetsAndChecksVariable parameters "client_id" TStr m_client_id ;;
     _SetsAndChecksVariable parameters "permissions" TList m_permissions ;;
     _SetsAndChecksVariable parameters "redirect_uri" TStr m_redirect_uri ;;
     _SetsAndChecksVariableWithDefaultValue parameters "refresh_interval"
       (PInt 3600) TInt m_refresh_interval ;;
     _SetsAndChecksVariableWithDefaultValue parameters
       "number_retry_connection" (PInt 50) TInt m_number_retry_connection ;;
     modify (set_scope EmptyString) ;;
     o <- get_self ;;
     scope_loop o.(permissions))
    (fun ex =>
       raise (Exception ("Could not initialize parameters: " +s str ex))).

(** The decorator of the public methods. *)
Definition _SaveRequest {A : Type} (func : M A) : M A :=
  try_except func
    (fun ex =>
       if String.eqb (str ex) EmptyString
       then raise (Exception "Unknown exception. Check internet connection")
       else raise ex).

(** ** The error log *)

(** The second argument of [_CheckError]: a [requests.Response], or any
    other value ([None] and the parsed JSON among them). *)
Inductive checked : Type :=
| IsResponse (r : Response)
| IsValue (v : pyval).

(** The [for key in response] loop of [_CheckError] on a dict. *)
Fixpoint check_keys (keys : list string) (response : pyval)
  (error_occurred : bool) (error_text : string) : exn + (bool * string) :=
  match keys with
  | [] => inr (error_occurred, error_text)
  | key :: keys' =>
      if str_in "error" key then
        match getitem response "error" with
        | inl e => inl e
        | inr err =>
            match getitem err "code" with
            | inl e => inl e
            | inr code =>
                match concat_str (error_text +s " (Code: ") code with
                | inl e => inl e
                | inr t => check_keys keys' response true (t +s ")")
                end
            end
        end
      else check_keys keys' response error_occurred error_text
  end.

Definition _CheckError (error_text : string) (response : checked) : M bool :=
  r <- lift
      match response with
      | IsResponse resp => inr (negb resp.(ok), error_text)
      | IsValue (PDict d) =>
          check_keys (dict_keys d) (PDict d) false error_text
      | IsValue _ => inr (true, error_text)
      end ;;
  let '(error_occurred, error_text) := r in
  (if error_occurred : bool
   then modify (fun o => set_errors (o.(errors) ++ [error_text]) o)
   else ret tt) ;;
  ret error_occurred.

Definition _FetchErrors (prefix : string) : M unit :=
  o <- get_self ;;
  match o.(errors) with
  | [] => ret tt
  | _ :: _ =>
      let error_text := String.concat ". " o.(errors) in
      modify (set_errors []) ;;
      let error_text := prefix +s error_text in
      raise (Exception error_text)
  end.

(** A thread body: an exception ends the thread and nothing else. *)
Definition thread_body {A : Type} (m : M A) : M unit :=
  fun c => (Ok tt, snd (m c)).

Section Methods.

Variable env : Env.
(** The number of iterations of a [while] loop that are followed before
    the run is reported as [Diverge]. *)
Variable fuel : nat.

Definition requests (r : request) : M Response :=
  fun c =>
    let c' := (fst c, EvRequest r :: snd c) in
    match env.(http) (snd c) r with
    | inl e => (Raise e, c')
    | inr resp => (Ok resp, c')
    end.

Definition time_now : M Z :=
  fun c => (Ok (env.(clock) (snd c)), (fst c, EvClock :: snd c)).

Definition sleep (milliseconds : Z) : M unit := emit (EvSleep milliseconds).

Definition print (line : string) : M unit := emit (EvPrint line).

(** ** Token and connection *)

Definition bearer (tok : string) : Headers :=
  [("Authorization", "Bearer " +s tok)].

Definition refresh_request (o : OneDrive) : request :=
  let data :=
    [("client_id", PStr o.(client_id));
     ("scope", PList o.(permissions));
     ("refresh_token", o.(refresh_token));
     ("redirect_uri", PStr o.(redirect_uri));
     ("grant_type", PStr "refresh_token")] in
  mkRequest POST o.(auth_url) [] (FormData data).

Definition _RefreshToken : M unit :=
  _SaveRequest
    (o <- get_self ;;
     response <- requests (refresh_request o) ;;
     parsed <- json_loads response ;;
     access <- lift (getitem parsed "access_token") ;;
     modify (set_token access) ;;
     parsed <- json_loads response ;;
     refresh <- lift (getitem parsed "refresh_token") ;;
     modify (set_refresh_token refresh) ;;
     now <- time_now ;;
     modify (set_last_updated now) ;;
     o <- get_self ;;
     value <- lift (concat_str "Bearer " o.(token)) ;;
     modify (set_headers [("Authorization", value)])).

Definition probe_request (o : OneDrive) : request :=
  mkRequest GET (o.(url) +s "me/drive/") o.(headers) NoBody.

Definition _Connect : M unit :=
  _SaveRequest
    (_RefreshToken ;;
     o <- get_self ;;
     response <- requests (probe_request o) ;;
     if response.(status_code) =? 200
     then modify (set_is_connected true)
     else modify (set_is_connected false)).

Definition _CheckLastHeartbeat : M unit :=
  now <- time_now ;;
  o <- get_self ;;
  if now - o.(last_updated) >? o.(refresh_interval)
  then _RefreshToken
  else ret tt.

Definition _CheckRequestsCompleted : M unit :=
  o <- get_self ;;
  match o.(threads) with
  | [] => ret tt
  | _ :: _ => diverge
  end.

(** The [while not self.is_connected] loop. *)
Fixpoint connect_loop (n : nat) (attempts : Z) : M unit :=
  o <- get_self ;;
  if o.(is_connected) then ret tt
  else
    match n with
    | O => diverge
    | S n' =>
        let attempts := attempts + 1 in
        if attempts =? o.(number_retry_connection)
        then raise (Exception "Could not connect to OneDrive")
        else _Connect ;; sleep 500 ;; connect_loop n' attempts
    end.

Definition _CheckConnected : M unit :=
  let attempts := 0 in
  o <- get_self ;;
  (if negb o.(is_connected) then connect_loop fuel attempts else ret tt) ;;
  _CheckLastHeartbeat ;;
  _CheckRequestsCompleted.

(** [OneDrive(connection_parameters)]. *)
Definition __init__ (connection_parameters : list (string * pyval)) : M unit :=
  _SetParameters connection_parameters ;;
  _CheckConnected.

Definition construct (connection_parameters : list (string * pyval))
  : result unit * Conf :=
  __init__ connection_parameters (new_OneDrive, []).

(** ** Local files *)

Definition os_path_isfile (path : string) : M bool :=
  fun c => (Ok (env.(isfile) (snd c) path), (fst c, EvIsFile path :: snd c)).

Definition open_rb (path : string) : M unit :=
  fun c =>
    let c' := (fst c, EvOpenRead path :: snd c) in
    if env.(open_read) (snd c) path then (Ok tt, c')
    else (Raise (OSError "cannot open file"), c').

Definition write_wb (path data : string) : M unit :=
  fun c =>
    if env.(write_ok) (snd c) path
    then (Ok tt, (fst c, EvWrite path data :: snd c))
    else (Raise (OSError "cannot write file"), c).

Definition os_path_exists (path : string) : M bool :=
  fun c =>
    (Ok (env.(path_exists) (snd c) path), (fst c, EvPathExists path :: snd c)).

Definition os_makedirs (path : string) : M unit :=
  fun c =>
    if env.(write_ok) (snd c) path
    then (Ok tt, (fst c, EvMakedirs path :: snd c))
    else (Raise (OSError "cannot create directory"), c).

(** ** Workers and the join barrier *)

Definition run_UploadIntern (filename url : string) (header : Headers)
  (log : bool) : M bool :=
  present <- os_path_isfile filename ;;
  if negb present then
    let error_message :=
      "Could not upload " +s filename +s ": File does not exist" in
    _CheckError error_message (IsValue PNone) ;;
    ret true
  else
    open_rb filename ;;
    r <- requests (mkRequest PUT url header (FileContent filename)) ;;
    response <- json_loads r ;;
    let error_message := "Could not upload " +s filename in
    error_occured <- _CheckError error_message (IsValue response) ;;
    (if log && negb error_occured
     then print ("File " +s filename +s " has been uploaded")
     else ret tt) ;;
    ret error_occured.

Definition run_DownloadIntern (path_local : string) (filename : pyval)
  (url : string) (header : Headers) (log : bool) : M bool :=
  data <- requests (mkRequest GET url header NoBody) ;;
  error_message <- lift (concat_str "Could not download " filename) ;;
  (* [filename] is a [str]: the line before has raised otherwise *)
  let filename := str_of filename in
  failed <- _CheckError error_message (IsResponse data) ;;
  if failed : bool then ret true
  else
    try_except
      (write_wb (path_local +s "/" +s filename) data.(content) ;;
       (if log then print ("File " +s filename +s " has been downloaded")
        else ret tt) ;;
       ret false)
      (fun _ =>
         let error_message := "Could not write " +s path_local +s " to drive" in
         _CheckError error_message (IsValue PNone) ;;
         ret true).

(** The call the thread makes; it returns [True] when it has recorded a
    failure. *)
Definition worker_body (w : Worker) : M bool :=
  match w with
  | UploadIntern filename url header log =>
      run_UploadIntern filename url header log
  | DownloadIntern path_local filename url header log =>
      run_DownloadIntern path_local filename url header log
  end.

Definition run_worker (w : Worker) : M unit := thread_body (worker_body w).

Fixpoint run_workers (ws : list Worker) : M unit :=
  match ws with
  | [] => ret tt
  | w :: ws' => run_worker w ;; run_workers ws'
  end.

(** [Thread(target=..., args=..., daemon=True)], [thread.start()] and
    [self.threads.append(thread)]. *)
Definition start_thread (w : Worker) : M unit :=
  emit (EvStart w) ;;
  modify (fun o => set_threads (o.(threads) ++ [w]) o).

Fixpoint pop_threads (n : nat) : M unit :=
  match n with
  | O => ret tt
  | S n' => modify (fun o => set_threads (tl o.(threads)) o) ;; pop_threads n'
  end.

(** [_JoinThreads] returns when every thread of the registry has finished.
    The threads run concurrently and share only [self.errors], appended to
    under the mutex: they are run here to completion one after another, in
    the order the scheduler picks, and then popped from the registry. *)
Definition _JoinThreads : M unit :=
  o <- get_self ;;
  h <- get_history ;;
  let number_threads := List.length o.(threads) in
  run_workers (env.(sched) h o.(threads)) ;;
  emit (EvJoin o.(threads)) ;;
  pop_threads number_threads.

(** ** Single requests *)

Definition strip_slashes (path : string) : string :=
  rstrip char_slash (lstrip char_slash path).

Definition _FetchFolderID (path_onedrive : string) : M pyval :=
  _SaveRequest
    (_CheckConnected ;;
     let path_onedrive := strip_slashes path_onedrive in
     o <- get_self ;;
     let url := o.(url) +s "me/drive/root:/" +s path_onedrive +s "/" in
     r <- requests (mkRequest GET url o.(headers) NoBody) ;;
     response <- json_loads r ;;
     let error_message := "Could not fetch the folder ID of " +s path_onedrive in
     _CheckError error_message (IsValue response) ;;
     _FetchErrors EmptyString ;;
     lift (getitem response "id")).

(** [d[k] = v] on a dict of the code's own. *)
Definition setitem (d : Dict) (k v : pyval) : exn + Dict :=
  if hashable k then inr (pydict_set k v d)
  else inl (TypeError ("unhashable type: '" +s type_name k +s "'")).

(** [d[k]] on a dict of the code's own.  The methods look up keys they have
    read from the dict itself, and a key of a dict is found in it; the
    [KeyError] names a string key as [getitem] does. *)
Definition key_text (k : pyval) : string :=
  match k with PStr s => s | _ => type_name k end.

Definition lookup (d : Dict) (k : pyval) : exn + pyval :=
  match pydict_get k d with
  | Some v => inr v
  | None => inl (KeyError (key_text k))
  end.

(** The loop of [FetchAllFiles] over [response["value"]]:
    [[
        for item in response["value"]:
            if "folder" in item.keys():
                results_folder[item["name"]] = item["id"]
            else:
                results_files[item["name"]] = item["id"]
    ]]
    The right-hand side of the assignment is evaluated first. *)
Fixpoint collect_items (items : list pyval) (results_files results_folder : Dict)
  : exn + (Dict * Dict) :=
  match items with
  | [] => inr (results_files, results_folder)
  | item :: rest =>
      match item with
      | PDict d =>
          match getitem item "id" with
          | inl e => inl e
          | inr id =>
              match getitem item "name" with
              | inl e => inl e
              | inr name =>
                  if dict_has "folder" d
                  then match setitem results_folder name id with
                       | inl e => inl e
                       | inr results_folder =>
                           collect_items rest results_files results_folder
                       end
                  else match setitem results_files name id with
                       | inl e => inl e
                       | inr results_files =>
                           collect_items rest results_files results_folder
                       end
              end
          end
      | _ => inl (AttributeError
                   ("'" +s type_name item +s "' object has no attribute 'keys'"))
      end
  end.

Definition FetchAllFiles (path_onedrive : string) : M (Dict * Dict) :=
  _SaveRequest
    (_CheckConnected ;;
     let path_onedrive := strip_slashes path_onedrive in
     o <- get_self ;;
     let url := o.(url) +s "me/drive/root:/" +s path_onedrive +s ":/children" in
     r <- requests (mkRequest GET url o.(headers) NoBody) ;;
     response <- json_loads r ;;
     let error_message := "Could not fetch all files from " +s path_onedrive in
     _CheckError error_message (IsValue response) ;;
     _FetchErrors EmptyString ;;
     value <- lift (getitem response "value") ;;
     items <- lift (iterate value) ;;
     lift (collect_items items [] [])).

Definition MakeDir (path_onedrive new_folder_name : string) : M unit :=
  _SaveRequest
    (_CheckConnected ;;
     let path_onedrive := strip_slashes path_onedrive in
     o <- get_self ;;
     let url := o.(url) +s "me/drive/root:/" +s path_onedrive +s ":/children" in
     let body :=
       PDict [("name", PStr new_folder_name);
              ("folder", PDict []);
              ("@microsoft.graph.conflictBehavior", PStr "fail")] in
     r <- requests (mkRequest POST url o.(headers) (JsonBody body)) ;;
     response <- json_loads r ;;
     let error_message := "Could not create the directory " +s new_folder_name in
     _CheckError error_message (IsValue response) ;;
     _FetchErrors EmptyString).

Definition parent_reference (dest_path_id : pyval) : pyval :=
  PDict [("parentReference", PDict [("id", dest_path_id)])].

(** The [for filename in files_ids] loop of [MoveFile]. *)
Fixpoint move_loop (keys : list pyval) (files_ids : Dict)
  (dest_path_id : pyval) (src_path_onedrive arg_filename : string) : M unit :=
  match keys with
  | [] => ret tt
  | filename :: keys' =>
      if key_eqb filename (PStr arg_filename) then
        file_id <- lift (lookup files_ids filename) ;;
        o <- get_self ;;
        url <- lift (concat_str (o.(url) +s "me/drive/items/") file_id) ;;
        let body := parent_reference dest_path_id in
        r <- requests (mkRequest PATCH url o.(headers) (JsonBody body)) ;;
        response <- json_loads r ;;
        let error_message := "Could not move file " +s src_path_onedrive in
        _CheckError error_message (IsValue response) ;;
        _FetchErrors EmptyString
      else move_loop keys' files_ids dest_path_id src_path_onedrive arg_filename
  end.

Definition MoveFile (dest_path_onedrive src_path_onedrive arg_filename : string)
  : M unit :=
  _SaveRequest
    (_CheckConnected ;;
     let dest_path_onedrive := strip_slashes dest_path_onedrive in
     let src_path_onedrive := strip_slashes src_path_onedrive in
     listing <- FetchAllFiles src_path_onedrive ;;
     let files_ids := fst listing in
     dest_path_id <- _FetchFolderID dest_path_onedrive ;;
     move_loop (pydict_keys files_ids) files_ids dest_path_id src_path_onedrive
       arg_filename).

Definition MoveAllFiles (dest_path_onedrive src_path_onedrive : string)
  : M unit :=
  _SaveRequest
    (_CheckConnected ;;
     let dest_path_onedrive := strip_slashes dest_path_onedrive in
     let src_path_onedrive := strip_slashes src_path_onedrive in
     src_path_id <- _FetchFolderID src_path_onedrive ;;
     dest_path_id <- _FetchFolderID dest_path_onedrive ;;
     o <- get_self ;;
     url <- lift (concat_str (o.(url) +s "me/drive/items/") src_path_id) ;;
     let body := parent_reference dest_path_id in
     r <- requests (mkRequest PATCH url o.(headers) (JsonBody body)) ;;
     response <- json_loads r ;;
     let error_message := "Could not move all files from " +s src_path_onedrive in
     _CheckError error_message (IsValue response) ;;
     _FetchErrors EmptyString).

(** ** The batch loops of [Upload] and [Download]

    Both methods run the same loop around their own loop body:
    [[
        while index > 0:
            number_threads = self.max_threads
            if index < self.max_threads:
                number_threads = index
            for i in range(number_threads):
                index -= 1
                ... filenames[index] or keys[index] ...
            self._JoinThreads()
            self._FetchErrors(prefix)
    ]]
    [launch_batch] is the [for] loop and [batch_loop] the [while] loop. *)

(** [number_threads] as the [while] loop computes it. *)
Definition number_threads (o : OneDrive) (index : Z) : Z :=
  if index <? o.(max_threads) then index else o.(max_threads).

Fixpoint launch_batch (body : Z -> M unit) (n : nat) (index : Z) : M Z :=
  match n with
  | O => ret index
  | S n' =>
      let index := index - 1 in
      body index ;;
      launch_batch body n' index
  end.

(** An exception that leaves the [for] loop leaves the threads it has
    started unjoined, in the registry.  They run on in the background:
    those that have come to their end by the time the exception reaches the
    caller have run, and what they recorded is in the log. *)
Definition settle : M unit :=
  o <- get_self ;;
  h <- get_history ;;
  run_workers (filter (env.(finished) h) (env.(sched) h o.(threads))).

Definition unjoined {A : Type} (m : M A) : M A :=
  try_except m (fun ex => settle ;; raise ex).

Fixpoint batch_loop (body : Z -> M unit) (prefix : string) (n : nat)
  (index : Z) : M unit :=
  if index >? 0 then
    match n with
    | O => diverge
    | S n' =>
        o <- get_self ;;
        let number_threads := number_threads o index in
        index <- unjoined (launch_batch body (Z.to_nat number_threads) index) ;;
        _JoinThreads ;;
        _FetchErrors prefix ;;
        batch_loop body prefix n' index
    end
  else ret tt.

Definition list_item {A : Type} (l : list A) (index : Z) : M A :=
  match py_index l index with
  | Some a => ret a
  | None => raise (IndexError "list index out of range")
  end.

Definition upload_worker (o : OneDrive) (url_pre path_onedrive url_post : string)
  (log : bool) (filename : string) : Worker :=
  let filename := replace char_backslash char_slash filename in
  let url :=
    url_pre +s path_onedrive +s last (split char_slash filename) EmptyString
    +s url_post in
  UploadIntern filename url o.(headers) log.

Definition upload_item (filenames : list string)
  (url_pre path_onedrive url_post : string) (log : bool) (index : Z) : M unit :=
  filename <- list_item filenames index ;;
  o <- get_self ;;
  start_thread (upload_worker o url_pre path_onedrive url_post log filename).

Definition char_at (c : option ascii) : M ascii :=
  match c with
  | Some a => ret a
  | None => raise (IndexError "string index out of range")
  end.

Definition upload_path (path_onedrive : string) : M string :=
  c <- char_at (first_char path_onedrive) ;;
  let path_onedrive :=
    if negb (Ascii.eqb c char_slash) then "/" +s path_onedrive
    else path_onedrive in
  c <- char_at (last_char path_onedrive) ;;
  ret (if negb (Ascii.eqb c char_slash) then path_onedrive +s "/"
       else path_onedrive).

Definition upload_prefix : string := "Could not upload all files: ".
Definition download_prefix : string := "Could not download all files: ".

Definition Upload (filenames : list string) (path_onedrive : string)
  (log : bool) : M unit :=
  _SaveRequest
    (_CheckConnected ;;
     path_onedrive <- upload_path path_onedrive ;;
     o <- get_self ;;
     let url_pre := o.(url) +s "me/drive/root:" in
     let url_post := ":/content" in
     let index := Z.of_nat (List.length filenames) in
     batch_loop (upload_item filenames url_pre path_onedrive url_post log)
       upload_prefix fuel index).

(** The thread of a download, and the thread the loop starts for the file
    [filename] whose id is the string [file_id]. *)
Definition download_thread (o : OneDrive) (path_local : string) (log : bool)
  (filename : pyval) (url : string) : Worker :=
  DownloadIntern path_local filename (url +s "/content") o.(headers) log.

Definition download_worker (o : OneDrive) (path_local : string) (log : bool)
  (filename : pyval) (file_id : string) : Worker :=
  download_thread o path_local log filename
    ((o.(url) +s "me/drive/items/") +s file_id).

(** The body of the [for] loop of [Download].  The name is a key of the
    listing, of any hashable type; the id is whatever the service sent, and
    an id that is not a [str] raises [TypeError] at the concatenation, after
    the threads of the items before it have been started. *)
Definition download_item (keys : list pyval) (all_files : Dict)
  (path_local specific_file : string) (log : bool) (index : Z) : M unit :=
  filename <- list_item keys index ;;
  if (negb (String.eqb specific_file EmptyString)
      && key_eqb (PStr specific_file) filename)
     || String.eqb specific_file EmptyString
  then
    file_id <- lift (lookup all_files filename) ;;
    o <- get_self ;;
    url <- lift (concat_str (o.(url) +s "me/drive/items/") file_id) ;;
    start_thread (download_thread o path_local log filename url)
  else ret tt.

Definition Download (path_onedrive path_local specific_file : string)
  (log : bool) : M unit :=
  _SaveRequest
    (_CheckConnected ;;
     present <- os_path_exists path_local ;;
     (if negb present then os_makedirs path_local else ret tt) ;;
     let path_onedrive := strip_slashes path_onedrive in
     listing <- FetchAllFiles path_onedrive ;;
     let all_files := fst listing in
     let keys := pydict_keys all_files in
     let index := Z.of_nat (List.length keys) in
     batch_loop (download_item keys all_files path_local specific_file log)
       download_prefix fuel index).

End Methods.

(** ** Observations on a history *)

(** The batches joined so far, oldest first: one per [_JoinThreads]. *)
Fixpoint batches (h : History) : list (list Worker) :=
  match h with
  | [] => []
  | EvJoin ws :: h' => batches h' ++ [ws]
  | _ :: h' => batches h'
  end.

(** The workers started so far, oldest first. *)
Fixpoint started (h : History) : list Worker :=
  match h with
  | [] => []
  | EvStart w :: h' => started h' ++ [w]
  | _ :: h' => started h'
  end.

(** The requests sent so far, newest first. *)
Fixpoint requests_of (h : History) : list request :=
  match h with
  | [] => []
  | EvRequest r :: h' => r :: requests_of h'
  | _ :: h' => requests_of h'
  end.

(** A token refresh is the only request with form data, a probe the only
    [GET] without headers of a listing path; a move is the only [PATCH]. *)
Definition is_refresh (r : request) : bool :=
  match r.(req_body) with FormData _ => true | _ => false end.

Definition is_patch (r : request) : bool :=
  match r.(req_method) with PATCH => true | _ => false end.

Definition is_probe (o : OneDrive) (r : request) : bool :=
  match r.(req_method) with
  | GET => String.eqb r.(req_url) (o.(url) +s "me/drive/")
  | _ => false
  end.

Definition refreshes (h : History) : nat :=
  List.length (filter is_refresh (requests_of h)).

Definition patches (h : History) : nat :=
  List.length (filter is_patch (requests_of h)).

Definition probes (o : OneDrive) (h : History) : nat :=
  List.length (filter (is_probe o) (requests_of h)).

(** [msg] contains [name]. *)
Definition contains (msg name : string) : Prop :=
  exists before after, msg = before +s name +s after.

(** The bearer header and the token are in step. *)
Definition in_sync (o : OneDrive) : Prop :=
  match o.(token) with
  | PStr s => o.(headers) = bearer s
  | _ => False
  end.

(** ** Sample worlds and objects *)

Definition json_reply (status : Z) (v : pyval) : Response :=
  mkResponse status (status <? 400) (Some v) EmptyString.

Definition token_pair (access refresh : string) : pyval :=
  PDict [("access_token", PStr access); ("refresh_token", PStr refresh)].

(** A world that answers every request by [respond], whose clock stands at
    [now], whose local files all exist and can be written, whose
    scheduler runs the workers in the order they were started, and whose
    threads have all finished when an exception leaves them unjoined. *)
Definition world (respond : request -> exn + Response) (now : Z) : Env :=
  mkEnv (fun _ r => respond r) (fun _ => now) (fun _ _ => true)
    (fun _ _ => true) (fun _ _ => true) (fun _ _ => true) (fun _ ws => ws)
    (fun _ _ => true).

Definition sample_settings : list (string * pyval) :=
  [("max_threads", PInt 2); ("refresh_token", PStr "R0");
   ("browse_url", PStr "u/"); ("auth_url", PStr "auth");
   ("client_id", PStr "id"); ("permissions", PList [PStr "a"; PStr "b"]);
   ("redirect_uri", PStr "redir")].

(** A connected client, refreshed at time 1000. *)
Definition sample_client : OneDrive :=
  mkOneDrive [] 2 (PStr "R1") "u/" "auth" "id" [PStr "a"; PStr "b"] "redir"
    "a+b" 3600 50 (PStr "A1") 1000 (bearer "A1") [] true.

(** The auth endpoint answers [reply] to every token request and every
    other request succeeds with an empty JSON object. *)
Definition auth_world (reply : pyval) (now : Z) : Env :=
  world (fun r => if is_refresh r then inr (json_reply 200 reply)
                  else inr (json_reply 200 (PDict []))) now.

(** The settings [_SetParameters] reads without a default value, with the
    type each is checked against. *)
Definition required_settings : list (string * pytype) :=
  [("max_threads", TInt); ("refresh_token", TStr); ("browse_url", TStr);
   ("auth_url", TStr); ("client_id", TStr); ("permissions", TList);
   ("redirect_uri", TStr)].

(** The setting is present with the type wanted. *)
Definition well_set (parameters : list (string * pyval))
  (s : string * pytype) : bool :=
  match dict_get (fst s) parameters with
  | Some v => isinstance v (snd s)
  | None => false
  end.

(** A drive whose folder [src] lists one file, [a.txt], and whose folder
    [dst] does not exist; tokens are granted and the probe succeeds. *)
Definition missing_folder : pyval :=
  PDict [("error", PDict [("code", PStr "itemNotFound")])].

Definition one_file_listing : pyval :=
  PDict [("value", PList [PDict [("name", PStr "a.txt"); ("id", PStr "1")]])].

Definition drive_without_dst (r : request) : exn + Response :=
  if is_refresh r then inr (json_reply 200 (token_pair "A2" "R2"))
  else if String.eqb r.(req_url) "u/me/drive/root:/src:/children"
       then inr (json_reply 200 one_file_listing)
  else if String.eqb r.(req_url) "u/me/drive/root:/dst/"
       then inr (json_reply 404 missing_folder)
  else inr (json_reply 200 (PDict [("id", PStr "F")])).

(** ** The batches, in the words of the specification

    The items are treated as a stack: while it is not empty, up to [M]
    items are popped from the tail, the last item first, and form a batch.
    [n] bounds the number of batches. *)
Fixpoint spec_batches_upto {A : Type} (n M : nat) (l : list A)
  : list (list A) :=
  match n with
  | O => []
  | S n' =>
      match l with
      | [] => []
      | _ :: _ =>
          let keep := (List.length l - M)%nat in
          rev (skipn keep l) :: spec_batches_upto n' M (firstn keep l)
      end
  end.

Definition spec_batches {A : Type} (M : nat) (l : list A) : list (list A) :=
  spec_batches_upto (List.length l) M l.

(** ** The two loops and their workers *)

Definition item_name (w : Worker) : pyval :=
  match w with
  | UploadIntern filename _ _ _ => PStr filename
  | DownloadIntern _ filename _ _ _ => filename
  end.

(** The message names the item of the worker, or is the one a download
    records when it cannot write the local file. *)
Definition message_of (w : Worker) (m : string) : Prop :=
  (exists name, item_name w = PStr name /\ contains m name)
  \/ exists path_local filename url header log,
       w = DownloadIntern path_local filename url header log
       /\ m = "Could not write " +s path_local +s " to drive".

(** The workers of a join, each with the configuration it runs from. *)
Fixpoint worker_runs (env : Env) (ws : list Worker) (c : Conf)
  : list (Worker * Conf) :=
  match ws with
  | [] => []
  | w :: ws' => (w, c) :: worker_runs env ws' (snd (run_worker env w c))
  end.

Definition id_of (all_files : Dict) (name : pyval) : string :=
  match pydict_get name all_files with
  | Some (PStr i) => i
  | _ => EmptyString
  end.

(** The keys of a dict are hashable, and the ids of a listing are strings,
    as the service sends them. *)
Definition well_keyed (d : Dict) : Prop :=
  forall name, In name (pydict_keys d) -> hashable name = true.

Definition ids_are_strings (all_files : Dict) : Prop :=
  forall name id, In (name, id) all_files -> exists i, id = PStr i.

Definition upload_workers (o : OneDrive) (url_pre path_onedrive url_post : string)
  (log : bool) (filenames : list string) : list Worker :=
  map (upload_worker o url_pre path_onedrive url_post log) filenames.

Definition download_workers (o : OneDrive) (path_local : string) (log : bool)
  (all_files : Dict) : list Worker :=
  map (fun name => download_worker o path_local log name (id_of all_files name))
    (pydict_keys all_files).


(** [transfer o body prefix items]: the loop of [Upload], or of [Download]
    without a specific file, entered with the object [o], has the body
    [body] and the error prefix [prefix], and [items] are the workers of
    the items of its list, in the order of the list. *)
Inductive transfer (o : OneDrive) : (Z -> M unit) -> string -> list Worker -> Prop :=
| transfer_Upload filenames url_pre path_onedrive url_post log :
    transfer o
      (upload_item filenames url_pre path_onedrive url_post log) upload_prefix
      (upload_workers o url_pre path_onedrive url_post log filenames)
| transfer_Download all_files path_local log :
    well_keyed all_files ->
    ids_are_strings all_files ->
    transfer o
      (download_item (pydict_keys all_files) all_files path_local EmptyString
         log)
      download_prefix
      (download_workers o path_local log all_files).

(** A scheduler is fair when it runs the workers it is given, each once. *)
Definition fair (env : Env) : Prop :=
  forall h ws, Permutation (sched env h ws) ws.


(** A drive that refuses the upload of [b.txt] and takes every other file;
    tokens are granted and the probe succeeds. *)
Definition upload_refused : pyval :=
  PDict [("error", PDict [("code", PStr "accessDenied")])].

Definition drive_refusing_b (r : request) : exn + Response :=
  if is_refresh r then inr (json_reply 200 (token_pair "A2" "R2"))
  else if String.eqb r.(req_url) "u/me/drive/root:/d/b.txt:/content"
       then inr (json_reply 403 upload_refused)
  else inr (json_reply 200 (PDict [("id", PStr "F")])).

(** Sample uploads to the folder [d] by [sample_client]. *)
Definition sample_upload_body (filenames : list string) : Z -> M unit :=
  upload_item filenames "u/me/drive/root:" "/d/" ":/content" true.

Definition sample_upload_workers (filenames : list string) : list Worker :=
  upload_workers sample_client "u/me/drive/root:" "/d/" ":/content" true
    filenames.

Definition worker_a : Worker :=
  UploadIntern "a.txt" "u/me/drive/root:/d/a.txt:/content" (bearer "A1") true.

Definition worker_b : Worker :=
  UploadIntern "b.txt" "u/me/drive/root:/d/b.txt:/content" (bearer "A1") true.

(** [sample_client] after the [for] loop has started the uploads of [b.txt]
    and [a.txt]. *)
Definition after_launch : Conf :=
  (set_threads [worker_b; worker_a] sample_client,
   [EvStart worker_a; EvStart worker_b]).


(** A computation that returns leaves the bearer header and the token in
    step when it found them in step. *)
Definition sync_ok {A : Type} (m : M A) : Prop :=
  forall (c : Conf) (a : A) (c' : Conf),
    in_sync (fst c) -> m c = (Ok a, c') -> in_sync (fst c').

(** The token and the header derived from it. *)
Definition session_of (c : Conf) : pyval * Headers :=
  (token (fst c), headers (fst c)).

(** ** Definitions used by the proofs *)

(** The characters of the messages of a log. *)
Fixpoint total_length (ms : list string) : nat :=
  match ms with
  | [] => 0
  | m :: ms' => String.length m + total_length ms'
  end.

(** ** Frames: what a computation leaves as it is

    A frame is a reflexive and transitive relation between the
    configuration before and the configuration after.  A computation
    respects it when every run, whatever its outcome, relates the two. *)

Record Frame : Type := mkFrame {
  rel :> Conf -> Conf -> Prop;
  rel_refl : forall c, rel c c;
  rel_trans : forall a b c, rel a b -> rel b c -> rel a c
}.

Definition respects (F : Frame) {A : Type} (m : M A) : Prop :=
  forall c r c', m c = (r, c') -> F c c'.

(** The frame that keeps an observation [f] of the configuration. *)
Definition keeping {X : Type} (f : Conf -> X) : Frame.
Proof.
  refine (mkFrame (fun c c' => f c' = f c) _ _).
  - reflexivity.
  - intros a b c H1 H2. now rewrite H2.
Defined.

(** The frame of error logs that are only appended to. *)
Definition logging : Frame.
Proof.
  refine (mkFrame
            (fun c c' => exists l, errors (fst c') = errors (fst c) ++ l) _ _).
  - intros c. exists []. now rewrite app_nil_r.
  - intros a b c [l1 H1] [l2 H2]. exists (l1 ++ l2).
    now rewrite H2, H1, app_assoc.
Defined.


(** What [_SaveRequest] re-raises. *)
Definition saved (e : exn) : exn :=
  if String.eqb (str e) EmptyString
  then Exception "Unknown exception. Check internet connection" else e.

(** The runs of [_RefreshToken], one case per line of the method. *)
Definition refresh_outcome (env : Env) (o : OneDrive) (h : History)
  : result unit * Conf :=
  let h1 := EvRequest (refresh_request o) :: h in
  match http env h (refresh_request o) with
  | inl e => (Raise (saved e), (o, h1))
  | inr resp =>
      match text_json resp with
      | None => (Raise (JSONDecodeError "Expecting value"), (o, h1))
      | Some parsed =>
          match getitem parsed "access_token" with
          | inl e => (Raise (saved e), (o, h1))
          | inr access =>
              let o1 := set_token access o in
              match getitem parsed "refresh_token" with
              | inl e => (Raise (saved e), (o1, h1))
              | inr refresh =>
                  let o2 := set_last_updated (clock env h1)
                              (set_refresh_token refresh o1) in
                  match concat_str "Bearer " access with
                  | inl e => (Raise (saved e), (o2, EvClock :: h1))
                  | inr v =>
                      (Ok tt,
                       (set_headers [("Authorization", v)] o2, EvClock :: h1))
                  end
              end
          end
      end
  end.

(** The member variables no method assigns after construction. *)
Definition settings_of (c : Conf) : Z * string * Z * Z :=
  (max_threads (fst c), url (fst c), refresh_interval (fst c),
   number_retry_connection (fst c)).

(** What a worker leaves as it is: the object but for its error log, the
    batches joined and the workers started. *)
Definition beside_errors (c : Conf)
  : OneDrive * list (list Worker) * list Worker :=
  (set_errors [] (fst c), batches (snd c), started (snd c)).

(** The configuration a join leaves. *)
Definition joined (env : Env) (c : Conf) : Conf :=
  let c2 := snd (run_workers env (sched env (snd c) (threads (fst c))) c) in
  (set_threads [] (fst c2), EvJoin (threads (fst c)) :: snd c2).

(** The configuration the [for] loop leaves when it has started the
    workers [ws]: they are registered, in the order they were started. *)
Definition launched (ws : list Worker) (c : Conf) : Conf :=
  (set_threads (threads (fst c) ++ ws) (fst c), rev (map EvStart ws) ++ snd c).

Definition returns_true (r : result bool) : bool :=
  match r with
  | Ok true => true
  | _ => false
  end.

(** The batch [b], started from [c], records a failure: one of its workers,
    run at the join in the order of the scheduler, returns [True]. *)
Definition batch_fails (env : Env) (b : list Worker) (c : Conf) : bool :=
  let c1 := launched b c in
  existsb (fun wc => returns_true (fst (worker_body env (fst wc) (snd wc))))
    (worker_runs env (sched env (snd c1) (threads (fst c1))) c1).

(** The configuration after the batches [bs], each started and joined. *)
Fixpoint after_batches (env : Env) (bs : list (list Worker)) (c : Conf)
  : Conf :=
  match bs with
  | [] => c
  | b :: bs' => after_batches env bs' (joined env (launched b c))
  end.

(** The index of the first of the batches [bs] that records a failure when
    they are run one after the other from [c]. *)
Fixpoint first_failure (env : Env) (bs : list (list Worker)) (c : Conf)
  : option nat :=
  match bs with
  | [] => None
  | b :: bs' =>
      if batch_fails env b c then Some 0%nat
      else option_map S (first_failure env bs' (joined env (launched b c)))
  end.

(** The object is as the loop expects it at the head of a turn: no thread
    is registered and the settings the loop reads are those of [o0]. *)
Definition ready (o0 : OneDrive) (c : Conf) : Prop :=
  threads (fst c) = []
  /\ (headers (fst c) = headers o0 /\ url (fst c) = url o0)
  /\ max_threads (fst c) = max_threads o0.


(** A drive whose folder [src] lists five files; the content of the third
    cannot be read. *)
Definition five_files_listing : pyval :=
  PDict [("value",
          PList [PDict [("name", PStr "f1"); ("id", PStr "1")];
                 PDict [("name", PStr "f2"); ("id", PStr "2")];
                 PDict [("name", PStr "f3"); ("id", PStr "3")];
                 PDict [("name", PStr "f4"); ("id", PStr "4")];
                 PDict [("name", PStr "f5"); ("id", PStr "5")]])].

Definition drive_five_files (r : request) : exn + Response :=
  if is_refresh r then inr (json_reply 200 (token_pair "A2" "R2"))
  else if String.eqb r.(req_url) "u/me/drive/root:/src:/children"
       then inr (json_reply 200 five_files_listing)
  else if String.eqb r.(req_url) "u/me/drive/items/3/content"
       then inr (json_reply 404 missing_folder)
  else inr (json_reply 200 (PDict [])).

(** ** Further definitions used by the proofs *)

(** The error log of a configuration. *)
Definition errors_of (c : Conf) : list string := errors (fst c).

(** A computation that finds the error log empty leaves it empty, whether
    it returns, raises or goes on for ever. *)
Definition log_clean {A : Type} (m : M A) : Prop :=
  forall (c : Conf) (r : result A) (c' : Conf),
    errors (fst c) = [] -> m c = (r, c') -> errors (fst c') = [].

(** The strings of a list whose elements are all strings. *)
Fixpoint strings_of (l : list pyval) : option (list string) :=
  match l with
  | [] => Some []
  | PStr s :: l' => option_map (cons s) (strings_of l')
  | _ :: _ => None
  end.

(** [parameters[var]], and the value [_SetsAndChecksVariableWithDefaultValue]
    assigns: the setting when it is there with the type wanted, the default
    otherwise. *)
Definition setting (parameters : list (string * pyval)) (var : string) : pyval :=
  match dict_get var parameters with
  | Some v => v
  | None => PNone
  end.

Definition setting_or (parameters : list (string * pyval)) (var : string)
  (t : pytype) (default : pyval) : pyval :=
  if well_set parameters (var, t) then setting parameters var else default.

(** [n] copies of a string, one after the other. *)
Fixpoint repeat_string (s : string) (n : nat) : string :=
  match n with
  | O => EmptyString
  | S n' => s +s repeat_string s n'
  end.

(** The keys of a dict that contain [error]. *)
Definition error_keys (d : list (string * pyval)) : list string :=
  filter (str_in "error") (dict_keys d).

(** A computation that leaves the error log empty, however it found it. *)
Definition clears {A : Type} (m : M A) : Prop :=
  forall (c : Conf) (r : result A) (c' : Conf),
    m c = (r, c') -> errors (fst c') = [].

(** A client that is not connected and may try three times, and a service
    that renews the token and answers every probe with an error. *)
Definition retrying_client : OneDrive :=
  set_number_retry_connection 3 (set_is_connected false sample_client).

Definition drive_refusing_probes (r : request) : exn + Response :=
  if is_refresh r then inr (json_reply 200 (token_pair "A2" "R2"))
  else inr (json_reply 503 (PDict [])).

(** A call that leaves the error log as it found it unless it returns
    [True]. *)
Definition silent_unless_true (m : M bool) : Prop :=
  forall (c : Conf) (r : result bool) (c' : Conf),
    m c = (r, c') -> r <> Ok true -> errors (fst c') = errors (fst c).

(** A service that cannot be reached: every request raises. *)
Definition drive_offline (r : request) : exn + Response :=
  inl (RequestException "Connection refused").

(** A computation that sends at most one [PATCH] request, and one that
    has sent exactly one when it returns. *)
Definition at_most_one_patch {A : Type} (m : M A) : Prop :=
  forall (c : Conf) (r : result A) (c' : Conf),
    m c = (r, c') ->
    (patches (snd c) <= patches (snd c') <= S (patches (snd c)))%nat.

Definition one_patch_when_done {A : Type} (m : M A) : Prop :=
  forall (c : Conf) (a : A) (c' : Conf),
    m c = (Ok a, c') -> patches (snd c') = S (patches (snd c)).

(** The observation kept by everything that is not a move. *)
Definition patches_of (c : Conf) : nat := patches (snd c).

(** A computation that sends no [PATCH] request. *)
Definition no_patch {A : Type} (m : M A) : Prop :=
  respects (keeping patches_of) m.

(** [sample_client] with no thread allowed. *)
Definition client_without_threads : OneDrive := set_max_threads 0 sample_client.

(** The workers started so far, as an observation of the configuration. *)
Definition started_of (c : Conf) : list Worker := started (snd c).

(** The frame of runs that start only workers with the property [P]. *)
Definition starting (P : Worker -> Prop) : Frame.
Proof.
  refine (mkFrame
            (fun c c' => exists ws,
                 started (snd c') = started (snd c) ++ ws /\ Forall P ws)
            _ _).
  - intros c. exists []. now rewrite app_nil_r.
  - intros a b c (w1 & H1 & P1) (w2 & H2 & P2). exists (w1 ++ w2).
    split; [now rewrite H2, H1, app_assoc | now apply Forall_app].
Defined.

(** The download of [filename] into [path_local]. *)
Definition downloads (path_local filename : string) (log : bool) (w : Worker)
  : Prop :=
  exists url header,
    w = DownloadIntern path_local (PStr filename) url header log.

(** The connection flag, as an observation of the configuration. *)
Definition connected_of (c : Conf) : bool := is_connected (fst c).

(** A computation that leaves a connected client connected, whatever its
    outcome. *)
Definition stays_connected {A : Type} (m : M A) : Prop :=
  forall (c : Conf) (r : result A) (c' : Conf),
    is_connected (fst c) = true -> m c = (r, c') ->
    is_connected (fst c') = true.

(** The request [MakeDir] sends from the object [o]. *)
Definition mkdir_request (o : OneDrive) (path_onedrive new_folder_name : string)
  : request :=
  mkRequest POST
    (o.(url) +s "me/drive/root:/" +s strip_slashes path_onedrive +s ":/children")
    o.(headers)
    (JsonBody
       (PDict [("name", PStr new_folder_name);
               ("folder", PDict []);
               ("@microsoft.graph.conflictBehavior", PStr "fail")])).

(** A drive on which the folder to create is already there. *)
Definition name_taken : pyval :=
  PDict [("error", PDict [("code", PStr "nameAlreadyExists")])].

Definition drive_with_the_folder (r : request) : exn + Response :=
  inr (json_reply 409 name_taken).

(** A drive whose folder [src] lists two files, the first with a number as
    its id; the content of the second is missing. *)
Definition number_id_listing : pyval :=
  PDict [("value",
          PList [PDict [("name", PStr "f1"); ("id", PInt 1)];
                 PDict [("name", PStr "f2"); ("id", PStr "2")]])].

Definition drive_with_a_number_id (r : request) : exn + Response :=
  if is_refresh r then inr (json_reply 200 (token_pair "A2" "R2"))
  else if String.eqb r.(req_url) "u/me/drive/root:/src:/children"
       then inr (json_reply 200 number_id_listing)
  else if String.eqb r.(req_url) "u/me/drive/items/2/content"
       then inr (json_reply 404 missing_folder)
  else inr (json_reply 200 (PDict [])).

(** * Verification *)

(** ** Strings *)

Lemma append_assoc (a b c : string) : (a +s b) +s c = a +s (b +s c).
Proof. induction a as [|x a IH]; simpl; [reflexivity | now rewrite IH]. Qed.

Lemma append_empty_r (a : string) : a +s EmptyString = a.
Proof. induction a as [|x a IH]; simpl; [reflexivity | now rewrite IH]. Qed.

Lemma length_append (a b : string) :
  String.length (a +s b) = (String.length a + String.length b)%nat.
Proof. induction a as [|x a IH]; simpl; [reflexivity | now rewrite IH]. Qed.

Lemma contains_refl (s : string) : contains s s.
Proof. exists EmptyString, EmptyString. simpl. now rewrite append_empty_r. Qed.

Lemma contains_trans (a b c : string) :
  contains a b -> contains b c -> contains a c.
Proof.
  intros (p & q & ->) (p' & q' & ->).
  exists (p +s p'), (q' +s q). now rewrite !append_assoc.
Qed.

Lemma contains_append_l (p s name : string) :
  contains s name -> contains (p +s s) name.
Proof.
  intros (a & b & ->). exists (p +s a), b. now rewrite append_assoc.
Qed.

Lemma contains_append_r (s q name : string) :
  contains s name -> contains (s +s q) name.
Proof.
  intros (a & b & ->). exists a, (b +s q). now rewrite !append_assoc.
Qed.

(** Every message joined by [String.concat] is part of the result. *)
Lemma concat_contains (sep m : string) (ms : list string) :
  In m ms -> contains (String.concat sep ms) m.
Proof.
  induction ms as [|x ms IH]; [intros [] |].
  intros [-> | Hin]; destruct ms as [|y ms].
  - apply contains_refl.
  - cbn [String.concat]. apply contains_append_r, contains_refl.
  - destruct Hin.
  - cbn [String.concat]. apply contains_append_l, contains_append_l, IH, Hin.
Qed.


Lemma length_joined (sep m : string) (ms : list string) :
  String.length (String.concat sep (m :: ms))
  = (total_length (m :: ms) + String.length sep * List.length ms)%nat.
Proof.
  revert m. induction ms as [|x ms IH]; intros m.
  - simpl. lia.
  - change (String.concat sep (m :: x :: ms))
      with (m +s sep +s String.concat sep (x :: ms)).
    rewrite !length_append, IH. simpl. lia.
Qed.

(** ** The error log (C4) *)

Lemma FetchErrors_empty (prefix : string) (o : OneDrive) (h : History) :
  errors o = [] -> _FetchErrors prefix (o, h) = (Ok tt, (o, h)).
Proof.
  intros E. unfold _FetchErrors, bind, get_self. simpl. now rewrite E.
Qed.

Lemma FetchErrors_nonempty (prefix : string) (o : OneDrive) (h : History) :
  errors o <> [] ->
  _FetchErrors prefix (o, h)
  = (Raise (Exception (prefix +s String.concat ". " (errors o))),
     (set_errors [] o, h)).
Proof.
  intros E. unfold _FetchErrors, bind, get_self. simpl.
  destruct (errors o) as [|m ms]; [congruence | reflexivity].
Qed.

(** C4.  [_FetchErrors] on a log holding [m1 .. mN], [N >= 1], raises one
    exception whose message is the prefix followed by [m1 .. mN] joined by
    the separator, each message once (the length of the joined text is the
    sum of the lengths of the messages plus one separator between
    neighbours), and leaves the log empty; on an empty log it returns
    normally and changes nothing; so the drain that follows any drain is a
    no-op. *)
Theorem FetchErrors_drains_once (prefix : string) (o : OneDrive) (h : History) :
  (forall m ms,
      errors o = m :: ms ->
      _FetchErrors prefix (o, h)
      = (Raise (Exception (prefix +s String.concat ". " (m :: ms))),
         (set_errors [] o, h))
      /\ errors (set_errors [] o) = []
      /\ (forall x, In x (m :: ms) ->
            contains (prefix +s String.concat ". " (m :: ms)) x)
      /\ String.length (String.concat ". " (m :: ms))
         = (total_length (m :: ms) + 2 * List.length ms)%nat)
  /\ (errors o = [] -> _FetchErrors prefix (o, h) = (Ok tt, (o, h)))
  /\ (forall r c',
        _FetchErrors prefix (o, h) = (r, c') ->
        _FetchErrors prefix c' = (Ok tt, c')).
Proof.
  split; [| split].
  - intros m ms E. repeat split.
    + rewrite FetchErrors_nonempty by (rewrite E; discriminate).
      now rewrite E.
    + intros x Hx. apply contains_append_l, concat_contains, Hx.
    + apply length_joined.
  - apply FetchErrors_empty.
  - intros r c' Hrun. destruct (errors o) as [|m ms] eqn:E.
    + rewrite FetchErrors_empty in Hrun by exact E.
      inversion Hrun; subst. now apply FetchErrors_empty.
    + rewrite FetchErrors_nonempty in Hrun by (rewrite E; discriminate).
      inversion Hrun; subst. now apply FetchErrors_empty.
Qed.

Lemma FetchErrors_drains_once_witness :
  _FetchErrors "Could not upload all files: "
    (set_errors ["first"; "second"] sample_client, [])
  = (Raise (Exception "Could not upload all files: first. second"),
     (sample_client, [])).
Proof.
  exact (proj1 (proj1 (FetchErrors_drains_once "Could not upload all files: "
                         (set_errors ["first"; "second"] sample_client) [])
                  "first" ["second"] eq_refl)).
Defined.

(** ** Frames: rules

    One rule for each way a computation is put together. *)

Section FrameRules.

Variable F : Frame.

Lemma respects_ret {A : Type} (a : A) : respects F (ret a).
Proof. intros c r c' H. inversion H; subst. apply rel_refl. Qed.

Lemma respects_raise {A : Type} (e : exn) : respects F (@raise A e).
Proof. intros c r c' H. inversion H; subst. apply rel_refl. Qed.

Lemma respects_diverge {A : Type} : respects F (@diverge A).
Proof. intros c r c' H. inversion H; subst. apply rel_refl. Qed.

Lemma respects_get_self : respects F get_self.
Proof. intros c r c' H. inversion H; subst. apply rel_refl. Qed.

Lemma respects_get_history : respects F get_history.
Proof. intros c r c' H. inversion H; subst. apply rel_refl. Qed.

Lemma respects_lift {A : Type} (x : exn + A) : respects F (lift x).
Proof. destruct x; [apply respects_raise | apply respects_ret]. Qed.

Lemma respects_json_loads (r : Response) : respects F (json_loads r).
Proof.
  unfold json_loads. destruct (text_json r);
    [apply respects_ret | apply respects_raise].
Qed.

Lemma respects_list_item {A : Type} (l : list A) (i : Z) :
  respects F (list_item l i).
Proof.
  unfold list_item. destruct (py_index l i);
    [apply respects_ret | apply respects_raise].
Qed.

Lemma respects_char_at (c : option ascii) : respects F (char_at c).
Proof. destruct c; [apply respects_ret | apply respects_raise]. Qed.

Lemma respects_bind {A B : Type} (m : M A) (f : A -> M B) :
  respects F m -> (forall a, respects F (f a)) -> respects F (bind m f).
Proof.
  intros Hm Hf c r c' H. unfold bind in H.
  destruct (m c) as [[a | e |] c1] eqn:E.
  - eapply rel_trans; [eapply Hm, E | eapply Hf, H].
  - inversion H; subst. eapply Hm, E.
  - inversion H; subst. eapply Hm, E.
Qed.

Lemma respects_try_except {A : Type} (m : M A) (handler : exn -> M A) :
  respects F m -> (forall e, respects F (handler e)) ->
  respects F (try_except m handler).
Proof.
  intros Hm Hh c r c' H. unfold try_except in H.
  destruct (m c) as [[a | e |] c1] eqn:E.
  - inversion H; subst. eapply Hm, E.
  - eapply rel_trans; [eapply Hm, E | eapply Hh, H].
  - inversion H; subst. eapply Hm, E.
Qed.

Lemma respects_SaveRequest {A : Type} (m : M A) :
  respects F m -> respects F (_SaveRequest m).
Proof.
  intros Hm. apply respects_try_except; [exact Hm |].
  intros e. destruct (String.eqb (str e) EmptyString); apply respects_raise.
Qed.

Lemma respects_unjoined (env : Env) {A : Type} (m : M A) :
  respects F m -> (forall ws, respects F (run_workers env ws)) ->
  respects F (unjoined env m).
Proof.
  intros Hm Hws. apply respects_try_except; [exact Hm |]. intros e.
  apply respects_bind; [| intros _; apply respects_raise].
  unfold settle. apply respects_bind; [apply respects_get_self |]. intros o.
  apply respects_bind; [apply respects_get_history |]. intros h. apply Hws.
Qed.

Lemma respects_thread_body {A : Type} (m : M A) :
  respects F m -> respects F (thread_body m).
Proof.
  intros Hm c r c' H. unfold thread_body in H. inversion H; subst.
  destruct (m c) as [r1 c1] eqn:E. simpl. eapply Hm, E.
Qed.

Lemma respects_modify (g : OneDrive -> OneDrive) :
  (forall c, F c (g (fst c), snd c)) -> respects F (modify g).
Proof. intros Hg c r c' H. inversion H; subst. apply Hg. Qed.

Lemma respects_emit (e : event) :
  (forall c, F c (fst c, e :: snd c)) -> respects F (emit e).
Proof. intros He c r c' H. inversion H; subst. apply He. Qed.

Variable env : Env.

Lemma respects_requests (q : request) :
  (forall c, F c (fst c, EvRequest q :: snd c)) -> respects F (requests env q).
Proof.
  intros He c r c' H. unfold requests in H.
  destruct (http env (snd c) q); inversion H; subst; apply He.
Qed.

Lemma respects_time_now :
  (forall c, F c (fst c, EvClock :: snd c)) -> respects F (time_now env).
Proof. intros He c r c' H. inversion H; subst. apply He. Qed.

Lemma respects_isfile (p : string) :
  (forall c, F c (fst c, EvIsFile p :: snd c)) ->
  respects F (os_path_isfile env p).
Proof. intros He c r c' H. inversion H; subst. apply He. Qed.

Lemma respects_open_rb (p : string) :
  (forall c, F c (fst c, EvOpenRead p :: snd c)) -> respects F (open_rb env p).
Proof.
  intros He c r c' H. unfold open_rb in H.
  destruct (open_read env (snd c) p); inversion H; subst; apply He.
Qed.

Lemma respects_write_wb (p d : string) :
  (forall c, F c (fst c, EvWrite p d :: snd c)) ->
  respects F (write_wb env p d).
Proof.
  intros He c r c' H. unfold write_wb in H.
  destruct (write_ok env (snd c) p); inversion H; subst;
    [apply He | apply rel_refl].
Qed.

Lemma respects_exists (p : string) :
  (forall c, F c (fst c, EvPathExists p :: snd c)) ->
  respects F (os_path_exists env p).
Proof. intros He c r c' H. inversion H; subst. apply He. Qed.

Lemma respects_makedirs (p : string) :
  (forall c, F c (fst c, EvMakedirs p :: snd c)) ->
  respects F (os_makedirs env p).
Proof.
  intros He c r c' H. unfold os_makedirs in H.
  destruct (write_ok env (snd c) p); inversion H; subst;
    [apply He | apply rel_refl].
Qed.

End FrameRules.

(** Splitting a computation along its structure. *)
Ltac frame_side :=
  try solve [ intros [? ?]; cbn;
              first [ reflexivity
                    | now eexists [_]
                    | now exists []
                    | exists []; now rewrite app_nil_r
                    | eexists; reflexivity ] ].

Ltac frame_step :=
  first
    [ apply respects_ret | apply respects_raise | apply respects_diverge
    | apply respects_get_self | apply respects_get_history
    | apply respects_lift
    | apply respects_json_loads
    | apply respects_list_item
    | apply respects_char_at
    | apply respects_SaveRequest
    | apply respects_thread_body
    | apply respects_bind; [| intros ?]
    | apply respects_try_except; [| intros ?]
    | apply respects_modify; frame_side
    | apply respects_emit; frame_side
    | apply respects_requests; frame_side
    | apply respects_time_now; frame_side
    | apply respects_isfile; frame_side
    | apply respects_open_rb; frame_side
    | apply respects_write_wb; frame_side
    | apply respects_exists; frame_side
    | apply respects_makedirs; frame_side
    | assumption
    | match goal with
      | |- respects _ (if ?b then _ else _) => destruct b
      | |- respects _ (match ?x with _ => _ end) => destruct x
      | |- respects _ (let '(_, _) := ?x in _) => destruct x
      end ].

Ltac frame := repeat frame_step.

(** ** Token refresh (C5) *)

Lemma RefreshToken_run (env : Env) (o : OneDrive) (h : History) :
  _RefreshToken env (o, h) = refresh_outcome env o h.
Proof.
  unfold _RefreshToken, refresh_outcome, _SaveRequest, try_except, bind,
    get_self, requests, json_loads, saved. simpl.
  destruct (http env h (refresh_request o)) as [e | resp]; simpl;
    [destruct (String.eqb (str e) EmptyString); reflexivity |].
  destruct (text_json resp) as [parsed |]; [| reflexivity]. simpl.
  destruct (getitem parsed "access_token") as [e | access]; simpl;
    [destruct (String.eqb (str e) EmptyString); reflexivity |].
  destruct (getitem parsed "refresh_token") as [e | refresh]; simpl;
    [destruct (String.eqb (str e) EmptyString); reflexivity |].
  destruct (concat_str "Bearer " access) as [e | v]; simpl;
    [destruct (String.eqb (str e) EmptyString); reflexivity | reflexivity].
Qed.

Lemma getitem_missing (d : list (string * pyval)) (k : string) :
  dict_get k d = None -> getitem (PDict d) k = inl (KeyError k).
Proof. intros E. simpl. now rewrite E. Qed.

Lemma getitem_present (d : list (string * pyval)) (k : string) (v : pyval) :
  dict_get k d = Some v -> getitem (PDict d) k = inr v.
Proof. intros E. simpl. now rewrite E. Qed.

(** C5, as the code has it.  On a JSON object without [access_token]
    [_RefreshToken] raises and the object is as before.  On one with
    [access_token] but without [refresh_token] it raises, and
    [refresh_token], [headers] and [last_updated] are as before.  On one
    with both, the access token a string, it replaces all four. *)
Theorem RefreshToken_fields (env : Env) (o : OneDrive) (h : History)
  (resp : Response) (parsed : list (string * pyval)) :
  http env h (refresh_request o) = inr resp ->
  text_json resp = Some (PDict parsed) ->
  let h1 := EvRequest (refresh_request o) :: h in
  (dict_get "access_token" parsed = None ->
   _RefreshToken env (o, h) = (Raise (KeyError "access_token"), (o, h1)))
  /\ (forall a,
        dict_get "access_token" parsed = Some a ->
        dict_get "refresh_token" parsed = None ->
        exists o',
          _RefreshToken env (o, h) = (Raise (KeyError "refresh_token"), (o', h1))
          /\ refresh_token o' = refresh_token o
          /\ headers o' = headers o
          /\ last_updated o' = last_updated o)
  /\ (forall a r,
        dict_get "access_token" parsed = Some (PStr a) ->
        dict_get "refresh_token" parsed = Some r ->
        _RefreshToken env (o, h)
        = (Ok tt,
           (set_headers (bearer a)
              (set_last_updated (clock env h1)
                 (set_refresh_token r (set_token (PStr a) o))),
            EvClock :: h1))).
Proof.
  intros Hhttp Hjson h1. rewrite RefreshToken_run. unfold refresh_outcome.
  fold h1. rewrite Hhttp, Hjson. repeat split.
  - intros Ha. now rewrite (getitem_missing _ _ Ha).
  - intros a Ha Hr. rewrite (getitem_present _ _ _ Ha).
    rewrite (getitem_missing _ _ Hr). eexists. split; [reflexivity |].
    now simpl.
  - intros a r Ha Hr. rewrite (getitem_present _ _ _ Ha).
    now rewrite (getitem_present _ _ _ Hr).
Qed.

Lemma RefreshToken_fields_witness :
  _RefreshToken (auth_world (token_pair "A2" "R2") 2000) (sample_client, [])
  = (Ok tt,
     (set_headers (bearer "A2")
        (set_last_updated 2000
           (set_refresh_token (PStr "R2")
              (set_token (PStr "A2") sample_client))),
      [EvClock; EvRequest (refresh_request sample_client)])).
Proof.
  exact (proj2 (proj2 (RefreshToken_fields
                         (auth_world (token_pair "A2" "R2") 2000)
                         sample_client [] _ _ eq_refl eq_refl))
           "A2" (PStr "R2") eq_refl eq_refl).
Defined.

(** The claim as stated fails: an answer with [access_token] and without
    [refresh_token] makes [_RefreshToken] raise with the new access token
    already stored. *)
Lemma RefreshToken_keeps_new_token_on_failure :
  let run := _RefreshToken (auth_world (PDict [("access_token", PStr "A2")]) 2000)
               (sample_client, []) in
  fst run = Raise (KeyError "refresh_token")
  /\ token (fst (snd run)) = PStr "A2"
  /\ token sample_client = PStr "A1".
Proof. repeat split. Qed.

(** ** The heartbeat (C8) *)

Lemma Heartbeat_run (env : Env) (o : OneDrive) (h : History) :
  _CheckLastHeartbeat env (o, h)
  = if clock env h - last_updated o >? refresh_interval o
    then _RefreshToken env (o, EvClock :: h)
    else (Ok tt, (o, EvClock :: h)).
Proof.
  unfold _CheckLastHeartbeat, bind, time_now, get_self. simpl.
  now destruct (clock env h - last_updated o >? refresh_interval o).
Qed.

(** Every run of [_RefreshToken] sends exactly one token request. *)
Lemma RefreshToken_one_request (env : Env) (o : OneDrive) (h : History) :
  refreshes (snd (snd (_RefreshToken env (o, h)))) = S (refreshes h).
Proof.
  rewrite RefreshToken_run. unfold refresh_outcome.
  destruct (http env h (refresh_request o)) as [e | resp]; [reflexivity |].
  destruct (text_json resp) as [parsed |]; [| reflexivity].
  destruct (getitem parsed "access_token") as [e | access]; [reflexivity |].
  destruct (getitem parsed "refresh_token") as [e | refresh]; [reflexivity |].
  destruct (concat_str "Bearer " access) as [e | v]; reflexivity.
Qed.

(** A refresh that returns has set [last_updated] to the clock. *)
Lemma RefreshToken_stamps (env : Env) (o o' : OneDrive) (h h' : History) :
  _RefreshToken env (o, h) = (Ok tt, (o', h')) ->
  last_updated o' = clock env (EvRequest (refresh_request o) :: h)
  /\ refresh_interval o' = refresh_interval o.
Proof.
  rewrite RefreshToken_run. unfold refresh_outcome.
  destruct (http env h (refresh_request o)) as [e | resp]; [discriminate |].
  destruct (text_json resp) as [parsed |]; [| discriminate].
  destruct (getitem parsed "access_token") as [e | access]; [discriminate |].
  destruct (getitem parsed "refresh_token") as [e | refresh]; [discriminate |].
  destruct (concat_str "Bearer " access) as [e | v]; [discriminate |].
  intros E. inversion E; subst. now simpl.
Qed.

(** C8, as the code has it.  [_CheckLastHeartbeat] sends a token request
    exactly when the clock reading minus [last_updated] exceeds
    [refresh_interval].  With a refresh interval that is not negative and a
    clock that stands still, the call that follows a call that returned
    sends none: the two calls together refresh at most once. *)
Theorem Heartbeat_refreshes_when_stale (env : Env) (o : OneDrive) (h : History) :
  let now := clock env h in
  let run := _CheckLastHeartbeat env (o, h) in
  (now - last_updated o > refresh_interval o ->
   run = _RefreshToken env (o, EvClock :: h)
   /\ refreshes (snd (snd run)) = S (refreshes h))
  /\ (now - last_updated o <= refresh_interval o ->
      run = (Ok tt, (o, EvClock :: h))
      /\ refreshes (snd (snd run)) = refreshes h)
  /\ (0 <= refresh_interval o ->
      (forall h', clock env h' = now) ->
      fst run = Ok tt ->
      _CheckLastHeartbeat env (snd run)
      = (Ok tt, (fst (snd run), EvClock :: snd (snd run)))
      /\ (refreshes (EvClock :: snd (snd run)) <= S (refreshes h))%nat).
Proof.
  intros now run. subst run. rewrite Heartbeat_run. fold now.
  split; [| split].
  - intros Hgt.
    replace (now - last_updated o >? refresh_interval o) with true
      by (symmetry; apply Z.gtb_lt; lia).
    split; [reflexivity |].
    apply (RefreshToken_one_request env o (EvClock :: h)).
  - intros Hle.
    replace (now - last_updated o >? refresh_interval o) with false
      by (symmetry; rewrite Z.gtb_ltb; apply Z.ltb_ge; lia).
    split; reflexivity.
  - intros Hpos Hclock Hok.
    destruct (now - last_updated o >? refresh_interval o) eqn:Hcmp.
    + pose proof (RefreshToken_one_request env o (EvClock :: h)) as Hone.
      destruct (_RefreshToken env (o, EvClock :: h)) as [r [o' h']] eqn:Hrun.
      cbn [fst snd] in Hok, Hone |- *. subst r.
      destruct (RefreshToken_stamps _ _ _ _ _ Hrun) as [Hstamp Hint].
      rewrite Heartbeat_run, Hstamp, Hint, !Hclock.
      replace (now - now >? refresh_interval o) with false
        by (symmetry; rewrite Z.gtb_ltb; apply Z.ltb_ge; lia).
      split; [reflexivity |].
      change (refreshes (EvClock :: h')) with (refreshes h').
      rewrite Hone. apply le_n.
    + simpl. rewrite Heartbeat_run, Hclock, Hcmp.
      split; [reflexivity |]. unfold refreshes. simpl. lia.
Qed.

Lemma Heartbeat_refreshes_when_stale_witness :
  _CheckLastHeartbeat (auth_world (token_pair "A2" "R2") 1000)
    (sample_client, [])
  = (Ok tt, (sample_client, [EvClock])).
Proof.
  exact (proj1 (proj1 (proj2 (Heartbeat_refreshes_when_stale
                                (auth_world (token_pair "A2" "R2") 1000)
                                sample_client []))
                  ltac:(simpl; lia))).
Defined.

(** The claim as stated fails for a negative refresh interval: with the
    clock standing still, two calls in succession both refresh. *)
Lemma Heartbeat_refreshes_twice_when_interval_negative :
  let w := auth_world (token_pair "A2" "R2") 1000 in
  let first := _CheckLastHeartbeat w
                 (set_refresh_interval (-1) sample_client, []) in
  let second := _CheckLastHeartbeat w (snd first) in
  fst first = Ok tt /\ fst second = Ok tt
  /\ refreshes (snd (snd first)) = 1%nat
  /\ refreshes (snd (snd second)) = 2%nat.
Proof. repeat split. Qed.

(** ** Construction (C9) *)

Lemma SetsAndChecks_run (parameters : list (string * pyval)) (var : string)
  (t : pytype) (m : member) (c : Conf) :
  _SetsAndChecksVariable parameters var t m c
  = match dict_get var parameters with
    | None =>
        (Raise (Exception ("The variable " +s quote var +s
                           " is not given in the settings-json-file.")), c)
    | Some v =>
        if isinstance v t then (Ok tt, (setattr m v (fst c), snd c))
        else (Raise (Exception ("The variable " +s quote var +s
                                " did not match the specified data type")), c)
    end.
Proof.
  unfold _SetsAndChecksVariable.
  destruct (dict_get var parameters) as [v |]; [| reflexivity].
  now destruct (isinstance v t).
Qed.

(** One required setting that is missing or mistyped makes the chain of
    checks raise where it stands. *)
Lemma required_check_fails (parameters : list (string * pyval)) (var : string)
  (t : pytype) (m : member) (k : unit -> M unit) (c : Conf) :
  well_set parameters (var, t) = false ->
  exists e, bind (_SetsAndChecksVariable parameters var t m) k c = (Raise e, c).
Proof.
  unfold well_set, bind. simpl. rewrite SetsAndChecks_run.
  destruct (dict_get var parameters) as [v |].
  - intros ->. eexists. reflexivity.
  - intros _. eexists. reflexivity.
Qed.

Lemma required_check_passes (parameters : list (string * pyval)) (var : string)
  (t : pytype) (m : member) (k : unit -> M unit) (c : Conf) :
  well_set parameters (var, t) = true ->
  exists o, bind (_SetsAndChecksVariable parameters var t m) k c = k tt (o, snd c).
Proof.
  unfold well_set, bind. simpl. rewrite SetsAndChecks_run.
  destruct (dict_get var parameters) as [v |]; [| discriminate].
  intros ->. eexists. reflexivity.
Qed.

Ltac reject_here :=
  let E := fresh "E" in
  intros _ ? E; rewrite E; unfold raise; eexists; eexists; reflexivity.

Lemma SetParameters_rejects (parameters : list (string * pyval)) (c : Conf) :
  (exists s, In s required_settings /\ well_set parameters s = false) ->
  exists msg o',
    _SetParameters parameters c
    = (Raise (Exception ("Could not initialize parameters: " +s msg)),
       (o', snd c)).
Proof.
  intros Hbad. destruct c as [o0 h0]. unfold _SetParameters, try_except.
  cbn [snd].
  assert (Hstep : forall (var : string) (t : pytype) (m : member)
                    (k : unit -> M unit) (c0 : Conf) (P : Prop),
             (well_set parameters (var, t) = false ->
              forall e, bind (_SetsAndChecksVariable parameters var t m) k c0
                        = (Raise e, c0) -> P) ->
             (well_set parameters (var, t) = true ->
              forall o, bind (_SetsAndChecksVariable parameters var t m) k c0
                        = k tt (o, snd c0) -> P) ->
             P).
  { intros var t m k c0 P Hf Hp.
    destruct (well_set parameters (var, t)) eqn:E.
    - destruct (required_check_passes _ _ _ m k c0 E) as [o Ho]. eauto.
    - destruct (required_check_fails _ _ _ m k c0 E) as [e He]. eauto. }
  eapply Hstep; [reject_here |]. intros W1 o1 ->.
  eapply Hstep; [reject_here |]. intros W2 o2 ->.
  eapply Hstep; [reject_here |]. intros W3 o3 ->.
  eapply Hstep; [reject_here |]. intros W4 o4 ->.
  eapply Hstep; [reject_here |]. intros W5 o5 ->.
  eapply Hstep; [reject_here |]. intros W6 o6 ->.
  eapply Hstep; [reject_here |]. intros W7 o7 ->.
  exfalso. destruct Hbad as (s & Hin & Hs). simpl in Hin.
  repeat (destruct Hin as [<- | Hin]; [congruence |]). exact Hin.
Qed.

(** C9, as the code has it.  When one of the seven settings without a
    default is missing or has the wrong type, construction raises
    [Could not initialize parameters: ...] and the history is empty: no
    request was sent, the clock was not read, nothing happened. *)
Theorem construct_rejects_bad_required_setting (env : Env) (fuel : nat)
  (parameters : list (string * pyval)) :
  (exists s, In s required_settings /\ well_set parameters s = false) ->
  exists msg o',
    construct env fuel parameters
    = (Raise (Exception ("Could not initialize parameters: " +s msg)), (o', []))
    /\ requests_of (snd (snd (construct env fuel parameters))) = [].
Proof.
  intros Hbad. unfold construct, __init__, bind.
  destruct (SetParameters_rejects parameters (new_OneDrive, []) Hbad)
    as (msg & o' & ->).
  exists msg, o'. split; reflexivity.
Qed.

Lemma construct_rejects_bad_required_setting_witness :
  exists msg o',
    construct (auth_world (token_pair "A2" "R2") 1000) 5
      [("max_threads", PStr "two"); ("refresh_token", PStr "R0")]
    = (Raise (Exception ("Could not initialize parameters: " +s msg)), (o', []))
    /\ requests_of
         (snd (snd (construct (auth_world (token_pair "A2" "R2") 1000) 5
                      [("max_threads", PStr "two"); ("refresh_token", PStr "R0")])))
       = [].
Proof.
  apply construct_rejects_bad_required_setting.
  exists ("max_threads", TInt). split; [simpl; auto | reflexivity].
Defined.

(** The claim as stated fails for the two settings with a default: a
    [refresh_interval] of the wrong type is replaced by 3600 and
    construction goes on to the network. *)
Lemma construct_accepts_mistyped_optional_setting :
  let run := construct (auth_world (token_pair "A2" "R2") 1000) 5
               (sample_settings ++ [("refresh_interval", PStr "often")]) in
  fst run = Ok tt
  /\ refresh_interval (fst (snd run)) = 3600
  /\ List.length (requests_of (snd (snd run))) = 2%nat.
Proof. repeat split. Qed.

(** ** Connecting (C3) *)

Lemma RefreshToken_keeps_settings (env : Env) :
  respects (keeping settings_of) (_RefreshToken env).
Proof. unfold _RefreshToken. frame. Qed.

Lemma RefreshToken_keeps_probes (env : Env) (o : OneDrive) :
  respects (keeping (fun c => probes o (snd c))) (_RefreshToken env).
Proof.
  unfold _RefreshToken. frame.
Qed.

Lemma saved_saved (e : exn) : saved (saved e) = saved e.
Proof.
  unfold saved. destruct (String.eqb (str e) EmptyString) eqn:E;
    [reflexivity | now rewrite E].
Qed.

Lemma SaveRequest_run {A : Type} (m : M A) (c : Conf) :
  _SaveRequest m c
  = match m c with
    | (Raise e, c') => (Raise (saved e), c')
    | other => other
    end.
Proof.
  unfold _SaveRequest, try_except, saved.
  destruct (m c) as [[a | e |] c']; try reflexivity.
  now destruct (String.eqb (str e) EmptyString).
Qed.

(** [_Connect], one case per line of the method. *)
Lemma Connect_run (env : Env) (c : Conf) :
  _Connect env c
  = match _RefreshToken env c with
    | (Ok _, (o1, h1)) =>
        let h2 := EvRequest (probe_request o1) :: h1 in
        match http env h1 (probe_request o1) with
        | inl e => (Raise (saved e), (o1, h2))
        | inr response =>
            (Ok tt,
             (set_is_connected (status_code response =? 200) o1, h2))
        end
    | (Raise e, c1) => (Raise (saved e), c1)
    | (Diverge, c1) => (Diverge, c1)
    end.
Proof.
  unfold _Connect. rewrite SaveRequest_run. unfold bind at 1.
  destruct (_RefreshToken env c) as [[[] | e |] [o1 h1]]; try reflexivity.
  unfold bind, get_self, requests. simpl.
  destruct (http env h1 (probe_request o1)) as [e | response]; [reflexivity |].
  simpl. now destruct (status_code response =? 200).
Qed.

Lemma Connect_keeps_settings (env : Env) :
  respects (keeping settings_of) (_Connect env).
Proof. unfold _Connect. frame. Qed.

(** One [_Connect] sends at most one probe. *)
Lemma Connect_probes (env : Env) (o : OneDrive) (c : Conf) :
  (probes o (snd (snd (_Connect env c))) <= S (probes o (snd c)))%nat.
Proof.
  rewrite Connect_run.
  pose proof (RefreshToken_keeps_probes env o c) as Hkeep.
  destruct (_RefreshToken env c) as [[[] | e |] [o1 h1]];
    specialize (Hkeep _ _ eq_refl); simpl in Hkeep.
  - destruct (http env h1 (probe_request o1)) as [e | response];
      cbn [snd]; unfold probes in *; cbn [requests_of filter];
      destruct (is_probe o (probe_request o1)); simpl; lia.
  - simpl. lia.
  - simpl. lia.
Qed.

(** The loop makes fewer attempts than [number_retry_connection]: started
    with [attempts] attempts behind it, it sends at most
    [number_retry_connection - 1 - attempts] probes. *)
Lemma connect_loop_probes (env : Env) (o : OneDrive) (n : nat) :
  forall (attempts : Z) (c : Conf),
    settings_of c = settings_of (o, []) ->
    attempts < number_retry_connection o ->
    (probes o (snd (snd (connect_loop env n attempts c)))
     <= probes o (snd c) + Z.to_nat (number_retry_connection o - 1 - attempts))%nat.
Proof.
  induction n as [|n IH]; intros attempts [o1 h1] Hset Hlt.
  - unfold connect_loop, bind, get_self. simpl.
    destruct (is_connected o1); simpl; lia.
  - cbn [connect_loop]. unfold bind at 1. unfold get_self at 1. cbn [fst snd].
    destruct (is_connected o1); [simpl; lia |].
    assert (HN : number_retry_connection o1 = number_retry_connection o)
      by (unfold settings_of in Hset; simpl in Hset; congruence).
    rewrite HN.
    destruct (attempts + 1 =? number_retry_connection o) eqn:Hlast;
      [simpl; lia |].
    apply Z.eqb_neq in Hlast.
    unfold bind at 1.
    pose proof (Connect_probes env o (o1, h1)) as Hone.
    pose proof (Connect_keeps_settings env (o1, h1)) as Hkeep.
    destruct (_Connect env (o1, h1)) as [[[] | e |] [o2 h2]];
      specialize (Hkeep _ _ eq_refl); simpl in Hone, Hkeep; cbn [snd] in *;
      try lia.
    unfold bind at 1. unfold sleep, emit. cbn [fst snd].
    specialize (IH (attempts + 1) (o2, EvSleep 500 :: h2)).
    cbn [snd] in IH.
    change (probes o (EvSleep 500 :: h2)) with (probes o h2) in IH.
    assert (Hs : settings_of (o2, EvSleep 500 :: h2) = settings_of (o, []))
      by (rewrite <- Hset; exact Hkeep).
    specialize (IH Hs ltac:(lia)). lia.
Qed.

(** C3 at its failing input.  With [number_retry_connection = 1] a client
    that is not connected raises [Could not connect to OneDrive] at once:
    the history is as before, no token request and no probe was sent,
    although one attempt is allowed and would have succeeded. *)
Theorem CheckConnected_gives_up_before_last_attempt (env : Env) (fuel : nat)
  (o : OneDrive) (h : History) :
  is_connected o = false ->
  number_retry_connection o = 1 ->
  _CheckConnected env (S fuel) (o, h)
  = (Raise (Exception "Could not connect to OneDrive"), (o, h)).
Proof.
  intros Hc HN. unfold _CheckConnected, bind, get_self. simpl.
  rewrite Hc. simpl. unfold bind, get_self. simpl. rewrite Hc, HN.
  reflexivity.
Qed.

Lemma CheckConnected_gives_up_before_last_attempt_witness :
  _CheckConnected (auth_world (token_pair "A2" "R2") 1000) 5
    (set_number_retry_connection 1 (set_is_connected false sample_client), [])
  = (Raise (Exception "Could not connect to OneDrive"),
     (set_number_retry_connection 1 (set_is_connected false sample_client), [])).
Proof.
  exact (CheckConnected_gives_up_before_last_attempt
           (auth_world (token_pair "A2" "R2") 1000) 4
           (set_number_retry_connection 1 (set_is_connected false sample_client))
           [] eq_refl eq_refl).
Defined.

(** With the same world and two attempts allowed the first one connects. *)
Example CheckConnected_two_attempts_allowed :
  let run := _CheckConnected (auth_world (token_pair "A2" "R2") 1000) 5
               (set_number_retry_connection 2
                  (set_is_connected false sample_client), []) in
  fst run = Ok tt
  /\ probes sample_client (snd (snd run)) = 1%nat.
Proof. repeat split. Qed.

(** ** Runs that return *)

Lemma bind_ok {A B : Type} (m : M A) (f : A -> M B) (c c' : Conf) (b : B) :
  bind m f c = (Ok b, c') ->
  exists a c1, m c = (Ok a, c1) /\ f a c1 = (Ok b, c').
Proof.
  unfold bind. destruct (m c) as [[a | e |] c1]; try discriminate.
  intros H. now exists a, c1.
Qed.

Lemma bind_run {A B : Type} (m : M A) (f : A -> M B) (c c1 : Conf) (a : A) :
  m c = (Ok a, c1) -> bind m f c = f a c1.
Proof. intros E. unfold bind. now rewrite E. Qed.

Lemma unjoined_run (env : Env) {A : Type} (m : M A) (c c1 : Conf) (a : A) :
  m c = (Ok a, c1) -> unjoined env m c = (Ok a, c1).
Proof. intros E. unfold unjoined, try_except. now rewrite E. Qed.

Lemma unjoined_ok (env : Env) {A : Type} (m : M A) (c c1 : Conf) (a : A) :
  unjoined env m c = (Ok a, c1) -> m c = (Ok a, c1).
Proof.
  unfold unjoined, try_except. destruct (m c) as [[a0 | e |] c0];
    [auto | | discriminate].
  unfold bind. destruct (settle env c0) as [[u | e0 |] c2]; discriminate.
Qed.

Lemma SaveRequest_ok {A : Type} (m : M A) (c c' : Conf) (a : A) :
  _SaveRequest m c = (Ok a, c') <-> m c = (Ok a, c').
Proof.
  rewrite SaveRequest_run. destruct (m c) as [[a0 | e |] c1];
    split; intros H; try discriminate; exact H.
Qed.

Lemma FetchErrors_ok (prefix : string) (c c' : Conf) :
  _FetchErrors prefix c = (Ok tt, c') -> c' = c /\ errors (fst c) = [].
Proof.
  destruct c as [o h]. destruct (errors o) as [|m ms] eqn:E.
  - rewrite FetchErrors_empty by exact E. intros H. inversion H. now split.
  - rewrite FetchErrors_nonempty by (rewrite E; discriminate). discriminate.
Qed.

Lemma lift_ok {A : Type} (x : exn + A) (c c' : Conf) (a : A) :
  lift x c = (Ok a, c') -> c' = c /\ x = inr a.
Proof.
  destruct x as [e | a0]; simpl; intros H; inversion H; now split.
Qed.

(** ** The keys of a dict *)

Lemma float_eqb_refl (f : pyfloat) : float_eqb f f = true.
Proof.
  destruct f as [m e | s]; cbn [float_eqb].
  - apply Z.eqb_refl.
  - apply Bool.eqb_reflx.
Qed.

Lemma key_eqb_refl (k : pyval) : hashable k = true -> key_eqb k k = true.
Proof.
  destruct k; cbn; try discriminate; intros _;
    auto using float_eqb_refl, String.eqb_refl, Z.eqb_refl.
Qed.

(** Only the string itself equals a string. *)
Lemma key_eqb_str (k : pyval) (s : string) :
  key_eqb k (PStr s) = true <-> k = PStr s.
Proof.
  split.
  - destruct k; cbn; try discriminate. intros H.
    apply String.eqb_eq in H. now subst.
  - intros ->. cbn. apply String.eqb_refl.
Qed.

Lemma str_key_eqb (k : pyval) (s : string) :
  key_eqb (PStr s) k = true <-> k = PStr s.
Proof.
  split.
  - destruct k; cbn; try discriminate. intros H.
    apply String.eqb_eq in H. now subst.
  - intros ->. cbn. apply String.eqb_refl.
Qed.

(** A key of a dict is found in it. *)
Lemma own_key_found (d : Dict) (k : pyval) :
  well_keyed d -> In k (pydict_keys d) -> exists v, pydict_get k d = Some v.
Proof.
  induction d as [|[k' v'] d IH]; intros Hw Hin; [destruct Hin |].
  cbn [pydict_get]. destruct (key_eqb k k') eqn:E; [now exists v' |].
  destruct Hin as [Heq | Hin].
  - cbn [fst] in Heq. subst k'. rewrite key_eqb_refl in E; [discriminate |].
    apply Hw. now left.
  - apply IH; [| exact Hin]. intros x Hx. apply Hw. now right.
Qed.

(** What is looked up is the value of an entry. *)
Lemma pydict_get_in (d : Dict) (k v : pyval) :
  pydict_get k d = Some v -> exists k', In (k', v) d /\ key_eqb k k' = true.
Proof.
  induction d as [|[k' v'] d IH]; [discriminate |]. cbn [pydict_get].
  destruct (key_eqb k k') eqn:E.
  - intros H. inversion H; subst. exists k'. split; [now left | exact E].
  - intros H. destruct (IH H) as (k2 & Hin & Hk). exists k2.
    split; [now right | exact Hk].
Qed.

(** ** Moving a file that is not there (C10) *)

Lemma move_loop_absent (env : Env) (keys : list pyval)
  (files_ids : Dict) (dest_path_id : pyval)
  (src arg_filename : string) (c : Conf) :
  ~ In (PStr arg_filename) keys ->
  move_loop env keys files_ids dest_path_id src arg_filename c = (Ok tt, c).
Proof.
  induction keys as [|k keys IH]; intros Hnot; [reflexivity |].
  cbn [move_loop]. destruct (key_eqb k (PStr arg_filename)) eqn:E.
  - exfalso. apply Hnot. left. now apply key_eqb_str.
  - apply IH. intros Hin. apply Hnot. now right.
Qed.

Lemma connect_loop_keeps_patches (env : Env) (n : nat) (attempts : Z) :
  respects (keeping (fun c => patches (snd c))) (connect_loop env n attempts).
Proof.
  revert attempts. induction n as [|n IH]; intros attempts.
  - cbn [connect_loop]. frame.
  - cbn [connect_loop]. frame. apply IH.
Qed.

Lemma CheckConnected_keeps_patches (env : Env) (fuel : nat) :
  respects (keeping (fun c => patches (snd c))) (_CheckConnected env fuel).
Proof.
  unfold _CheckConnected. frame. apply connect_loop_keeps_patches.
Qed.

Lemma FetchFolderID_keeps_patches (env : Env) (fuel : nat) (p : string) :
  respects (keeping (fun c => patches (snd c))) (_FetchFolderID env fuel p).
Proof.
  unfold _FetchFolderID. frame. apply connect_loop_keeps_patches.
Qed.

Lemma FetchAllFiles_keeps_patches (env : Env) (fuel : nat) (p : string) :
  respects (keeping (fun c => patches (snd c))) (FetchAllFiles env fuel p).
Proof.
  unfold FetchAllFiles. frame. apply connect_loop_keeps_patches.
Qed.

(** Taking a run that returned apart, bind by bind. *)
Ltac ok_inv H :=
  repeat (cbv zeta in H;
          match type of H with
          | bind _ _ _ = (Ok _, _) =>
              let a := fresh "a" in
              let c := fresh "c" in
              let E := fresh "E" in
              apply bind_ok in H; destruct H as (a & c & E & H)
          end).

(** A folder lookup that returns leaves the error log empty. *)
Lemma FetchFolderID_ok_errors (env : Env) (fuel : nat) (p : string)
  (c c' : Conf) (v : pyval) :
  _FetchFolderID env fuel p c = (Ok v, c') -> errors (fst c') = [].
Proof.
  unfold _FetchFolderID. rewrite SaveRequest_ok. intros H. ok_inv H.
  apply lift_ok in H. destruct H as [-> _].
  match goal with E : _FetchErrors _ _ = (Ok ?u, _) |- _ =>
    destruct u; apply FetchErrors_ok in E; destruct E as [-> E]; exact E
  end.
Qed.

(** C10, as the code has it.  When the connection check and the listing of
    the source directory return, the file is not among the files listed,
    and the lookup of the destination folder returns, [MoveFile] returns
    in the configuration the lookup left: no [PATCH] request was sent and
    the error log is empty. *)
Theorem MoveFile_ignores_absent_file (env : Env) (fuel : nat)
  (dest src name : string) (c c1 c2 c3 : Conf)
  (files folders : Dict) (dest_id : pyval) :
  _CheckConnected env fuel c = (Ok tt, c1) ->
  FetchAllFiles env fuel (strip_slashes src) c1 = (Ok (files, folders), c2) ->
  ~ In (PStr name) (pydict_keys files) ->
  _FetchFolderID env fuel (strip_slashes dest) c2 = (Ok dest_id, c3) ->
  MoveFile env fuel dest src name c = (Ok tt, c3)
  /\ patches (snd c3) = patches (snd c)
  /\ errors (fst c3) = [].
Proof.
  intros Hconn Hlist Hnot Hdest. repeat split.
  - unfold MoveFile. apply SaveRequest_ok.
    rewrite (bind_run _ _ _ _ _ Hconn). cbv zeta.
    rewrite (bind_run _ _ _ _ _ Hlist). cbn [fst].
    rewrite (bind_run _ _ _ _ _ Hdest).
    now apply move_loop_absent.
  - rewrite (FetchFolderID_keeps_patches _ _ _ _ _ _ Hdest).
    rewrite (FetchAllFiles_keeps_patches _ _ _ _ _ _ Hlist).
    apply (CheckConnected_keeps_patches _ _ _ _ _ Hconn).
  - eapply FetchFolderID_ok_errors, Hdest.
Qed.

Lemma MoveFile_ignores_absent_file_witness :
  MoveFile (world drive_without_dst 1000) 5 "elsewhere" "src" "b.txt"
    (sample_client, [])
  = (Ok tt,
     snd (_FetchFolderID (world drive_without_dst 1000) 5 "elsewhere"
            (snd (FetchAllFiles (world drive_without_dst 1000) 5 "src"
                    (sample_client, [EvClock]))))).
Proof.
  refine (proj1 (MoveFile_ignores_absent_file (world drive_without_dst 1000) 5
                   "elsewhere" "src" "b.txt" (sample_client, [])
                   (sample_client, [EvClock]) _ _
                   [(PStr "a.txt", PStr "1")] []
                   (PStr "F") eq_refl eq_refl _ eq_refl)).
  simpl. intros [H | []]. discriminate H.
Defined.

(** The claim as stated fails: the file is not among those listed, the
    destination folder does not exist, and [MoveFile] raises the error of
    the folder lookup. *)
Lemma MoveFile_raises_for_absent_file_and_missing_destination :
  let w := world drive_without_dst 1000 in
  fst (FetchAllFiles w 5 "src" (sample_client, []))
  = Ok ([(PStr "a.txt", PStr "1")], [])
  /\ ~ In (PStr "b.txt") (pydict_keys [(PStr "a.txt", PStr "1")])
  /\ fst (MoveFile w 5 "dst" "src" "b.txt" (sample_client, []))
     = Raise (Exception
                "Could not fetch the folder ID of dst (Code: itemNotFound)")
  /\ patches (snd (snd (MoveFile w 5 "dst" "src" "b.txt" (sample_client, []))))
     = 0%nat.
Proof.
  repeat split. simpl. intros [H | []]. discriminate H.
Qed.

(** ** The batches of the specification *)

Section SpecBatches.

Context {A : Type}.
Variable M : nat.
Hypothesis M_positive : (1 <= M)%nat.

Lemma spec_batches_upto_enough (n m : nat) :
  forall l : list A,
    (List.length l <= n)%nat -> (List.length l <= m)%nat ->
    spec_batches_upto n M l = spec_batches_upto m M l.
Proof.
  revert m. induction n as [|n IH]; intros m l Hn Hm.
  - destruct l; [| simpl in Hn; lia]. now destruct m.
  - destruct m as [|m]; [destruct l; [reflexivity | simpl in Hm; lia] |].
    destruct l as [|a l]; [reflexivity |].
    cbn [spec_batches_upto]. f_equal.
    apply IH; rewrite length_firstn; cbn [List.length] in *; lia.
Qed.

Lemma spec_batches_upto_S (n : nat) (l : list A) :
  l <> [] ->
  spec_batches_upto (S n) M l
  = rev (skipn (List.length l - M) l)
    :: spec_batches_upto n M (firstn (List.length l - M) l).
Proof. destruct l; [congruence | reflexivity]. Qed.

(** The first batch is the last [min M (length l)] items, the last item
    first; the other batches are those of the list without these items. *)
Lemma spec_batches_cons (l : list A) :
  l <> [] ->
  spec_batches M l
  = rev (skipn (List.length l - M) l)
    :: spec_batches M (firstn (List.length l - M) l).
Proof.
  intros Hne. unfold spec_batches at 1.
  destruct (List.length l) as [|n] eqn:Hlen;
    [destruct l; [congruence | discriminate] |].
  rewrite spec_batches_upto_S by exact Hne. rewrite Hlen. f_equal.
  apply spec_batches_upto_enough; rewrite length_firstn; lia.
Qed.

Lemma spec_batches_nil : spec_batches M (@nil A) = [].
Proof. reflexivity. Qed.

(** Induction along the batches. *)
Lemma spec_batches_ind (P : list A -> Prop) :
  P [] ->
  (forall l, l <> [] -> P (firstn (List.length l - M) l) -> P l) ->
  forall l, P l.
Proof.
  intros Hnil Hstep l.
  remember (List.length l) as n eqn:En. revert l En.
  induction n as [n IH] using lt_wf_ind. intros l En.
  destruct l as [|a l]; [exact Hnil |].
  apply Hstep; [discriminate |].
  eapply IH; [| reflexivity]. rewrite length_firstn. subst n.
  cbn [List.length]. lia.
Qed.


(** There are [ceil (length l / M)] batches. *)
Lemma length_spec_batches (l : list A) :
  List.length (spec_batches M l) = ((List.length l + M - 1) / M)%nat.
Proof.
  induction l as [| l Hne IH] using spec_batches_ind.
  - simpl. symmetry. apply Nat.div_small. lia.
  - rewrite spec_batches_cons by exact Hne. cbn [List.length]. rewrite IH.
    rewrite length_firstn.
    assert (Hpos : (0 < List.length l)%nat)
      by (destruct l; [congruence | simpl; lia]).
    destruct (Nat.le_gt_cases M (List.length l)) as [Hge | Hlt].
    + replace (Nat.min (List.length l - M) (List.length l))
        with (List.length l - M)%nat by lia.
      replace (List.length l + M - 1)%nat
        with ((List.length l - M + M - 1) + 1 * M)%nat by lia.
      rewrite Nat.div_add by lia. lia.
    + replace (Nat.min (List.length l - M) (List.length l)) with 0%nat by lia.
      replace (0 + M - 1)%nat with (M - 1)%nat by lia.
      rewrite (Nat.div_small (M - 1) M) by lia.
      replace (List.length l + M - 1)%nat
        with ((List.length l - 1) + 1 * M)%nat by lia.
      rewrite Nat.div_add by lia.
      rewrite (Nat.div_small (List.length l - 1) M) by lia. reflexivity.
Qed.

(** Every batch but the last has exactly [M] items. *)
Lemma spec_batches_full (l : list A) :
  forall k, (S k < List.length (spec_batches M l))%nat ->
            List.length (nth k (spec_batches M l) []) = M.
Proof.
  induction l as [| l Hne IH] using spec_batches_ind; intros k Hk.
  - simpl in Hk. lia.
  - rewrite spec_batches_cons in Hk |- * by exact Hne.
    cbn [List.length] in Hk.
    assert (Hrest : firstn (List.length l - M) l <> []).
    { intros E. rewrite E in Hk. simpl in Hk. lia. }
    assert (Hgt : (M < List.length l)%nat).
    { destruct (Nat.le_gt_cases (List.length l) M) as [Hle | Hgt];
        [| exact Hgt].
      exfalso. apply Hrest.
      replace (List.length l - M)%nat with 0%nat by lia. reflexivity. }
    destruct k as [|k].
    + cbn [nth]. rewrite length_rev, length_skipn. lia.
    + cbn [nth]. apply IH. lia.
Qed.

(** The last batch has [length l mod M] items, or [M] when [M] divides the
    length. *)
Lemma spec_batches_last (l : list A) :
  l <> [] ->
  List.length (last (spec_batches M l) [])
  = if (List.length l mod M =? 0)%nat then M else (List.length l mod M)%nat.
Proof.
  induction l as [| l Hne IH] using spec_batches_ind; [congruence |].
  intros _. rewrite spec_batches_cons by exact Hne.
  assert (Hpos : (0 < List.length l)%nat)
    by (destruct l; [congruence | simpl; lia]).
  destruct (Nat.le_gt_cases (List.length l) M) as [Hle | Hgt].
  - replace (List.length l - M)%nat with 0%nat by lia.
    cbn [firstn skipn]. rewrite spec_batches_nil. cbn [last].
    rewrite length_rev.
    destruct (Nat.eq_dec (List.length l) M) as [-> | Hne'].
    + rewrite Nat.Div0.mod_same. reflexivity.
    + rewrite Nat.mod_small by lia.
      destruct (Nat.eqb_spec (List.length l) 0); [lia | reflexivity].
  - assert (Hrest : firstn (List.length l - M) l <> []).
    { intros E. apply (f_equal (@List.length A)) in E.
      rewrite length_firstn in E. simpl in E. lia. }
    specialize (IH Hrest). rewrite length_firstn in IH.
    replace (Nat.min (List.length l - M) (List.length l))
      with (List.length l - M)%nat in IH by lia.
    replace ((List.length l - M) mod M)%nat with (List.length l mod M)%nat in IH.
    2:{ replace (List.length l) with ((List.length l - M) + 1 * M)%nat at 1
          by lia.
        now rewrite Nat.Div0.mod_add. }
    rewrite <- IH.
    destruct (spec_batches M (firstn (List.length l - M) l)) as [|b bs] eqn:E.
    + exfalso. pose proof (length_spec_batches (firstn (List.length l - M) l))
        as Hlen.
      rewrite E, length_firstn in Hlen. simpl in Hlen.
      replace (Nat.min (List.length l - M) (List.length l))
        with (List.length l - M)%nat in Hlen by lia.
      symmetry in Hlen. apply Nat.div_small_iff in Hlen; lia.
    + reflexivity.
Qed.

End SpecBatches.

(** ** Histories and registries *)

Lemma batches_app (h1 h2 : History) :
  batches (h1 ++ h2) = batches h2 ++ batches h1.
Proof.
  induction h1 as [|e h1 IH]; simpl; [now rewrite app_nil_r |].
  destruct e; try exact IH. now rewrite IH, app_assoc.
Qed.

Lemma started_app (h1 h2 : History) :
  started (h1 ++ h2) = started h2 ++ started h1.
Proof.
  induction h1 as [|e h1 IH]; simpl; [now rewrite app_nil_r |].
  destruct e; try exact IH. now rewrite IH, app_assoc.
Qed.

Lemma batches_starts (ws : list Worker) : batches (rev (map EvStart ws)) = [].
Proof.
  induction ws as [|w ws IH]; [reflexivity |].
  simpl. rewrite batches_app, IH. reflexivity.
Qed.

Lemma started_starts (ws : list Worker) : started (rev (map EvStart ws)) = ws.
Proof.
  induction ws as [|w ws IH]; [reflexivity |].
  simpl. rewrite started_app, IH. reflexivity.
Qed.

Lemma set_threads_twice (t1 t2 : list Worker) (o : OneDrive) :
  set_threads t2 (set_threads t1 o) = set_threads t2 o.
Proof. reflexivity. Qed.

Lemma set_threads_same (o : OneDrive) : set_threads (threads o) o = o.
Proof. now destruct o. Qed.

Lemma beside_errors_fields (c c' : Conf) :
  beside_errors c' = beside_errors c ->
  threads (fst c') = threads (fst c)
  /\ max_threads (fst c') = max_threads (fst c)
  /\ headers (fst c') = headers (fst c)
  /\ url (fst c') = url (fst c)
  /\ fst c' = set_errors (errors (fst c')) (fst c)
  /\ batches (snd c') = batches (snd c)
  /\ started (snd c') = started (snd c).
Proof.
  unfold beside_errors. intros E. inversion E.
  repeat split; try assumption.
  destruct c as [o h], c' as [o' h']. destruct o, o'. simpl in *.
  subst. reflexivity.
Qed.

Lemma CheckError_beside_errors (text : string) (r : checked) :
  respects (keeping beside_errors) (_CheckError text r).
Proof.
  unfold _CheckError. frame.
Qed.

Lemma worker_body_beside_errors (env : Env) (w : Worker) :
  respects (keeping beside_errors) (worker_body env w).
Proof.
  destruct w; unfold worker_body, run_UploadIntern, run_DownloadIntern; frame.
Qed.

Lemma run_worker_beside_errors (env : Env) (w : Worker) :
  respects (keeping beside_errors) (run_worker env w).
Proof. apply respects_thread_body, worker_body_beside_errors. Qed.

Lemma run_workers_beside_errors (env : Env) (ws : list Worker) :
  respects (keeping beside_errors) (run_workers env ws).
Proof.
  induction ws as [|w ws IH]; cbn [run_workers]; frame.
  apply worker_body_beside_errors.
Qed.

Lemma run_workers_returns (env : Env) (ws : list Worker) (c : Conf) :
  fst (run_workers env ws c) = Ok tt.
Proof.
  revert c. induction ws as [|w ws IH]; intros c; [reflexivity |].
  cbn [run_workers]. unfold bind, run_worker, thread_body. apply IH.
Qed.

Lemma run_workers_cons (env : Env) (w : Worker) (ws : list Worker) (c : Conf) :
  run_workers env (w :: ws) c = run_workers env ws (snd (run_worker env w c)).
Proof. reflexivity. Qed.

Lemma pop_threads_all (ws : list Worker) :
  forall (o : OneDrive) (h : History),
    threads o = ws ->
    pop_threads (List.length ws) (o, h) = (Ok tt, (set_threads [] o, h)).
Proof.
  induction ws as [|w ws IH]; intros o h E.
  - simpl. unfold ret. rewrite <- E. now rewrite set_threads_same.
  - cbn [List.length pop_threads]. unfold bind, modify. cbn [fst snd].
    rewrite IH by (simpl; now rewrite E). reflexivity.
Qed.

Lemma JoinThreads_run (env : Env) (c : Conf) :
  _JoinThreads env c = (Ok tt, joined env c).
Proof.
  unfold _JoinThreads, joined. destruct c as [o h].
  unfold bind at 1. unfold get_self at 1. cbn [fst snd].
  unfold bind at 1. unfold get_history at 1. cbn [fst snd].
  unfold bind at 1.
  pose proof (run_workers_returns env (sched env h (threads o)) (o, h)) as Hok.
  pose proof (run_workers_beside_errors env (sched env h (threads o)) (o, h))
    as Hkeep.
  destruct (run_workers env (sched env h (threads o)) (o, h)) as [r [o2 h2]].
  simpl in Hok. subst r. specialize (Hkeep _ _ eq_refl).
  apply beside_errors_fields in Hkeep. destruct Hkeep as (Ht & _).
  simpl in Ht. unfold bind, emit. cbn [fst snd].
  now rewrite pop_threads_all.
Qed.

(** ** One turn of the batch loop *)

Lemma batch_loop_done (env : Env) (body : Z -> M unit) (prefix : string)
  (n : nat) (i : Z) (c : Conf) :
  i <= 0 -> batch_loop env body prefix n i c = (Ok tt, c).
Proof.
  intros Hi. destruct n; cbn [batch_loop];
    (replace (i >? 0) with false
       by (symmetry; rewrite Z.gtb_ltb; apply Z.ltb_ge; lia));
    reflexivity.
Qed.

Lemma batch_loop_after_launch (env : Env) (body : Z -> M unit)
  (prefix : string) (n : nat) (i i' : Z) (c c1 : Conf) :
  0 < i ->
  launch_batch body (Z.to_nat (number_threads (fst c) i)) i c = (Ok i', c1) ->
  batch_loop env body prefix (S n) i c
  = match errors (fst (joined env c1)) with
    | [] => batch_loop env body prefix n i' (joined env c1)
    | _ :: _ =>
        (Raise (Exception
                  (prefix +s String.concat ". " (errors (fst (joined env c1))))),
         (set_errors [] (fst (joined env c1)), snd (joined env c1)))
    end.
Proof.
  intros Hi Hlaunch. cbn [batch_loop].
  replace (i >? 0) with true by (symmetry; apply Z.gtb_lt; lia).
  unfold bind at 1. unfold get_self at 1. cbn [fst snd].
  destruct c as [o h]. cbn [fst] in Hlaunch.
  rewrite (bind_run _ _ _ _ _ (unjoined_run env _ _ _ _ Hlaunch)).
  rewrite (bind_run _ _ _ _ _ (JoinThreads_run env c1)).
  destruct (joined env c1) as [o3 h3]. cbn [fst snd].
  destruct (errors o3) as [|m ms] eqn:E.
  - rewrite (bind_run _ _ _ _ _ (FetchErrors_empty prefix o3 h3 E)).
    reflexivity.
  - unfold bind. rewrite FetchErrors_nonempty by (rewrite E; discriminate).
    now rewrite E.
Qed.

Lemma start_thread_run (w : Worker) (c : Conf) :
  start_thread w c
  = (Ok tt, (set_threads (threads (fst c) ++ [w]) (fst c), EvStart w :: snd c)).
Proof. reflexivity. Qed.

Lemma py_index_nat {A : Type} (l : list A) (k : nat) (a : A) :
  nth_error l k = Some a -> py_index l (Z.of_nat k) = Some a.
Proof.
  intros E. unfold py_index.
  assert (Hk : (k < List.length l)%nat)
    by (apply nth_error_Some; rewrite E; discriminate).
  replace (0 <=? Z.of_nat k) with true by (symmetry; apply Z.leb_le; lia).
  replace (Z.of_nat k <? Z.of_nat (List.length l)) with true
    by (symmetry; apply Z.ltb_lt; lia).
  simpl. now rewrite Nat2Z.id.
Qed.

Lemma dict_get_key {V : Type} (d : list (string * V)) (k : string) :
  In k (dict_keys d) -> exists v, dict_get k d = Some v.
Proof.
  induction d as [|[k' v'] d IH]; [intros [] |].
  simpl. destruct (String.eqb_spec k k') as [-> | Hne]; [now exists v' |].
  intros [E | Hin]; [congruence | now apply IH].
Qed.

(** The loop bodies start the worker of the item at the index. *)
Lemma transfer_starts (o : OneDrive) (body : Z -> M unit) (prefix : string)
  (items : list Worker) :
  transfer o body prefix items ->
  forall (k : nat) (c : Conf) (w : Worker),
    nth_error items k = Some w ->
    headers (fst c) = headers o /\ url (fst c) = url o ->
    body (Z.of_nat k) c = start_thread w c.
Proof.
  intros [filenames url_pre path_onedrive url_post log
         | all_files path_local log Hkeys Hids] k c w Hnth [Hh Hu].
  - unfold upload_workers in Hnth. rewrite nth_error_map in Hnth.
    destruct (nth_error filenames k) as [f |] eqn:Ef; [| discriminate].
    inversion Hnth; subst w.
    unfold upload_item, list_item. rewrite (py_index_nat _ _ _ Ef).
    unfold bind, ret, get_self. cbn [fst snd].
    unfold upload_worker. now rewrite Hh.
  - unfold download_workers in Hnth. rewrite nth_error_map in Hnth.
    destruct (nth_error (pydict_keys all_files) k) as [name |] eqn:Ek;
      [| discriminate].
    inversion Hnth; subst w.
    unfold download_item, list_item. rewrite (py_index_nat _ _ _ Ek).
    unfold bind at 1. unfold ret at 1. cbn [String.eqb negb andb orb].
    destruct (own_key_found all_files name Hkeys) as [v Hv];
      [eapply nth_error_In, Ek |].
    destruct (pydict_get_in _ _ _ Hv) as (k' & Hin & _).
    destruct (Hids _ _ Hin) as [i ->].
    unfold id_of, lookup. rewrite Hv.
    unfold bind, lift, ret, get_self, concat_str. cbn [fst snd].
    unfold download_worker, download_thread. now rewrite Hh, Hu.
Qed.

Section Engine.

Variable env : Env.
Variable body : Z -> M unit.
Variable prefix : string.
Variable items : list Worker.
Variable o0 : OneDrive.

Hypothesis body_starts :
  forall (k : nat) (c : Conf) (w : Worker),
    nth_error items k = Some w ->
    headers (fst c) = headers o0 /\ url (fst c) = url o0 ->
    body (Z.of_nat k) c = start_thread w c.

(** The [for] loop started at index [k] with [n <= k] turns to make starts
    the workers of the items [k-1], [k-2], ..., [k-n], in this order. *)
Lemma launch_batch_run (n : nat) :
  forall (k : nat) (c : Conf),
    (n <= k)%nat -> (k <= List.length items)%nat ->
    headers (fst c) = headers o0 /\ url (fst c) = url o0 ->
    let ws := rev (skipn (k - n) (firstn k items)) in
    launch_batch body n (Z.of_nat k) c
    = (Ok (Z.of_nat (k - n)),
       (set_threads (threads (fst c) ++ ws) (fst c),
        rev (map EvStart ws) ++ snd c)).
Proof.
  induction n as [|n IH]; intros k c Hn Hk Hh ws; subst ws.
  - cbn [launch_batch]. rewrite Nat.sub_0_r.
    rewrite skipn_all2 by (rewrite length_firstn; lia).
    simpl. rewrite app_nil_r, set_threads_same. now destruct c.
  - cbn [launch_batch]. destruct k as [|k]; [lia |].
    replace (Z.of_nat (S k) - 1) with (Z.of_nat k) by lia.
    destruct (nth_error items k) as [w |] eqn:Ew.
    2:{ apply nth_error_None in Ew. lia. }
    rewrite (bind_run _ _ _ _ _
               (eq_trans (body_starts k c w Ew Hh) (start_thread_run w c))).
    rewrite IH by (cbn [fst]; first [lia | exact Hh]).
    cbn [fst snd]. replace (S k - S n)%nat with (k - n)%nat by lia.
    assert (Hsplit : firstn (S k) items = firstn k items ++ [w]).
    { clear - Ew. revert k Ew. induction items as [|a l IHl]; intros k Ew.
      - destruct k; discriminate.
      - destruct k as [|k]; simpl in *.
        + now inversion Ew.
        + f_equal. now apply IHl. }
    rewrite Hsplit, skipn_app, length_firstn.
    replace (k - n - Nat.min k (List.length items))%nat with 0%nat by lia.
    cbn [skipn]. rewrite rev_app_distr. cbn [rev app].
    rewrite set_threads_twice.
    change (threads (set_threads (threads (fst c) ++ [w]) (fst c)))
      with (threads (fst c) ++ [w]).
    f_equal. f_equal.
    + now rewrite <- app_assoc.
    + cbn [map rev]. now rewrite <- app_assoc.
Qed.

Lemma joined_facts (c1 : Conf) :
  let c3 := joined env c1 in
  threads (fst c3) = []
  /\ headers (fst c3) = headers (fst c1)
  /\ url (fst c3) = url (fst c1)
  /\ max_threads (fst c3) = max_threads (fst c1)
  /\ batches (snd c3) = batches (snd c1) ++ [threads (fst c1)]
  /\ started (snd c3) = started (snd c1).
Proof.
  unfold joined.
  pose proof (run_workers_beside_errors env
                (sched env (snd c1) (threads (fst c1))) c1) as Hkeep.
  destruct (run_workers env (sched env (snd c1) (threads (fst c1))) c1)
    as [r c2].
  specialize (Hkeep _ _ eq_refl). apply beside_errors_fields in Hkeep.
  destruct Hkeep as (Ht & Hm & Hh & Hu & _ & Hb & Hs).
  cbn [fst snd batches started]. rewrite Hb, Hs.
  repeat split; assumption.
Qed.

Variable M : nat.
Hypothesis M_threads : max_threads o0 = Z.of_nat M.
Hypothesis M_positive : (1 <= M)%nat.


End Engine.

(** ** The batches of a run, up to the first failure *)


(** ** What a worker records (C1) *)

Lemma check_keys_extends (keys : list string) (response : pyval) :
  forall (b : bool) (text : string) (b' : bool) (text' : string),
    check_keys keys response b text = inr (b', text') ->
    exists suffix, text' = text +s suffix.
Proof.
  induction keys as [|k keys IH]; intros b text b' text' H.
  - inversion H; subst. exists EmptyString. now rewrite append_empty_r.
  - cbn [check_keys] in H. destruct (str_in "error" k).
    + destruct (getitem response "error") as [e | err]; [discriminate |].
      destruct (getitem err "code") as [e | code]; [discriminate |].
      destruct code; try discriminate. cbn [concat_str] in H.
      apply IH in H. destruct H as [suffix ->].
      eexists. rewrite !append_assoc. reflexivity.
    + eapply IH, H.
Qed.

(** [_CheckError] appends one message, which starts with the text it was
    given, exactly when it returns [True]. *)
Lemma CheckError_run (text : string) (r : checked) (c c' : Conf)
  (res : result bool) :
  _CheckError text r c = (res, c') ->
  (res = Ok true
   /\ exists suffix,
        c' = (set_errors (errors (fst c) ++ [text +s suffix]) (fst c), snd c))
  \/ (res <> Ok true /\ c' = c).
Proof.
  unfold _CheckError. unfold bind at 1.
  destruct r as [resp | v].
  - cbn [lift ret]. destruct (negb (ok resp)) eqn:E.
    + intros H. inversion H; subst. left. split; [reflexivity |].
      exists EmptyString. now rewrite append_empty_r.
    + intros H. inversion H; subst. right. split; [discriminate | reflexivity].
  - assert (Hother :
             (let (r0, c'0) := lift (inr (true, text)) c in
              match r0 with
              | Ok a =>
                  (let '(error_occurred, error_text) := a in
                   (if error_occurred
                    then modify
                           (fun o => set_errors (errors o ++ [error_text]) o)
                    else ret tt);; ret error_occurred) c'0
              | Raise e => (Raise e, c'0)
              | Diverge => (Diverge, c'0)
              end) = (res, c') ->
             (res = Ok true
              /\ exists suffix,
                   c' = (set_errors (errors (fst c) ++ [text +s suffix]) (fst c),
                         snd c))
             \/ (res <> Ok true /\ c' = c)).
    { intros H. inversion H; subst. left. split; [reflexivity |].
      exists EmptyString. now rewrite append_empty_r. }
    destruct v; try exact Hother. clear Hother.
    destruct (check_keys (dict_keys d) (PDict d) false text)
      as [e | [b text']] eqn:E.
    + intros H. inversion H; subst. right. split; [discriminate | reflexivity].
    + apply check_keys_extends in E. destruct E as [suffix ->].
      cbn [lift ret]. destruct b.
      * intros H. inversion H; subst. left. split; [reflexivity |].
        now exists suffix.
      * intros H. inversion H; subst. right. split; [discriminate | reflexivity].
Qed.

Lemma CheckError_true (text : string) (r : checked) (c c' : Conf) :
  _CheckError text r c = (Ok true, c') ->
  exists suffix,
    c' = (set_errors (errors (fst c) ++ [text +s suffix]) (fst c), snd c).
Proof.
  intros H. apply CheckError_run in H.
  destruct H as [[_ H] | [H _]]; [exact H | congruence].
Qed.

Lemma CheckError_not_true (text : string) (r : checked) (c c' : Conf)
  (res : result bool) :
  _CheckError text r c = (res, c') -> res <> Ok true -> c' = c.
Proof.
  intros H Hne. apply CheckError_run in H.
  destruct H as [[H _] | [_ H]]; [congruence | exact H].
Qed.

Lemma CheckError_None (text : string) (c : Conf) :
  _CheckError text (IsValue PNone) c
  = (Ok true, (set_errors (errors (fst c) ++ [text]) (fst c), snd c)).
Proof. reflexivity. Qed.

(** The object after a step that does not touch it. *)
Ltac keep_object E :=
  match type of E with
  | ?m ?c = (_, ?c') =>
      let Hf := fresh "Hobj" in
      assert (Hf : fst c' = fst c)
        by (refine ((_ : respects (keeping (@fst OneDrive (list event))) m)
                      c _ c' E); frame)
  end.

Lemma upload_records (env : Env) (filename url : string) (header : Headers)
  (log : bool) (c c' : Conf) :
  run_UploadIntern env filename url header log c = (Ok true, c') ->
  exists m,
    fst c' = set_errors (errors (fst c) ++ [m]) (fst c)
    /\ contains m filename.
Proof.
  unfold run_UploadIntern. intros H.
  apply bind_ok in H. destruct H as (present & c0 & E0 & H).
  keep_object E0. destruct present; cbn [negb] in H.
  - ok_inv H. inversion H; subst.
    match goal with E : open_rb _ _ _ = _ |- _ => keep_object E end.
    match goal with E : requests _ _ _ = _ |- _ => keep_object E end.
    match goal with E : json_loads _ _ = _ |- _ => keep_object E end.
    match goal with E : _CheckError _ _ _ = _ |- _ =>
      apply CheckError_true in E; destruct E as [suffix ->] end.
    match goal with E : (if _ then _ else _) _ = _ |- _ => keep_object E end.
    cbn [fst snd] in *. exists (("Could not upload " +s filename) +s suffix).
    split; [congruence |].
    apply contains_append_r, contains_append_l, contains_refl.
  - ok_inv H. inversion H; subst.
    exists ("Could not upload " +s filename +s ": File does not exist").
    split.
    + match goal with E : _CheckError _ _ _ = _ |- _ =>
        rewrite CheckError_None in E; inversion E end.
      cbn [fst]. rewrite Hobj. reflexivity.
    + apply (contains_append_l "Could not upload ").
      apply (contains_append_r filename), contains_refl.
Qed.

Lemma concat_str_inr (left : string) (v : pyval) (r : string) :
  concat_str left v = inr r -> exists s, v = PStr s /\ r = left +s s.
Proof. destruct v; try discriminate. intros H. inversion H. now exists s. Qed.

Lemma download_records (env : Env) (path_local : string) (file : pyval)
  (url : string) (header : Headers) (log : bool) (c c' : Conf) :
  run_DownloadIntern env path_local file url header log c = (Ok true, c') ->
  exists m filename,
    file = PStr filename
    /\ fst c' = set_errors (errors (fst c) ++ [m]) (fst c)
    /\ (contains m filename
        \/ m = "Could not write " +s path_local +s " to drive").
Proof.
  unfold run_DownloadIntern. intros H.
  apply bind_ok in H. destruct H as (data & c0 & E0 & H). keep_object E0.
  apply bind_ok in H. destruct H as (text & c00 & E00 & H).
  apply lift_ok in E00. destruct E00 as [-> E00].
  apply concat_str_inr in E00. destruct E00 as (filename & -> & ->).
  cbn [str_of] in H.
  cbv zeta in H. apply bind_ok in H. destruct H as (failed & c1 & E1 & H).
  destruct failed.
  - inversion H; subst. apply CheckError_true in E1.
    destruct E1 as [suffix ->]. cbn [fst].
    exists (("Could not download " +s filename) +s suffix), filename.
    split; [reflexivity |]. split; [now rewrite Hobj |]. left.
    apply contains_append_r. apply (contains_append_l "Could not download ").
    apply contains_refl.
  - apply CheckError_not_true in E1; [| discriminate]. subst c1.
    unfold try_except in H.
    match type of H with
    | (let (_, _) := ?body c0 in _) = _ =>
        destruct (body c0) as [[b | e |] c2] eqn:Eb
    end.
    + exfalso. inversion H; subst. ok_inv Eb. inversion Eb.
    + keep_object Eb. cbv zeta in H. ok_inv H. inversion H; subst.
      match goal with E : _CheckError _ _ _ = _ |- _ =>
        rewrite CheckError_None in E; inversion E end.
      cbn [fst].
      exists ("Could not write " +s path_local +s " to drive"), filename.
      split; [reflexivity |]. split; [| now right]. now rewrite Hobj0, Hobj.
    + discriminate.
Qed.

Lemma worker_records (env : Env) (w : Worker) (c c' : Conf) :
  worker_body env w c = (Ok true, c') ->
  exists m,
    fst c' = set_errors (errors (fst c) ++ [m]) (fst c) /\ message_of w m.
Proof.
  destruct w as [filename url header log | path_local filename url header log];
    cbn [worker_body]; intros H.
  - apply upload_records in H. destruct H as (m & Hc & Hm).
    exists m. split; [exact Hc |]. left. now exists filename.
  - apply download_records in H. destruct H as (m & name & -> & Hc & [Hm | Hm]).
    + exists m. split; [exact Hc |]. left. now exists name.
    + exists m. split; [exact Hc |]. right.
      now exists path_local, (PStr name), url, header, log.
Qed.

Lemma worker_body_logging (env : Env) (w : Worker) :
  respects logging (worker_body env w).
Proof.
  destruct w; unfold worker_body, run_UploadIntern, run_DownloadIntern; frame.
Qed.

Lemma run_workers_logging (env : Env) (ws : list Worker) :
  respects logging (run_workers env ws).
Proof.
  induction ws as [|w ws IH]; cbn [run_workers]; frame.
  apply worker_body_logging.
Qed.

(** The message of a worker that returns [True] is in the log when the
    join is over. *)
Lemma failing_worker_in_log (env : Env) (sch : list Worker) :
  forall (c : Conf) (w : Worker) (cw cw' : Conf),
    In (w, cw) (worker_runs env sch c) ->
    worker_body env w cw = (Ok true, cw') ->
    exists m,
      message_of w m
      /\ In m (errors (fst (snd (run_workers env sch c)))).
Proof.
  induction sch as [|w0 sch IH]; intros c w cw cw' Hin Hrun; [destruct Hin |].
  cbn [worker_runs] in Hin. rewrite run_workers_cons.
  destruct Hin as [E | Hin].
  - inversion E; subst w0 cw. clear E.
    destruct (worker_records env w c cw' Hrun) as (m & Hc & Hm).
    exists m. split; [exact Hm |].
    unfold run_worker, thread_body. rewrite Hrun. cbn [snd].
    pose proof (run_workers_logging env sch cw') as Hlog.
    destruct (run_workers env sch cw') as [r c2].
    destruct (Hlog _ _ eq_refl) as [l Hl]. cbn [snd]. rewrite Hl, Hc.
    cbn [errors set_errors]. apply in_or_app. left.
    apply in_or_app. right. now left.
  - eapply IH; eassumption.
Qed.

(** A fair scheduler runs every worker of the registry. *)
Lemma fair_runs_every_worker (env : Env) (c : Conf) (w : Worker) :
  fair env ->
  In w (threads (fst c)) ->
  exists cw,
    In (w, cw) (worker_runs env (sched env (snd c) (threads (fst c))) c).
Proof.
  intros Hfair Hin.
  assert (Hsch : In w (sched env (snd c) (threads (fst c))))
    by (eapply Permutation_in; [apply Permutation_sym, Hfair | exact Hin]).
  clear Hin. revert Hsch. generalize (sched env (snd c) (threads (fst c))).
  intros sch. revert c.
  induction sch as [|w0 sch IH]; intros c Hin; [destruct Hin |].
  destruct Hin as [E | Hin].
  - subst w0. exists c. now left.
  - destruct (IH (snd (run_worker env w0 c)) Hin) as [cw Hcw].
    exists cw. now right.
Qed.

(** ** Nothing is taken back *)


Lemma launch_batch_respects (F : Frame) (body : Z -> M unit) :
  (forall i, respects F (body i)) ->
  forall n i, respects F (launch_batch body n i).
Proof.
  intros Hbody. induction n as [|n IH]; intros i; cbn [launch_batch]; frame.
  - apply Hbody.
  - apply IH.
Qed.









(** The claim as stated fails: of two files uploaded one at a time the one
    popped first is refused, and one batch is run where
    [ceil (2 / 1) = 2] are claimed. *)
Lemma Upload_stops_at_the_failing_batch :
  let run := Upload (world drive_refusing_b 1000) 5 ["a.txt"; "b.txt"] "d" true
               (set_max_threads 1 sample_client, []) in
  fst run
  = Raise (Exception
             "Could not upload all files: Could not upload b.txt (Code: accessDenied)")
  /\ batches (snd (snd run)) = [[worker_b]]
  /\ started (snd (snd run)) = [worker_b]
  /\ ((2 + 1 - 1) / 1 = 2)%nat.
Proof. repeat split. Qed.

(** Seven uploads, three at a time: batches of 3, 3 and 1, from the tail. *)
Example Upload_seven_files_three_at_a_time :
  let run := Upload (world drive_refusing_b 1000) 7
               ["1"; "2"; "3"; "4"; "5"; "6"; "7"] "d" true
               (set_max_threads 3 sample_client, []) in
  fst run = Ok tt
  /\ map (map item_name) (batches (snd (snd run)))
     = [[PStr "7"; PStr "6"; PStr "5"]; [PStr "4"; PStr "3"; PStr "2"];
        [PStr "1"]].
Proof. repeat split. Qed.

(** ** Workers that record nothing *)

Lemma bind_inv {A B : Type} (m : M A) (f : A -> M B) (c c' : Conf)
  (r : result B) :
  bind m f c = (r, c') ->
  (exists a c1, m c = (Ok a, c1) /\ f a c1 = (r, c'))
  \/ (exists e, m c = (Raise e, c') /\ r = Raise e)
  \/ (m c = (Diverge, c') /\ r = Diverge).
Proof.
  unfold bind. destruct (m c) as [[a | e |] c1]; intros H.
  - left. now exists a, c1.
  - right. left. inversion H; subst. now exists e.
  - right. right. inversion H; subst. now split.
Qed.

Lemma silent_bind (A : Type) (m : M A) (f : A -> M bool) :
  respects (keeping errors_of) m ->
  (forall a, silent_unless_true (f a)) ->
  silent_unless_true (bind m f).
Proof.
  intros Hm Hf c r c' H Hr. apply bind_inv in H.
  destruct H as [(a & c1 & E1 & E2) | [(e & E1 & _) | (E1 & _)]].
  - rewrite (Hf a _ _ _ E2 Hr). exact (Hm _ _ _ E1).
  - exact (Hm _ _ _ E1).
  - exact (Hm _ _ _ E1).
Qed.

Lemma silent_check_then (text : string) (checked_value : checked)
  (k : bool -> M bool) :
  (forall c, fst (k true c) = Ok true) ->
  silent_unless_true (k false) ->
  silent_unless_true (bind (_CheckError text checked_value) k).
Proof.
  intros Ht Hf c r c' H Hr. apply bind_inv in H.
  destruct H as [(a & c1 & E1 & E2) | [(e & E1 & _) | (E1 & _)]].
  - destruct a.
    + elim Hr. rewrite <- (Ht c1), E2. reflexivity.
    + apply CheckError_not_true in E1; [subst c1 | discriminate].
      exact (Hf _ _ _ E2 Hr).
  - apply CheckError_not_true in E1; [now subst | discriminate].
  - apply CheckError_not_true in E1; [now subst | discriminate].
Qed.

Lemma silent_quiet (m : M bool) :
  respects (keeping errors_of) m -> silent_unless_true m.
Proof. intros Hm c r c' H _. exact (Hm _ _ _ H). Qed.

Lemma worker_body_silent (env : Env) (w : Worker) :
  silent_unless_true (worker_body env w).
Proof.
  destruct w as [filename url header log | path_local filename url header log];
    cbn [worker_body].
  - unfold run_UploadIntern.
    apply silent_bind; [frame |]. intros present.
    destruct present; cbn [negb]; cbv zeta.
    + apply silent_bind; [frame |]. intros _.
      apply silent_bind; [frame |]. intros r.
      apply silent_bind; [frame |]. intros response.
      apply silent_check_then.
      * intros c. now destruct log.
      * apply silent_quiet. frame.
    + apply silent_check_then; [reflexivity | apply silent_quiet; frame].
  - unfold run_DownloadIntern.
    apply silent_bind; [frame |]. intros data.
    apply silent_bind; [frame |]. intros text. cbv zeta.
    apply silent_check_then; [reflexivity |].
    intros c r c' H Hr. unfold try_except in H.
    match type of H with
    | (let (_, _) := ?body c in _) = _ =>
        assert (Hbody : respects (keeping errors_of) body) by frame;
        destruct (body c) as [[b | e |] c2] eqn:Eb
    end.
    + inversion H; subst. exact (Hbody _ _ _ Eb).
    + rewrite (bind_run _ _ _ _ _ (CheckError_None _ c2)) in H.
      inversion H; subst. now elim Hr.
    + inversion H; subst. exact (Hbody _ _ _ Eb).
Qed.

(** ** The batches of a run (C2, C7) *)

(** A join in which no worker returns [True] leaves the log as it was. *)
Lemma run_workers_quiet (env : Env) (sch : list Worker) :
  forall c : Conf,
    existsb (fun wc => returns_true (fst (worker_body env (fst wc) (snd wc))))
      (worker_runs env sch c) = false ->
    errors (fst (snd (run_workers env sch c))) = errors (fst c).
Proof.
  induction sch as [|w sch IH]; intros c Hq; [reflexivity |].
  cbn [worker_runs existsb fst snd] in Hq.
  apply orb_false_elim in Hq. destruct Hq as [Hw Hq].
  rewrite run_workers_cons, (IH _ Hq).
  unfold run_worker, thread_body. cbn [snd].
  apply (worker_body_silent env w c _ _ (surjective_pairing _)).
  intros E. rewrite E in Hw. discriminate Hw.
Qed.

(** A join in which a worker returns [True] leaves a message in the log. *)
Lemma run_workers_loud (env : Env) (sch : list Worker) (c : Conf) :
  existsb (fun wc => returns_true (fst (worker_body env (fst wc) (snd wc))))
    (worker_runs env sch c) = true ->
  errors (fst (snd (run_workers env sch c))) <> [].
Proof.
  intros Hl. apply existsb_exists in Hl. destruct Hl as ([w cw] & Hin & Hw).
  cbn [fst snd] in Hw.
  assert (Hrun : worker_body env w cw
                 = (Ok true, snd (worker_body env w cw))).
  { destruct (worker_body env w cw) as [[[|] | e |] cw']; cbn in Hw;
      try discriminate Hw. reflexivity. }
  destruct (failing_worker_in_log env sch c w cw _ Hin Hrun) as (m & _ & Hm).
  intros E. rewrite E in Hm. destruct Hm.
Qed.

(** A batch started with an empty log records a failure exactly when the
    log holds a message after its join. *)
Lemma batch_fails_log (env : Env) (b : list Worker) (c : Conf) :
  errors (fst c) = [] ->
  (batch_fails env b c = false ->
   errors (fst (joined env (launched b c))) = [])
  /\ (batch_fails env b c = true ->
      errors (fst (joined env (launched b c))) <> []).
Proof.
  intros He. unfold batch_fails. cbv zeta.
  change (errors (fst (joined env (launched b c))))
    with (errors (fst (snd (run_workers env
                    (sched env (snd (launched b c))
                       (threads (fst (launched b c))))
                    (launched b c))))).
  split; intros H.
  - rewrite (run_workers_quiet env _ _ H). exact He.
  - exact (run_workers_loud env _ _ H).
Qed.

(** A batch records a failure when one of its workers, run at the join,
    returns [True]. *)
Lemma batch_fails_worker (env : Env) (b : list Worker) (c : Conf) :
  batch_fails env b c = true
  <-> exists (w : Worker) (cw : Conf),
        In (w, cw)
          (worker_runs env
             (sched env (snd (launched b c)) (threads (fst (launched b c))))
             (launched b c))
        /\ fst (worker_body env w cw) = Ok true.
Proof.
  unfold batch_fails. cbv zeta. rewrite existsb_exists. split.
  - intros ([w cw] & Hin & Hw). exists w, cw. split; [exact Hin |].
    cbn [fst snd] in Hw.
    destruct (fst (worker_body env w cw)) as [[|] | e |]; cbn in Hw;
      try discriminate Hw. reflexivity.
  - intros (w & cw & Hin & Hw). exists (w, cw). split; [exact Hin |].
    cbn [fst snd]. now rewrite Hw.
Qed.

Lemma first_failure_in_range (env : Env) (bs : list (list Worker)) :
  forall (c : Conf) (j : nat),
    first_failure env bs c = Some j -> (j < List.length bs)%nat.
Proof.
  induction bs as [|b bs IH]; intros c j H; [discriminate H |].
  cbn [first_failure] in H. cbn [List.length].
  destruct (batch_fails env b c); [inversion H; lia |].
  destruct (first_failure env bs (joined env (launched b c))) as [j' |] eqn:E;
    [| discriminate H].
  inversion H. apply IH in E. lia.
Qed.

Lemma firstn_succ_nth {A : Type} (d : A) (l : list A) :
  forall j : nat,
    (j < List.length l)%nat -> firstn (S j) l = firstn j l ++ [nth j l d].
Proof.
  induction l as [|a l IH]; intros j Hj; [cbn in Hj; lia |].
  destruct j as [|j]; [reflexivity |].
  cbn [List.length] in Hj. cbn [firstn nth app]. f_equal.
  change (firstn (S j) l = firstn j l ++ [nth j l d]). apply IH. lia.
Qed.

Lemma launched_facts (ws : list Worker) (c : Conf) :
  threads (fst (launched ws c)) = threads (fst c) ++ ws
  /\ headers (fst (launched ws c)) = headers (fst c)
  /\ url (fst (launched ws c)) = url (fst c)
  /\ max_threads (fst (launched ws c)) = max_threads (fst c)
  /\ batches (snd (launched ws c)) = batches (snd c)
  /\ started (snd (launched ws c)) = started (snd c) ++ ws.
Proof.
  unfold launched. cbn [fst snd].
  rewrite batches_app, batches_starts, app_nil_r.
  rewrite started_app, started_starts.
  repeat split; reflexivity.
Qed.

(** A batch started from an empty registry and joined: the registry is
    empty again, the settings are as they were, the batch is joined and its
    workers are started. *)
Lemma joined_launched_facts (env : Env) (ws : list Worker) (c : Conf) :
  threads (fst c) = [] ->
  let c' := joined env (launched ws c) in
  threads (fst c') = []
  /\ headers (fst c') = headers (fst c)
  /\ url (fst c') = url (fst c)
  /\ max_threads (fst c') = max_threads (fst c)
  /\ batches (snd c') = batches (snd c) ++ [ws]
  /\ started (snd c') = started (snd c) ++ ws.
Proof.
  intros Ht. cbv zeta.
  pose proof (joined_facts env (launched ws c)) as Hj. cbv zeta in Hj.
  destruct Hj as (Jt & Jh & Ju & Jm & Jb & Js).
  destruct (launched_facts ws c) as (Lt & Lh & Lu & Lm & Lb & Ls).
  rewrite Lt, Ht in Jb. cbn [app] in Jb.
  rewrite Jh, Ju, Jm, Jb, Js, Lh, Lu, Lm, Lb, Ls.
  repeat split; first [assumption | reflexivity].
Qed.

(** What the batches leave: an empty registry, the settings as they were,
    one join for every batch and every worker of the batches started. *)
Lemma after_batches_facts (env : Env) (bs : list (list Worker)) :
  forall c : Conf,
    threads (fst c) = [] ->
    let c' := after_batches env bs c in
    threads (fst c') = []
    /\ headers (fst c') = headers (fst c)
    /\ url (fst c') = url (fst c)
    /\ max_threads (fst c') = max_threads (fst c)
    /\ batches (snd c') = batches (snd c) ++ bs
    /\ started (snd c') = started (snd c) ++ List.concat bs.
Proof.
  induction bs as [|b bs IH]; intros c Ht; cbv zeta.
  - cbn. rewrite !app_nil_r. repeat split; first [assumption | reflexivity].
  - cbn [after_batches List.concat].
    destruct (joined_launched_facts env b c Ht)
      as (Jt & Jh & Ju & Jm & Jb & Js).
    destruct (IH _ Jt) as (It & Ih & Iu & Im & Ib & Is).
    rewrite It, Ih, Iu, Im, Ib, Is, Jh, Ju, Jm, Jb, Js, <- !app_assoc.
    repeat split; reflexivity.
Qed.

Section Outcome.

Variable env : Env.
Variable body : Z -> M unit.
Variable prefix : string.
Variable items : list Worker.
Variable o0 : OneDrive.

Hypothesis body_starts :
  forall (k : nat) (c : Conf) (w : Worker),
    nth_error items k = Some w ->
    headers (fst c) = headers o0 /\ url (fst c) = url o0 ->
    body (Z.of_nat k) c = start_thread w c.

Variable M : nat.
Hypothesis M_threads : max_threads o0 = Z.of_nat M.
Hypothesis M_positive : (1 <= M)%nat.

(** The loop entered at index [k] with an empty log and [k] turns to make:
    when none of the batches of the first [k] items records a failure, it
    returns after all of them; when one does, it raises after the first
    that does, with the messages of its join. *)
Lemma batch_loop_outcome (n : nat) :
  forall (k : nat) (c c' : Conf) (r : result unit),
    (k <= List.length items)%nat -> (k <= n)%nat -> ready o0 c ->
    errors (fst c) = [] ->
    batch_loop env body prefix n (Z.of_nat k) c = (r, c') ->
    match first_failure env (spec_batches M (firstn k items)) c with
    | None =>
        r = Ok tt
        /\ c' = after_batches env (spec_batches M (firstn k items)) c
    | Some j =>
        let bs := spec_batches M (firstn k items) in
        let cj := joined env
                    (launched (nth j bs [])
                       (after_batches env (firstn j bs) c)) in
        r = Raise (Exception
                     (prefix +s String.concat ". " (errors (fst cj))))
        /\ c' = (set_errors [] (fst cj), snd cj)
    end.
Proof.
  induction n as [|n IH]; intros k c c' r Hk Hn Hready He Hrun.
  - assert (k = 0%nat) by lia. subst k.
    rewrite batch_loop_done in Hrun by lia. inversion Hrun; subst.
    cbn. auto.
  - destruct k as [|k].
    { rewrite batch_loop_done in Hrun by lia. inversion Hrun; subst.
      cbn. auto. }
    destruct Hready as (Ht & Hend & Hmax).
    set (keep := (S k - M)%nat).
    set (ws := rev (skipn keep (firstn (S k) items))).
    assert (Hnum : Z.to_nat (number_threads (fst c) (Z.of_nat (S k)))
                   = Nat.min (S k) M).
    { unfold number_threads. rewrite Hmax, M_threads.
      destruct (Z.ltb_spec (Z.of_nat (S k)) (Z.of_nat M)); lia. }
    pose proof (launch_batch_run body items o0 body_starts
                  (Nat.min (S k) M) (S k) c ltac:(lia) Hk Hend) as Hlaunch.
    cbv zeta in Hlaunch.
    replace (S k - Nat.min (S k) M)%nat with keep in Hlaunch
      by (unfold keep; lia).
    fold ws in Hlaunch. fold (launched ws c) in Hlaunch.
    rewrite <- Hnum in Hlaunch.
    rewrite (batch_loop_after_launch env body prefix n (Z.of_nat (S k)) _ _ _
               ltac:(lia) Hlaunch) in Hrun.
    destruct (joined_launched_facts env ws c Ht) as (Jt & Jh & Ju & Jm & _).
    assert (Hspec : spec_batches M (firstn (S k) items)
                    = ws :: spec_batches M (firstn keep items)).
    { rewrite (spec_batches_cons M M_positive).
      2:{ intros E. apply (f_equal (@List.length Worker)) in E.
          rewrite length_firstn in E. cbn [List.length] in E. lia. }
      rewrite length_firstn.
      replace (Nat.min (S k) (List.length items)) with (S k) by lia.
      fold keep. fold ws. f_equal. rewrite firstn_firstn.
      now replace (Nat.min keep (S k)) with keep by (unfold keep; lia). }
    rewrite Hspec. cbn [first_failure].
    destruct (batch_fails_log env ws c He) as [Hquiet Hloud].
    destruct (batch_fails env ws c) eqn:Ef.
    + specialize (Hloud eq_refl). cbv zeta. cbn [nth firstn after_batches].
      destruct (errors (fst (joined env (launched ws c)))) as [|m ms] eqn:Eerr;
        [now elim Hloud |].
      inversion Hrun; subst r c'. split; reflexivity.
    + specialize (Hquiet eq_refl). rewrite Hquiet in Hrun.
      replace (S k - Nat.min (S k) M)%nat with keep in Hrun
        by (unfold keep; lia).
      apply IH in Hrun.
      * destruct (first_failure env (spec_batches M (firstn keep items))
                    (joined env (launched ws c))) as [j |];
          cbn [option_map]; cbv zeta; cbn [nth firstn after_batches];
          exact Hrun.
      * unfold keep. lia.
      * unfold keep. lia.
      * destruct Hend. repeat split; try assumption; congruence.
      * exact Hquiet.
Qed.

End Outcome.

(** The loops of [Upload] and [Download], entered with an empty registry
    and an empty log: the run is settled by the first batch that records
    a failure. *)
Lemma transfer_outcome (env : Env) (body : Z -> M unit) (prefix : string)
  (n M : nat) (o : OneDrive) (h : History) (items : list Worker)
  (r : result unit) (c' : Conf) :
  transfer o body prefix items ->
  threads o = [] -> errors o = [] ->
  max_threads o = Z.of_nat M -> (1 <= M)%nat ->
  (List.length items <= n)%nat ->
  batch_loop env body prefix n (Z.of_nat (List.length items)) (o, h) = (r, c') ->
  (first_failure env (spec_batches M items) (o, h) = None ->
   r = Ok tt
   /\ c' = after_batches env (spec_batches M items) (o, h)
   /\ batches (snd c') = batches h ++ spec_batches M items
   /\ started (snd c') = started h ++ List.concat (spec_batches M items))
  /\ (forall j : nat,
        first_failure env (spec_batches M items) (o, h) = Some j ->
        (j < List.length (spec_batches M items))%nat
        /\ (exists msg, r = Raise (Exception (prefix +s msg)))
        /\ batches (snd c')
           = batches h ++ firstn (S j) (spec_batches M items)
        /\ started (snd c')
           = started h ++ List.concat (firstn (S j) (spec_batches M items))).
Proof.
  intros Htransfer Ht He HM Hpos Hn Hrun.
  pose proof (batch_loop_outcome env body prefix items o
                (transfer_starts o body prefix items Htransfer)
                M HM Hpos n (List.length items) (o, h) c' r
                (le_n _) Hn ltac:(repeat split; assumption) He Hrun) as Hmain.
  rewrite firstn_all in Hmain. split.
  - intros Hnone. rewrite Hnone in Hmain. destruct Hmain as [-> ->].
    destruct (after_batches_facts env (spec_batches M items) (o, h) Ht)
      as (_ & _ & _ & _ & Hb & Hs).
    auto.
  - intros j Hsome. rewrite Hsome in Hmain. cbv zeta in Hmain.
    destruct Hmain as [-> ->].
    pose proof (first_failure_in_range env _ _ _ Hsome) as Hj.
    split; [exact Hj |]. split; [eexists; reflexivity |].
    destruct (after_batches_facts env (firstn j (spec_batches M items))
                (o, h) Ht) as (At & _ & _ & _ & Ab & As).
    set (cpre := after_batches env (firstn j (spec_batches M items)) (o, h))
      in *.
    destruct (joined_launched_facts env (nth j (spec_batches M items) [])
                cpre At) as (_ & _ & _ & _ & Jb & Js).
    cbn [fst snd] in Ab, As |- *.
    rewrite (firstn_succ_nth [] _ j Hj), concat_app. cbn [List.concat].
    rewrite app_nil_r, !app_assoc, <- Ab, <- As. split; assumption.
Qed.

(** C2, as the code has it.  For the loop of [Upload], or of [Download]
    without a specific file, over [L] items with [max_threads = M >= 1],
    entered with an empty thread registry and an empty error log and given
    [L] turns.  The list is cut into [ceil (L / M)] batches, every batch but
    the last of exactly [M] workers and the last of [L mod M] workers ([M]
    when [M] divides [L]).  When no batch records a failure the run
    returns, and it has started and joined exactly these batches, one after
    the other; with no item it runs no batch and returns at once.  When a
    batch records a failure the run raises an aggregated error after the
    first batch that does, and it has run the batches up to this one and
    no other. *)
Theorem batch_loop_runs_all_batches_when_none_fails (env : Env)
  (body : Z -> M unit) (prefix : string) (n M : nat) (o : OneDrive)
  (h : History) (items : list Worker) (r : result unit) (c' : Conf) :
  transfer o body prefix items ->
  threads o = [] -> errors o = [] ->
  max_threads o = Z.of_nat M -> (1 <= M)%nat ->
  (List.length items <= n)%nat ->
  batch_loop env body prefix n (Z.of_nat (List.length items)) (o, h) = (r, c') ->
  let L := List.length items in
  let bs := spec_batches M items in
  (List.length bs = ((L + M - 1) / M)%nat
   /\ (forall k, (S k < List.length bs)%nat -> List.length (nth k bs []) = M)
   /\ (items <> [] ->
       List.length (last bs [])
       = if (L mod M =? 0)%nat then M else (L mod M)%nat))
  /\ (first_failure env bs (o, h) = None ->
      r = Ok tt
      /\ c' = after_batches env bs (o, h)
      /\ batches (snd c') = batches h ++ bs
      /\ started (snd c') = started h ++ List.concat bs
      /\ (items = [] -> c' = (o, h)))
  /\ (forall j : nat,
        first_failure env bs (o, h) = Some j ->
        (j < List.length bs)%nat
        /\ (exists msg, r = Raise (Exception (prefix +s msg)))
        /\ batches (snd c') = batches h ++ firstn (S j) bs
        /\ started (snd c') = started h ++ List.concat (firstn (S j) bs)).
Proof.
  intros Htransfer Ht He HM Hpos Hn Hrun L bs.
  destruct (transfer_outcome env body prefix n M o h items r c'
              Htransfer Ht He HM Hpos Hn Hrun) as [Hnone Hsome].
  split; [| split].
  - split; [apply length_spec_batches, Hpos |].
    split; [apply spec_batches_full, Hpos | apply spec_batches_last, Hpos].
  - intros Hf. destruct (Hnone Hf) as (Hr & Hc & Hb & Hs).
    split; [exact Hr |]. split; [exact Hc |]. split; [exact Hb |].
    split; [exact Hs |].
    intros ->. rewrite batch_loop_done in Hrun by (simpl; lia).
    now inversion Hrun.
  - exact Hsome.
Qed.

Lemma batch_loop_runs_all_batches_when_none_fails_witness :
  fst (batch_loop (world drive_refusing_b 1000)
         (sample_upload_body ["a.txt"; "c.txt"; "e.txt"]) upload_prefix 3
         (Z.of_nat
            (List.length (sample_upload_workers ["a.txt"; "c.txt"; "e.txt"])))
         (sample_client, []))
  = Ok tt.
Proof.
  refine (proj1 (proj1 (proj2 (batch_loop_runs_all_batches_when_none_fails
                                 (world drive_refusing_b 1000)
                                 (sample_upload_body
                                    ["a.txt"; "c.txt"; "e.txt"])
                                 upload_prefix 3 2 sample_client []
                                 (sample_upload_workers
                                    ["a.txt"; "c.txt"; "e.txt"])
                                 _ _
                                 (transfer_Upload sample_client
                                    ["a.txt"; "c.txt"; "e.txt"]
                                    "u/me/drive/root:" "/d/" ":/content" true)
                                 eq_refl eq_refl eq_refl _ _
                                 (surjective_pairing _))) _)).
  - lia.
  - simpl. lia.
  - vm_compute. reflexivity.
Defined.



(** Three uploads, two at a time, none refused: the batches are those of
    the list, the last two files first. *)
Example Upload_three_files_two_at_a_time :
  let run := batch_loop (world drive_refusing_b 1000)
               (sample_upload_body ["a.txt"; "c.txt"; "e.txt"])
               upload_prefix 3 3 (sample_client, []) in
  first_failure (world drive_refusing_b 1000)
    (spec_batches 2 (sample_upload_workers ["a.txt"; "c.txt"; "e.txt"]))
    (sample_client, []) = None
  /\ fst run = Ok tt
  /\ map (map item_name) (batches (snd (snd run)))
     = [[PStr "e.txt"; PStr "c.txt"]; [PStr "a.txt"]].
Proof. vm_compute. repeat split. Qed.

(** Three uploads, one at a time, the second refused: the batch of
    [c.txt] passes, the batch of [b.txt] is the first to record a failure
    and the last to be run. *)
Example Upload_second_batch_fails :
  let run := batch_loop (world drive_refusing_b 1000)
               (sample_upload_body ["a.txt"; "b.txt"; "c.txt"])
               upload_prefix 3 3 (set_max_threads 1 sample_client, []) in
  first_failure (world drive_refusing_b 1000)
    (spec_batches 1 (sample_upload_workers ["a.txt"; "b.txt"; "c.txt"]))
    (set_max_threads 1 sample_client, []) = Some 1%nat
  /\ fst run
     = Raise (Exception
                "Could not upload all files: Could not upload b.txt (Code: accessDenied)")
  /\ map (map item_name) (batches (snd (snd run)))
     = [[PStr "c.txt"]; [PStr "b.txt"]].
Proof. vm_compute. repeat split. Qed.
(** ** From the methods to their loops *)

Lemma CheckConnected_ok_threads (env : Env) (fuel : nat) (c c1 : Conf) :
  _CheckConnected env fuel c = (Ok tt, c1) -> threads (fst c1) = [].
Proof.
  unfold _CheckConnected. intros H. ok_inv H.
  unfold _CheckRequestsCompleted, bind, get_self in H. cbn [fst snd] in H.
  match type of H with
  | context [threads ?o] => destruct (threads o) eqn:Ethreads
  end; [| discriminate].
  inversion H; subst. exact Ethreads.
Qed.

Lemma upload_path_pure (p : string) (c c' : Conf) (r : result string) :
  upload_path p c = (r, c') -> c' = c.
Proof.
  unfold upload_path, bind, char_at, ret, raise.
  destruct (first_char p); [| intros H; now inversion H].
  match goal with |- context [last_char ?q] => destruct (last_char q) end;
    intros H; now inversion H.
Qed.

(** [Upload] runs its loop from the configuration the connection check
    leaves, in which no thread is registered. *)
Lemma Upload_runs_the_loop (env : Env) (fuel : nat) (filenames : list string)
  (p p' : string) (log : bool) (c c1 : Conf) :
  _CheckConnected env fuel c = (Ok tt, c1) ->
  fst (upload_path p c1) = Ok p' ->
  threads (fst c1) = []
  /\ Upload env fuel filenames p log c
     = _SaveRequest
         (batch_loop env
            (upload_item filenames (url (fst c1) +s "me/drive/root:") p'
               ":/content" log)
            upload_prefix fuel (Z.of_nat (List.length filenames))) c1.
Proof.
  intros Hconn Hpath. split; [eapply CheckConnected_ok_threads, Hconn |].
  unfold Upload. rewrite !SaveRequest_run.
  rewrite (bind_run _ _ _ _ _ Hconn).
  destruct (upload_path p c1) as [r c2] eqn:Ep.
  pose proof (upload_path_pure _ _ _ _ Ep) as ->. simpl in Hpath. subst r.
  rewrite (bind_run _ _ _ _ _ Ep). reflexivity.
Qed.

(** [Download] does the same from the configuration the listing leaves. *)
Lemma Download_runs_the_loop (env : Env) (fuel : nat)
  (path_onedrive path_local specific_file : string) (log : bool)
  (c c1 c2 c3 c4 : Conf) (present : bool)
  (all_files folders : Dict) :
  _CheckConnected env fuel c = (Ok tt, c1) ->
  os_path_exists env path_local c1 = (Ok present, c2) ->
  (if negb present then os_makedirs env path_local else ret tt) c2
  = (Ok tt, c3) ->
  FetchAllFiles env fuel (strip_slashes path_onedrive) c3
  = (Ok (all_files, folders), c4) ->
  Download env fuel path_onedrive path_local specific_file log c
  = _SaveRequest
      (batch_loop env
         (download_item (pydict_keys all_files) all_files path_local
            specific_file log)
         download_prefix fuel (Z.of_nat (List.length (pydict_keys all_files))))
      c4.
Proof.
  intros Hconn Hex Hmk Hlist. unfold Download. rewrite !SaveRequest_run.
  rewrite (bind_run _ _ _ _ _ Hconn), (bind_run _ _ _ _ _ Hex).
  rewrite (bind_run _ _ _ _ _ Hmk). cbv zeta.
  rewrite (bind_run _ _ _ _ _ Hlist). reflexivity.
Qed.

(** ** The bearer header and the token (C6) *)

Lemma sync_ok_frame {A : Type} (m : M A) :
  respects (keeping session_of) m -> sync_ok m.
Proof.
  intros Hm c a c' Hs Hrun. specialize (Hm _ _ _ Hrun).
  unfold session_of in Hm. simpl in Hm. inversion Hm as [[Ht Hh]].
  unfold in_sync in *. now rewrite Ht, Hh.
Qed.

Lemma sync_ok_bind {A B : Type} (m : M A) (f : A -> M B) :
  sync_ok m -> (forall a, sync_ok (f a)) -> sync_ok (bind m f).
Proof.
  intros Hm Hf c b c' Hs Hrun. apply bind_ok in Hrun.
  destruct Hrun as (a & c1 & E1 & E2).
  eapply Hf; [eapply Hm; eassumption | exact E2].
Qed.

Lemma sync_ok_SaveRequest {A : Type} (m : M A) :
  sync_ok m -> sync_ok (_SaveRequest m).
Proof.
  intros Hm c a c' Hs Hrun. apply (proj1 (SaveRequest_ok m c c' a)) in Hrun.
  exact (Hm c a c' Hs Hrun).
Qed.

(** A refresh that returns leaves them in step, whatever it found. *)
Lemma RefreshToken_syncs (env : Env) (c c' : Conf) (a : unit) :
  _RefreshToken env c = (Ok a, c') -> in_sync (fst c').
Proof.
  destruct c as [o h]. rewrite RefreshToken_run. unfold refresh_outcome.
  destruct (http env h (refresh_request o)) as [e | resp]; [discriminate |].
  destruct (text_json resp) as [parsed |]; [| discriminate].
  destruct (getitem parsed "access_token") as [e | access]; [discriminate |].
  destruct (getitem parsed "refresh_token") as [e | refresh]; [discriminate |].
  destruct access; try discriminate. cbn [concat_str].
  intros H. inversion H; subst. reflexivity.
Qed.

Lemma RefreshToken_sync_ok (env : Env) : sync_ok (_RefreshToken env).
Proof. intros c a c' _ H. eapply RefreshToken_syncs, H. Qed.

Lemma Connect_syncs (env : Env) (c c' : Conf) (a : unit) :
  _Connect env c = (Ok a, c') -> in_sync (fst c').
Proof.
  unfold _Connect. rewrite SaveRequest_ok. intros H.
  apply bind_ok in H. destruct H as (u & c1 & E1 & H).
  apply RefreshToken_syncs in E1. revert H.
  apply (sync_ok_frame (A := unit)); [frame | exact E1].
Qed.

Lemma Heartbeat_sync_ok (env : Env) : sync_ok (_CheckLastHeartbeat env).
Proof.
  unfold _CheckLastHeartbeat.
  apply sync_ok_bind; [apply sync_ok_frame; frame |]. intros now.
  apply sync_ok_bind; [apply sync_ok_frame; frame |]. intros o.
  destruct (now - last_updated o >? refresh_interval o);
    [apply RefreshToken_sync_ok | apply sync_ok_frame; frame].
Qed.

Lemma connect_loop_sync_ok (env : Env) (n : nat) :
  forall attempts, sync_ok (connect_loop env n attempts).
Proof.
  induction n as [|n IH]; intros attempts; cbn [connect_loop].
  - apply sync_ok_frame. frame.
  - apply sync_ok_bind; [apply sync_ok_frame; frame |]. intros o.
    destruct (is_connected o); [apply sync_ok_frame; frame |].
    destruct (attempts + 1 =? number_retry_connection o);
      [apply sync_ok_frame; frame |].
    apply sync_ok_bind; [intros c a c' _ H; eapply Connect_syncs, H |].
    intros _. apply sync_ok_bind; [apply sync_ok_frame; frame |].
    intros _. apply IH.
Qed.

(** The loop entered by a client that is not connected returns only after
    a refresh that returned. *)
Lemma connect_loop_syncs (env : Env) (n : nat) (attempts : Z) (c c' : Conf) :
  is_connected (fst c) = false ->
  connect_loop env n attempts c = (Ok tt, c') ->
  in_sync (fst c').
Proof.
  intros Hc H. destruct n as [|n]; cbn [connect_loop] in H.
  - unfold bind, get_self in H. cbn [fst] in H. rewrite Hc in H. discriminate.
  - unfold bind at 1 in H. unfold get_self at 1 in H. cbn [fst snd] in H.
    rewrite Hc in H.
    destruct (attempts + 1 =? number_retry_connection (fst c));
      [discriminate |].
    apply bind_ok in H. destruct H as (u & c1 & E1 & H).
    apply Connect_syncs in E1.
    apply bind_ok in H. destruct H as (u2 & c2 & E2 & H).
    inversion E2; subst.
    eapply connect_loop_sync_ok; [| exact H]. exact E1.
Qed.

Lemma CheckConnected_sync_ok (env : Env) (fuel : nat) :
  sync_ok (_CheckConnected env fuel).
Proof.
  unfold _CheckConnected.
  apply sync_ok_bind; [apply sync_ok_frame; frame |]. intros o.
  apply sync_ok_bind.
  - destruct (negb (is_connected o));
      [apply connect_loop_sync_ok | apply sync_ok_frame; frame].
  - intros _. apply sync_ok_bind; [apply Heartbeat_sync_ok |].
    intros _. apply sync_ok_frame. frame.
Qed.

Lemma FetchFolderID_sync_ok (env : Env) (fuel : nat) (p : string) :
  sync_ok (_FetchFolderID env fuel p).
Proof.
  unfold _FetchFolderID. apply sync_ok_SaveRequest.
  apply sync_ok_bind; [apply CheckConnected_sync_ok |]. intros _.
  apply sync_ok_frame. frame.
Qed.

Lemma FetchAllFiles_sync_ok (env : Env) (fuel : nat) (p : string) :
  sync_ok (FetchAllFiles env fuel p).
Proof.
  unfold FetchAllFiles. apply sync_ok_SaveRequest.
  apply sync_ok_bind; [apply CheckConnected_sync_ok |]. intros _.
  apply sync_ok_frame. frame.
Qed.

Lemma MakeDir_sync_ok (env : Env) (fuel : nat) (p name : string) :
  sync_ok (MakeDir env fuel p name).
Proof.
  unfold MakeDir. apply sync_ok_SaveRequest.
  apply sync_ok_bind; [apply CheckConnected_sync_ok |]. intros _.
  apply sync_ok_frame. frame.
Qed.

Lemma move_loop_session (env : Env) (keys : list pyval)
  (files_ids : Dict) (dest : pyval) (src name : string) :
  respects (keeping session_of) (move_loop env keys files_ids dest src name).
Proof.
  induction keys as [|k keys IH]; cbn [move_loop]; frame.
Qed.

Lemma MoveFile_sync_ok (env : Env) (fuel : nat) (dest src name : string) :
  sync_ok (MoveFile env fuel dest src name).
Proof.
  unfold MoveFile. apply sync_ok_SaveRequest.
  apply sync_ok_bind; [apply CheckConnected_sync_ok |]. intros _. cbv zeta.
  apply sync_ok_bind; [apply FetchAllFiles_sync_ok |]. intros listing.
  apply sync_ok_bind; [apply FetchFolderID_sync_ok |]. intros dest_id.
  apply sync_ok_frame, move_loop_session.
Qed.

Lemma MoveAllFiles_sync_ok (env : Env) (fuel : nat) (dest src : string) :
  sync_ok (MoveAllFiles env fuel dest src).
Proof.
  unfold MoveAllFiles. apply sync_ok_SaveRequest.
  apply sync_ok_bind; [apply CheckConnected_sync_ok |]. intros _. cbv zeta.
  apply sync_ok_bind; [apply FetchFolderID_sync_ok |]. intros src_id.
  apply sync_ok_bind; [apply FetchFolderID_sync_ok |]. intros dest_id.
  apply sync_ok_frame. frame.
Qed.

Lemma run_workers_session (env : Env) (ws : list Worker) :
  respects (keeping session_of) (run_workers env ws).
Proof.
  induction ws as [|w ws IH]; cbn [run_workers]; frame.
  destruct w; unfold worker_body, run_UploadIntern, run_DownloadIntern; frame.
Qed.

Lemma JoinThreads_session (env : Env) :
  respects (keeping session_of) (_JoinThreads env).
Proof.
  intros c r c' H. rewrite JoinThreads_run in H. inversion H; subst.
  unfold joined.
  pose proof (run_workers_session env
                (sched env (snd c) (threads (fst c))) c) as Hs.
  destruct (run_workers env (sched env (snd c) (threads (fst c))) c)
    as [r2 c2].
  exact (Hs _ _ eq_refl).
Qed.

Lemma batch_loop_session (env : Env) (body : Z -> M unit) (prefix : string) :
  (forall i, respects (keeping session_of) (body i)) ->
  forall n i, respects (keeping session_of) (batch_loop env body prefix n i).
Proof.
  intros Hbody. induction n as [|n IH]; intros i; cbn [batch_loop].
  - destruct (i >? 0); frame.
  - destruct (i >? 0); [| frame].
    apply respects_bind; [frame |]. intros o.
    apply respects_bind;
      [apply respects_unjoined;
       [apply launch_batch_respects, Hbody | apply run_workers_session] |].
    intros i'.
    apply respects_bind; [apply JoinThreads_session |]. intros _.
    apply respects_bind; [unfold _FetchErrors; frame |]. intros _. apply IH.
Qed.

Lemma Upload_sync_ok (env : Env) (fuel : nat) (filenames : list string)
  (p : string) (log : bool) :
  sync_ok (Upload env fuel filenames p log).
Proof.
  unfold Upload. apply sync_ok_SaveRequest.
  apply sync_ok_bind; [apply CheckConnected_sync_ok |]. intros _.
  apply sync_ok_frame.
  apply respects_bind; [unfold upload_path; frame |]. intros p'.
  apply respects_bind; [frame |]. intros o. cbv zeta.
  apply batch_loop_session. intros i. unfold upload_item. frame.
Qed.

Lemma Download_sync_ok (env : Env) (fuel : nat)
  (path_onedrive path_local specific_file : string) (log : bool) :
  sync_ok (Download env fuel path_onedrive path_local specific_file log).
Proof.
  unfold Download. apply sync_ok_SaveRequest.
  apply sync_ok_bind; [apply CheckConnected_sync_ok |]. intros _.
  apply sync_ok_bind; [apply sync_ok_frame; frame |]. intros present.
  apply sync_ok_bind; [apply sync_ok_frame; frame |]. intros _. cbv zeta.
  apply sync_ok_bind; [apply FetchAllFiles_sync_ok |]. intros listing.
  apply sync_ok_frame, batch_loop_session.
  intros i. unfold download_item. frame.
Qed.

Lemma scope_loop_keeps_connected (perms : list pyval) :
  respects (keeping (fun c : Conf => is_connected (fst c))) (scope_loop perms).
Proof.
  induction perms as [|p perms IH]; cbn [scope_loop]; frame.
Qed.

Lemma SetParameters_keeps_connected (parameters : list (string * pyval)) :
  respects (keeping (fun c : Conf => is_connected (fst c)))
    (_SetParameters parameters).
Proof.
  unfold _SetParameters, _SetsAndChecksVariableWithDefaultValue,
    _SetsAndChecksVariable.
  frame. apply scope_loop_keeps_connected.
Qed.

Lemma construct_syncs (env : Env) (fuel : nat)
  (parameters : list (string * pyval)) (c' : Conf) :
  construct env fuel parameters = (Ok tt, c') -> in_sync (fst c').
Proof.
  unfold construct, __init__. intros H.
  apply bind_ok in H. destruct H as (u & c1 & E1 & H).
  apply SetParameters_keeps_connected in E1. simpl in E1.
  unfold _CheckConnected in H.
  apply bind_ok in H. destruct H as (o & c2 & E2 & H).
  inversion E2; subst o c2. rewrite E1 in H. cbn [negb] in H.
  apply bind_ok in H. destruct H as (u2 & c3 & E3 & H). destruct u2.
  apply connect_loop_syncs in E3; [| exact E1].
  revert H. apply (sync_ok_bind (A := unit) (B := unit)); [| | exact E3].
  - apply Heartbeat_sync_ok.
  - intros _. apply sync_ok_frame. frame.
Qed.

(** C6, as the code has it.  The bearer header is the one built from the
    token after a construction that returns, after a refresh that returns
    (whatever the object was), and after every operation that returns
    when it was so before; [_CheckError] and [_FetchErrors] leave both
    fields as they are on every outcome, a raise included. *)
Theorem session_in_sync_on_return (env : Env) (fuel : nat) :
  (forall parameters c',
      construct env fuel parameters = (Ok tt, c') -> in_sync (fst c'))
  /\ (forall c c', _RefreshToken env c = (Ok tt, c') -> in_sync (fst c'))
  /\ sync_ok (_CheckLastHeartbeat env)
  /\ sync_ok (_CheckConnected env fuel)
  /\ (forall p, sync_ok (_FetchFolderID env fuel p))
  /\ (forall p, sync_ok (FetchAllFiles env fuel p))
  /\ (forall p name, sync_ok (MakeDir env fuel p name))
  /\ (forall dest src name, sync_ok (MoveFile env fuel dest src name))
  /\ (forall dest src, sync_ok (MoveAllFiles env fuel dest src))
  /\ (forall filenames p log, sync_ok (Upload env fuel filenames p log))
  /\ (forall p local file log, sync_ok (Download env fuel p local file log))
  /\ (forall text r, respects (keeping session_of) (_CheckError text r))
  /\ (forall prefix, respects (keeping session_of) (_FetchErrors prefix)).
Proof.
  repeat split.
  - apply construct_syncs.
  - intros c c'. apply RefreshToken_syncs.
  - apply Heartbeat_sync_ok.
  - apply CheckConnected_sync_ok.
  - apply FetchFolderID_sync_ok.
  - apply FetchAllFiles_sync_ok.
  - apply MakeDir_sync_ok.
  - apply MoveFile_sync_ok.
  - apply MoveAllFiles_sync_ok.
  - apply Upload_sync_ok.
  - apply Download_sync_ok.
  - intros text r. unfold _CheckError. frame.
  - intros prefix. unfold _FetchErrors. frame.
Qed.

Lemma session_in_sync_on_return_witness :
  in_sync (fst (snd (Upload (world drive_refusing_b 1000) 5
                       ["a.txt"; "c.txt"] "d" true (sample_client, [])))).
Proof.
  refine (proj1 (proj2 (proj2 (proj2 (proj2 (proj2 (proj2 (proj2 (proj2
            (proj2 (session_in_sync_on_return
                      (world drive_refusing_b 1000) 5))))))))))
            ["a.txt"; "c.txt"] "d" true (sample_client, []) tt _ _ _).
  - reflexivity.
  - reflexivity.
Defined.

(** The claim as stated fails: the refresh that raises for lack of
    [refresh_token] leaves the new token with the old header. *)
Lemma RefreshToken_failure_leaves_session_out_of_sync :
  let run := _RefreshToken (auth_world (PDict [("access_token", PStr "A2")]) 2000)
               (sample_client, []) in
  in_sync sample_client
  /\ fst run = Raise (KeyError "refresh_token")
  /\ token (fst (snd run)) = PStr "A2"
  /\ headers (fst (snd run)) = bearer "A1"
  /\ ~ in_sync (fst (snd run)).
Proof.
  repeat split. intros H. discriminate H.
Qed.

(** ** Scenarios *)

(** Five files downloaded two at a time, the third one taken failing: the
    second batch is completed, the error names the file, and [f1] is never
    asked for. *)
Example Download_five_files_third_taken_fails :
  let run := Download (world drive_five_files 1000) 5 "src" "out" EmptyString
               true (sample_client, []) in
  fst run
  = Raise (Exception "Could not download all files: Could not download f3")
  /\ map (map item_name) (batches (snd (snd run)))
     = [[PStr "f5"; PStr "f4"]; [PStr "f3"; PStr "f2"]]
  /\ map item_name (started (snd (snd run)))
     = [PStr "f5"; PStr "f4"; PStr "f3"; PStr "f2"]
  /\ errors (fst (snd run)) = [].
Proof. repeat split. Qed.

(** Two files downloaded together, the id of the first a number: the
    thread of [f2] is started, the [for] loop raises at [f1], and the call
    ends with no batch joined, the thread still registered and, as it has
    come to its end, its message in the log. *)
Example Download_raises_with_a_thread_unjoined :
  let run := Download (world drive_with_a_number_id 1000) 5 "src" "out"
               EmptyString true (sample_client, []) in
  (exists msg, fst run = Raise (TypeError msg))
  /\ map item_name (threads (fst (snd run))) = [PStr "f2"]
  /\ map item_name (started (snd (snd run))) = [PStr "f2"]
  /\ batches (snd (snd run)) = []
  /\ errors (fst (snd run)) = ["Could not download f2"].
Proof. vm_compute. split; [eexists; reflexivity | repeat split]. Qed.

(** The listing is taken as it comes: a name that is a number is a key of
    the dict, and a second entry whose name is equal to it, here [7.0] after
    [7], takes its place under the key that is there. *)
Example collect_items_keeps_the_first_of_equal_keys :
  collect_items
    [PDict [("name", PInt 7); ("id", PInt 1)];
     PDict [("name", PFloat (Finite 7 0)); ("id", PStr "2")];
     PDict [("name", PStr "d"); ("id", PStr "3"); ("folder", PDict [])]]
    [] []
  = inr ([(PInt 7, PStr "2")], [(PStr "d", PStr "3")]).
Proof. reflexivity. Qed.

(** A connected client whose token is fresh sends nothing when its
    connection is checked. *)
Example CheckConnected_fresh_client_sends_nothing :
  _CheckConnected (world drive_five_files 1000) 5 (sample_client, [])
  = (Ok tt, (sample_client, [EvClock])).
Proof. reflexivity. Qed.

(** With [max_threads <= 0], which the check of the settings lets through,
    every batch is empty: nothing is started, and the loop goes on for as
    long as it is followed. *)
Lemma batch_loop_without_threads (env : Env) (body : Z -> M unit)
  (prefix : string) (n : nat) :
  fair env ->
  forall (i : Z) (c c' : Conf) (r : result unit),
    max_threads (fst c) <= 0 ->
    threads (fst c) = [] ->
    batch_loop env body prefix n i c = (r, c') ->
    started (snd c') = started (snd c)
    /\ exists j, batches (snd c') = batches (snd c) ++ repeat [] j.
Proof.
  intros Hfair. induction n as [|n IH]; intros i c c' r Hmax Ht Hrun.
  - cbn [batch_loop] in Hrun. destruct (i >? 0); inversion Hrun; subst;
      (split; [reflexivity | exists 0%nat; now rewrite app_nil_r]).
  - destruct (Z_le_gt_dec i 0) as [Hle | Hgt].
    { rewrite batch_loop_done in Hrun by exact Hle. inversion Hrun; subst.
      split; [reflexivity | exists 0%nat; now rewrite app_nil_r]. }
    assert (Hnum : Z.to_nat (number_threads (fst c) i) = 0%nat).
    { unfold number_threads. destruct (Z.ltb_spec i (max_threads (fst c))); lia. }
    assert (Hlaunch : launch_batch body (Z.to_nat (number_threads (fst c) i)) i c
                      = (Ok i, c)) by (rewrite Hnum; reflexivity).
    rewrite (batch_loop_after_launch env body prefix n i i c c
               ltac:(lia) Hlaunch) in Hrun.
    assert (Hjoined : joined env c = (fst c, EvJoin [] :: snd c)).
    { unfold joined. rewrite Ht.
      rewrite (Permutation_nil (Permutation_sym (Hfair (snd c) []))).
      cbn [run_workers ret snd fst]. rewrite <- Ht at 1.
      now rewrite set_threads_same. }
    rewrite Hjoined in Hrun. cbn [fst snd] in Hrun.
    destruct (errors (fst c)) as [|m ms].
    + apply IH in Hrun; [| exact Hmax | exact Ht].
      destruct Hrun as (Hs & j & Hb). split; [exact Hs |].
      exists (S j). cbn [snd batches] in Hb. rewrite Hb, <- app_assoc.
      reflexivity.
    + inversion Hrun; subst. cbn [snd started batches].
      split; [reflexivity | now exists 1%nat].
Qed.

(** ** The name an upload goes by *)

Lemma split_not_nil (c : ascii) (s : string) : split c s <> [].
Proof.
  destruct s as [|x s]; cbn [split]; [discriminate |].
  destruct (Ascii.eqb x c); [discriminate |].
  destruct (split c s); discriminate.
Qed.

Lemma split_single (c : ascii) (s h : string) : split c s = [h] -> h = s.
Proof.
  revert h. induction s as [|x s IH]; intros h H; cbn [split] in H.
  - now inversion H.
  - destruct (Ascii.eqb x c).
    + inversion H as [[Hh Ht]]. now destruct (split_not_nil c s).
    + destruct (split c s) as [|h' t] eqn:E;
        [now destruct (split_not_nil c s) |].
      inversion H as [[Hh Ht]]. subst t. now rewrite (IH h' eq_refl).
Qed.

(** The last part of a path is what the path ends with. *)
Lemma last_part_is_suffix (c : ascii) (s : string) :
  exists before, s = before +s last (split c s) EmptyString.
Proof.
  induction s as [|x s [before IH]]; [now exists EmptyString |].
  cbn [split]. destruct (Ascii.eqb x c).
  - exists (String x before).
    destruct (split c s) as [|h t] eqn:E; [now destruct (split_not_nil c s) |].
    change (last (EmptyString :: h :: t) EmptyString)
      with (last (h :: t) EmptyString).
    cbn [String.append]. f_equal. exact IH.
  - destruct (split c s) as [|h t] eqn:E; [now destruct (split_not_nil c s) |].
    destruct t as [|h2 t].
    + exists EmptyString. cbn [last String.append].
      now rewrite (split_single c s h E).
    + exists (String x before).
      change (last (String x h :: h2 :: t) EmptyString)
        with (last (h :: h2 :: t) EmptyString).
      cbn [String.append]. f_equal. exact IH.
Qed.

(** The message of a failed upload contains the name the file was to have
    in the drive, the last part of its path. *)
Lemma upload_message_names_the_target (o : OneDrive)
  (url_pre path_onedrive url_post : string) (log : bool)
  (filename name m : string) :
  item_name (upload_worker o url_pre path_onedrive url_post log filename)
  = PStr name ->
  contains m name ->
  contains m (last (split char_slash
                      (replace char_backslash char_slash filename))
                EmptyString).
Proof.
  intros Hname H. cbn [upload_worker item_name] in Hname.
  inversion Hname; subst name. eapply contains_trans; [exact H |].
  destruct (last_part_is_suffix char_slash
              (replace char_backslash char_slash filename)) as [before E].
  exists before, EmptyString. now rewrite append_empty_r.
Qed.

(** * Further properties of the methods *)

(** ** The connection check *)

Lemma connect_loop_ok_connected (env : Env) (n : nat) :
  forall (attempts : Z) (c c' : Conf),
    connect_loop env n attempts c = (Ok tt, c') ->
    is_connected (fst c') = true.
Proof.
  induction n as [|n IH]; intros attempts c c' H; cbn [connect_loop] in H;
    unfold bind at 1 in H; unfold get_self at 1 in H; cbn [fst snd] in H;
    destruct (is_connected (fst c)) eqn:Ec.
  - inversion H; subst. exact Ec.
  - discriminate.
  - inversion H; subst. exact Ec.
  - destruct (attempts + 1 =? number_retry_connection (fst c));
      [discriminate |].
    ok_inv H. eapply IH, H.
Qed.

Lemma Heartbeat_keeps_connected (env : Env) :
  respects (keeping (fun c : Conf => (is_connected (fst c), threads (fst c))))
    (_CheckLastHeartbeat env).
Proof. unfold _CheckLastHeartbeat. frame. Qed.

(** When [_CheckConnected] returns, the client is connected and no thread
    is registered: every public method starts its work in this state. *)
Theorem CheckConnected_returns_connected_and_idle (env : Env) (fuel : nat)
  (c c' : Conf) :
  _CheckConnected env fuel c = (Ok tt, c') ->
  is_connected (fst c') = true /\ threads (fst c') = [].
Proof.
  intros H. split; [| eapply CheckConnected_ok_threads, H].
  unfold _CheckConnected in H. cbv zeta in H.
  apply bind_ok in H. destruct H as (o & c0 & E0 & H).
  inversion E0; subst o c0. clear E0.
  apply bind_ok in H. destruct H as (u1 & c1 & E1 & H).
  apply bind_ok in H. destruct H as (u2 & c2 & E2 & H).
  apply Heartbeat_keeps_connected in E2. simpl in E2.
  inversion E2 as [[Ec Et]].
  assert (Hsame : fst c' = fst c2).
  { refine ((_ : respects (keeping (@fst OneDrive (list event)))
                   _CheckRequestsCompleted) _ _ _ H).
    unfold _CheckRequestsCompleted. frame. }
  rewrite Hsame, Ec.
  destruct (is_connected (fst c)) eqn:Econn; cbn [negb] in E1.
  - inversion E1; subst. exact Econn.
  - destruct u1. eapply connect_loop_ok_connected, E1.
Qed.

Lemma CheckConnected_returns_connected_and_idle_witness :
  is_connected
    (fst (snd (_CheckConnected (auth_world (token_pair "A2" "R2") 1000) 5
                 (set_is_connected false sample_client, []))))
  = true
  /\ threads
       (fst (snd (_CheckConnected (auth_world (token_pair "A2" "R2") 1000) 5
                    (set_is_connected false sample_client, []))))
     = [].
Proof.
  apply (CheckConnected_returns_connected_and_idle
           (auth_world (token_pair "A2" "R2") 1000) 5
           (set_is_connected false sample_client, [])).
  reflexivity.
Defined.

Lemma Heartbeat_keeps_probes (env : Env) (o : OneDrive) :
  respects (keeping (fun c : Conf => probes o (snd c)))
    (_CheckLastHeartbeat env).
Proof. unfold _CheckLastHeartbeat. frame. Qed.

(** Whatever the outcome, a connection check sends fewer probes than
    [number_retry_connection]: at most [number_retry_connection - 1]. *)
Theorem CheckConnected_probes_at_most (env : Env) (fuel : nat) (o : OneDrive)
  (h : History) :
  1 <= number_retry_connection o ->
  (probes o (snd (snd (_CheckConnected env fuel (o, h))))
   <= probes o h + Z.to_nat (number_retry_connection o - 1))%nat.
Proof.
  intros HN.
  destruct (_CheckConnected env fuel (o, h)) as [r c'] eqn:Hrun. cbn [snd].
  unfold _CheckConnected in Hrun. cbv zeta in Hrun.
  unfold bind at 1 in Hrun. unfold get_self at 1 in Hrun. cbn [fst snd] in Hrun.
  assert (Hloop :
            forall r1 c1,
              (if negb (is_connected o) then connect_loop env fuel 0
               else ret tt) (o, h) = (r1, c1) ->
              (probes o (snd c1)
               <= probes o h + Z.to_nat (number_retry_connection o - 1))%nat).
  { intros r1 c1 E. destruct (negb (is_connected o)).
    - pose proof (connect_loop_probes env o fuel 0 (o, h) eq_refl
                    ltac:(lia)) as Hb.
      rewrite E in Hb. cbn [snd] in Hb.
      replace (number_retry_connection o - 1 - 0)
        with (number_retry_connection o - 1) in Hb by lia.
      exact Hb.
    - inversion E; subst. cbn [snd]. lia. }
  apply bind_inv in Hrun.
  destruct Hrun as [(u1 & c1 & E1 & Hrest) | [(e & E1 & _) | (E1 & _)]];
    try (eapply Hloop, E1).
  specialize (Hloop _ _ E1).
  assert (Hkeep : probes o (snd c') = probes o (snd c1)).
  { refine ((_ : respects (keeping (fun c : Conf => probes o (snd c))) _)
              _ _ _ Hrest).
    apply respects_bind; [apply Heartbeat_keeps_probes |].
    intros _. unfold _CheckRequestsCompleted. frame. }
  rewrite Hkeep. exact Hloop.
Qed.

Lemma CheckConnected_probes_at_most_witness :
  1 <= number_retry_connection retrying_client
  /\ (probes retrying_client
        (snd (snd (_CheckConnected (world drive_refusing_probes 1000) 9
                     (retrying_client, []))))
      <= probes retrying_client []
         + Z.to_nat (number_retry_connection retrying_client - 1))%nat.
Proof.
  split; [vm_compute; discriminate |].
  apply (CheckConnected_probes_at_most (world drive_refusing_probes 1000) 9
           retrying_client []).
  vm_compute; discriminate.
Defined.

(** A connected client whose token is not stale and whose registry is
    empty only reads the clock: the check sends nothing and changes
    nothing. *)
Theorem CheckConnected_is_idle_when_fresh (env : Env) (fuel : nat)
  (o : OneDrive) (h : History) :
  is_connected o = true ->
  threads o = [] ->
  clock env h - last_updated o <= refresh_interval o ->
  _CheckConnected env fuel (o, h) = (Ok tt, (o, EvClock :: h)).
Proof.
  intros Hc Ht Hfresh. unfold _CheckConnected. cbv zeta.
  unfold bind at 1. unfold get_self at 1. cbn [fst snd]. rewrite Hc.
  cbn [negb]. unfold bind at 1. unfold ret at 1.
  unfold bind at 1. rewrite Heartbeat_run.
  replace (clock env h - last_updated o >? refresh_interval o) with false
    by (symmetry; rewrite Z.gtb_ltb; apply Z.ltb_ge; lia).
  unfold _CheckRequestsCompleted, bind, get_self. cbn [fst snd].
  now rewrite Ht.
Qed.

Lemma CheckConnected_is_idle_when_fresh_witness :
  _CheckConnected (world drive_five_files 4000) 5 (sample_client, [])
  = (Ok tt, (sample_client, [EvClock])).
Proof.
  apply (CheckConnected_is_idle_when_fresh (world drive_five_files 4000) 5
           sample_client []); [reflexivity | reflexivity | simpl; lia].
Defined.

(** ** The decorator *)

Lemma str_saved (e : exn) : str (saved e) <> EmptyString.
Proof.
  unfold saved. destruct (String.eqb_spec (str e) EmptyString) as [E | E];
    [discriminate | exact E].
Qed.

(** A decorated method never raises an exception whose message is empty;
    it returns what the method returns, leaves the configuration the method
    leaves, and decorating twice is decorating once. *)
Theorem SaveRequest_never_raises_empty_message {A : Type} (m : M A) (c : Conf) :
  (forall e c', _SaveRequest m c = (Raise e, c') -> str e <> EmptyString)
  /\ (forall a c', m c = (Ok a, c') -> _SaveRequest m c = (Ok a, c'))
  /\ (forall e c',
        m c = (Raise e, c') -> str e <> EmptyString ->
        _SaveRequest m c = (Raise e, c'))
  /\ (forall e c',
        m c = (Raise e, c') -> str e = EmptyString ->
        _SaveRequest m c
        = (Raise (Exception "Unknown exception. Check internet connection"), c'))
  /\ snd (_SaveRequest m c) = snd (m c)
  /\ _SaveRequest (_SaveRequest m) c = _SaveRequest m c.
Proof.
  repeat split.
  - intros e c'. rewrite SaveRequest_run.
    destruct (m c) as [[a | e0 |] c0]; try discriminate.
    intros H. inversion H. apply str_saved.
  - intros a c' E. now rewrite SaveRequest_run, E.
  - intros e c' E Hne. rewrite SaveRequest_run, E. unfold saved.
    apply String.eqb_neq in Hne. now rewrite Hne.
  - intros e c' E He. rewrite SaveRequest_run, E. unfold saved.
    now rewrite He.
  - rewrite SaveRequest_run. now destruct (m c) as [[a | e |] c0].
  - rewrite (SaveRequest_run (_SaveRequest m)), SaveRequest_run.
    destruct (m c) as [[a | e |] c0]; try reflexivity.
    now rewrite saved_saved.
Qed.

Lemma SaveRequest_never_raises_empty_message_witness :
  _SaveRequest (raise (A := unit) (Exception EmptyString)) (sample_client, [])
  = (Raise (Exception "Unknown exception. Check internet connection"),
     (sample_client, [])).
Proof.
  exact (proj1 (proj2 (proj2 (proj2
           (SaveRequest_never_raises_empty_message
              (raise (A := unit) (Exception EmptyString)) (sample_client, []))))) 
           (Exception EmptyString) (sample_client, []) eq_refl eq_refl).
Defined.

(** ** Settings that are accepted *)

Lemma SetsAndChecks_sets (parameters : list (string * pyval)) (var : string)
  (t : pytype) (m : member) (c : Conf) :
  well_set parameters (var, t) = true ->
  _SetsAndChecksVariable parameters var t m c
  = (Ok tt, (setattr m (setting parameters var) (fst c), snd c)).
Proof.
  unfold well_set, setting. cbn [fst snd]. rewrite SetsAndChecks_run.
  destruct (dict_get var parameters) as [v |]; [| discriminate].
  now intros ->.
Qed.

Lemma SetsAndChecksWithDefault_sets (parameters : list (string * pyval))
  (var : string) (d : pyval) (t : pytype) (m : member) (c : Conf) :
  _SetsAndChecksVariableWithDefaultValue parameters var d t m c
  = (Ok tt, (setattr m (setting_or parameters var t d) (fst c), snd c)).
Proof.
  unfold _SetsAndChecksVariableWithDefaultValue, try_except, setting_or.
  destruct (well_set parameters (var, t)) eqn:W.
  - now rewrite SetsAndChecks_sets.
  - unfold well_set in W. cbn [fst snd] in W. rewrite SetsAndChecks_run.
    destruct (dict_get var parameters) as [v |]; [rewrite W |]; reflexivity.
Qed.

Lemma set_scope_same (o : OneDrive) : set_scope (scope o) o = o.
Proof. now destruct o. Qed.

Lemma strings_of_cons (p : pyval) (l : list pyval) (names : list string) :
  strings_of (p :: l) = Some names ->
  exists s names', p = PStr s /\ strings_of l = Some names'
                   /\ names = s :: names'.
Proof.
  destruct p; try discriminate. cbn [strings_of].
  destruct (strings_of l) as [names' |]; [| discriminate].
  intros H. inversion H. now exists s, names'.
Qed.

(** The loop over the permissions appends them, joined by [+]. *)
Lemma scope_loop_joins (perms : list pyval) :
  forall (names : list string) (o : OneDrive) (h : History),
    strings_of perms = Some names ->
    scope_loop perms (o, h)
    = (Ok tt, (set_scope (scope o +s String.concat "+" names) o, h)).
Proof.
  induction perms as [|p perms IH]; intros names o h Hs.
  - inversion Hs; subst. cbn [scope_loop String.concat].
    now rewrite append_empty_r, set_scope_same.
  - destruct (strings_of_cons _ _ _ Hs) as (s & names' & -> & Hs' & ->).
    cbn [scope_loop]. unfold bind at 1. unfold get_self at 1. cbn [fst snd].
    unfold bind at 1. cbn [concat_str lift ret].
    unfold bind at 1. unfold modify at 1. cbn [fst snd].
    destruct perms as [|p2 perms].
    + inversion Hs'; subst. reflexivity.
    + unfold bind at 1. unfold modify at 1. cbn [fst snd].
      rewrite (IH names' _ h Hs').
      destruct (strings_of_cons _ _ _ Hs') as (s2 & names2 & _ & _ & ->).
      cbn [String.concat]. f_equal. f_equal.
      destruct o. cbn. now rewrite !append_assoc.
Qed.

(** With the seven required settings present and well typed and a list of
    strings as permissions, [_SetParameters] returns: the member variables
    hold the settings, [refresh_interval] and [number_retry_connection]
    hold theirs or the defaults 3600 and 50, [scope] is the permissions
    joined by [+], and nothing else is touched -- the history, the token,
    the headers, the log, the registry and the connection flag are as
    before. *)
Theorem SetParameters_accepts (parameters : list (string * pyval))
  (names : list string) (o : OneDrive) (h : History) :
  (forall s, In s required_settings -> well_set parameters s = true) ->
  strings_of (list_of (setting parameters "permissions")) = Some names ->
  exists o',
    _SetParameters parameters (o, h) = (Ok tt, (o', h))
    /\ max_threads o' = int_of (setting parameters "max_threads")
    /\ refresh_token o' = setting parameters "refresh_token"
    /\ url o' = str_of (setting parameters "browse_url")
    /\ auth_url o' = str_of (setting parameters "auth_url")
    /\ client_id o' = str_of (setting parameters "client_id")
    /\ permissions o' = list_of (setting parameters "permissions")
    /\ redirect_uri o' = str_of (setting parameters "redirect_uri")
    /\ refresh_interval o'
       = int_of (setting_or parameters "refresh_interval" TInt (PInt 3600))
    /\ number_retry_connection o'
       = int_of (setting_or parameters "number_retry_connection" TInt (PInt 50))
    /\ scope o' = String.concat "+" names
    /\ token o' = token o /\ headers o' = headers o
    /\ last_updated o' = last_updated o /\ errors o' = errors o
    /\ threads o' = threads o /\ is_connected o' = is_connected o.
Proof.
  intros Hreq Hperm.
  assert (W : forall var t, In (var, t) required_settings ->
                            well_set parameters (var, t) = true)
    by (intros var t Hin; apply Hreq, Hin).
  unfold _SetParameters, try_except.
  rewrite (bind_run _ _ _ _ _
             (SetsAndChecks_sets parameters "max_threads" TInt m_max_threads
                (o, h) (W "max_threads" TInt ltac:(simpl; auto 10)))).
  cbn [fst snd].
  rewrite (bind_run _ _ _ _ _
             (SetsAndChecks_sets parameters "refresh_token" TStr m_refresh_token
                _ (W "refresh_token" TStr ltac:(simpl; auto 10)))).
  cbn [fst snd].
  rewrite (bind_run _ _ _ _ _
             (SetsAndChecks_sets parameters "browse_url" TStr m_url
                _ (W "browse_url" TStr ltac:(simpl; auto 10)))).
  cbn [fst snd].
  rewrite (bind_run _ _ _ _ _
             (SetsAndChecks_sets parameters "auth_url" TStr m_auth_url
                _ (W "auth_url" TStr ltac:(simpl; auto 10)))).
  cbn [fst snd].
  rewrite (bind_run _ _ _ _ _
             (SetsAndChecks_sets parameters "client_id" TStr m_client_id
                _ (W "client_id" TStr ltac:(simpl; auto 10)))).
  cbn [fst snd].
  rewrite (bind_run _ _ _ _ _
             (SetsAndChecks_sets parameters "permissions" TList m_permissions
                _ (W "permissions" TList ltac:(simpl; auto 10)))).
  cbn [fst snd].
  rewrite (bind_run _ _ _ _ _
             (SetsAndChecks_sets parameters "redirect_uri" TStr m_redirect_uri
                _ (W "redirect_uri" TStr ltac:(simpl; auto 10)))).
  cbn [fst snd].
  rewrite (bind_run _ _ _ _ _
             (SetsAndChecksWithDefault_sets parameters "refresh_interval"
                (PInt 3600) TInt m_refresh_interval _)).
  cbn [fst snd].
  rewrite (bind_run _ _ _ _ _
             (SetsAndChecksWithDefault_sets parameters
                "number_retry_connection" (PInt 50) TInt
                m_number_retry_connection _)).
  cbn [fst snd].
  unfold bind at 1. unfold modify at 1. cbn [fst snd].
  unfold bind at 1. unfold get_self at 1. cbn [fst snd].
  cbn [setattr].
  match goal with
  | |- context [scope_loop ?perms (?o1, h)] =>
      change perms with (list_of (setting parameters "permissions"));
      rewrite (scope_loop_joins _ names o1 h Hperm)
  end.
  eexists. split; [reflexivity |]. cbn. repeat split; reflexivity.
Qed.

Lemma SetParameters_accepts_witness :
  exists o',
    _SetParameters sample_settings (new_OneDrive, []) = (Ok tt, (o', []))
    /\ scope o' = "a+b" /\ refresh_interval o' = 3600
    /\ number_retry_connection o' = 50 /\ max_threads o' = 2.
Proof.
  destruct (SetParameters_accepts sample_settings ["a"; "b"] new_OneDrive [])
    as (o' & Hrun & Hm & _ & _ & _ & _ & _ & _ & Hi & Hn & Hs & _).
  - intros s Hin. simpl in Hin.
    repeat (destruct Hin as [<- | Hin]; [reflexivity |]). destruct Hin.
  - reflexivity.
  - exists o'. repeat split; assumption.
Defined.

(** ** What [_CheckError] makes of a parsed answer *)

Lemma check_keys_without_error (keys : list string) (response : pyval)
  (b : bool) (text : string) :
  filter (str_in "error") keys = [] ->
  check_keys keys response b text = inr (b, text).
Proof.
  induction keys as [|k keys IH]; intros H; [reflexivity |].
  cbn [filter] in H. cbn [check_keys].
  destruct (str_in "error" k); [discriminate | apply IH, H].
Qed.

Lemma check_keys_missing_error (keys : list string) (response : pyval)
  (b : bool) (text : string) (e : exn) :
  filter (str_in "error") keys <> [] ->
  getitem response "error" = inl e ->
  check_keys keys response b text = inl e.
Proof.
  intros Hne He. induction keys as [|k keys IH]; [now elim Hne |].
  cbn [filter] in Hne. cbn [check_keys].
  destruct (str_in "error" k); [now rewrite He | apply IH, Hne].
Qed.

Lemma check_keys_with_code (keys : list string) (response err : pyval)
  (code : string) :
  getitem response "error" = inr err ->
  getitem err "code" = inr (PStr code) ->
  forall (b : bool) (text : string),
    check_keys keys response b text
    = inr (b || negb (Nat.eqb (List.length (filter (str_in "error") keys)) 0),
           text +s repeat_string (" (Code: " +s code +s ")")
                     (List.length (filter (str_in "error") keys))).
Proof.
  intros He Hc. induction keys as [|k keys IH]; intros b text.
  - cbn. now rewrite orb_false_r, append_empty_r.
  - cbn [check_keys filter]. destruct (str_in "error" k).
    + rewrite He, Hc. cbn [concat_str]. rewrite IH.
      cbn [List.length Nat.eqb negb repeat_string]. rewrite orb_true_r.
      f_equal. f_equal. cbn [orb]. now rewrite !append_assoc.
    + apply IH.
Qed.

(** [_CheckError] on a parsed JSON object.  Without a key that contains
    [error] it returns [False] and records nothing.  With such a key but
    without the key [error] itself it raises [KeyError] and records
    nothing.  With the key [error] holding an object whose [code] is a
    string it returns [True] and records one message: the text followed by
    the code, once for every key that contains [error]. *)
Theorem CheckError_on_a_dict (text : string) (d : list (string * pyval))
  (c : Conf) :
  (error_keys d = [] ->
   _CheckError text (IsValue (PDict d)) c = (Ok false, c))
  /\ (error_keys d <> [] -> dict_get "error" d = None ->
      _CheckError text (IsValue (PDict d)) c = (Raise (KeyError "error"), c))
  /\ (forall err code,
        error_keys d <> [] ->
        dict_get "error" d = Some err ->
        getitem err "code" = inr (PStr code) ->
        _CheckError text (IsValue (PDict d)) c
        = (Ok true,
           (set_errors
              (errors (fst c)
               ++ [text +s repeat_string (" (Code: " +s code +s ")")
                             (List.length (error_keys d))])
              (fst c),
            snd c))).
Proof.
  unfold error_keys. repeat split.
  - intros H. unfold _CheckError, bind.
    rewrite (check_keys_without_error _ _ _ _ H). reflexivity.
  - intros Hne Hmiss. unfold _CheckError, bind.
    rewrite (check_keys_missing_error _ (PDict d) false text (KeyError "error")
               Hne (getitem_missing d "error" Hmiss)).
    reflexivity.
  - intros err code Hne Herr Hcode. unfold _CheckError, bind.
    rewrite (check_keys_with_code _ (PDict d) err code
               (getitem_present d "error" err Herr) Hcode).
    destruct (filter (str_in "error") (dict_keys d)) as [|k ks];
      [congruence |].
    reflexivity.
Qed.

Lemma CheckError_on_a_dict_witness :
  _CheckError "Could not move file src"
    (IsValue (PDict [("error_description", PStr "no such item")]))
    (sample_client, [])
  = (Raise (KeyError "error"), (sample_client, [])).
Proof.
  refine (proj1 (proj2 (CheckError_on_a_dict "Could not move file src"
                          [("error_description", PStr "no such item")]
                          (sample_client, []))) _ eq_refl).
  discriminate.
Defined.

(** ** The error log between calls *)

Lemma FetchErrors_clears (prefix : string) : clears (_FetchErrors prefix).
Proof.
  intros [o h] r c' H. destruct (errors o) as [|m ms] eqn:E.
  - rewrite FetchErrors_empty in H by exact E. now inversion H; subst.
  - rewrite FetchErrors_nonempty in H by (rewrite E; discriminate).
    now inversion H; subst.
Qed.

Lemma clears_log_clean {A : Type} (m : M A) : clears m -> log_clean m.
Proof. intros Hm c r c' _ H. eapply Hm, H. Qed.

Lemma log_clean_frame {A : Type} (m : M A) :
  respects (keeping errors_of) m -> log_clean m.
Proof.
  intros Hm c r c' Hc H. specialize (Hm _ _ _ H). unfold errors_of in Hm.
  simpl in Hm. congruence.
Qed.

Lemma log_clean_bind {A B : Type} (m : M A) (f : A -> M B) :
  log_clean m -> (forall a, log_clean (f a)) -> log_clean (bind m f).
Proof.
  intros Hm Hf c r c' Hc H. apply bind_inv in H.
  destruct H as [(a & c1 & E1 & E2) | [(e & E1 & _) | (E1 & _)]].
  - eapply Hf; [eapply Hm; eassumption | exact E2].
  - eapply Hm; eassumption.
  - eapply Hm; eassumption.
Qed.

Lemma clears_bind {A B : Type} (m : M A) (f : A -> M B) :
  clears m -> (forall a, log_clean (f a)) -> clears (bind m f).
Proof.
  intros Hm Hf c r c' H. apply bind_inv in H.
  destruct H as [(a & c1 & E1 & E2) | [(e & E1 & _) | (E1 & _)]].
  - eapply Hf; [eapply Hm, E1 | exact E2].
  - eapply Hm, E1.
  - eapply Hm, E1.
Qed.

Lemma log_clean_SaveRequest {A : Type} (m : M A) :
  log_clean m -> log_clean (_SaveRequest m).
Proof.
  intros Hm c r c' Hc H. rewrite SaveRequest_run in H.
  destruct (m c) as [[a | e |] c1] eqn:E; inversion H; subst;
    eapply Hm; eassumption.
Qed.

(** A check followed by a computation that clears the log. *)
Lemma log_clean_check_then {B : Type} (text : string) (r : checked)
  (k : bool -> M B) :
  (forall b, clears (k b)) -> log_clean (bind (_CheckError text r) k).
Proof.
  intros Hk c res c' Hc H. apply bind_inv in H.
  destruct H as [(a & c1 & E1 & E2) | [(e & E1 & _) | (E1 & _)]].
  - eapply Hk, E2.
  - apply CheckError_not_true in E1; [subst; exact Hc | discriminate].
  - apply CheckError_not_true in E1; [subst; exact Hc | discriminate].
Qed.

Lemma clears_after_join {B : Type} (env : Env) (k : unit -> M B) :
  (forall u, clears (k u)) -> clears (bind (_JoinThreads env) k).
Proof.
  intros Hk c r c' H. rewrite (bind_run _ _ _ _ _ (JoinThreads_run env c)) in H.
  eapply Hk, H.
Qed.

Lemma connect_loop_keeps_errors (env : Env) (n : nat) (attempts : Z) :
  respects (keeping errors_of) (connect_loop env n attempts).
Proof.
  revert attempts. induction n as [|n IH]; intros attempts;
    cbn [connect_loop]; frame. apply IH.
Qed.

Lemma CheckConnected_log_clean (env : Env) (fuel : nat) :
  log_clean (_CheckConnected env fuel).
Proof.
  apply log_clean_frame. unfold _CheckConnected. frame.
  apply connect_loop_keeps_errors.
Qed.

(** A loop body that returns at every index of the list and leaves the log
    as it is: the [for] loop returns, and no thread is left unjoined. *)
Lemma launch_batch_in_range (body : Z -> M unit) (len : Z) :
  (forall i c, 0 <= i < len ->
               exists c', body i c = (Ok tt, c')
                          /\ errors (fst c') = errors (fst c)) ->
  forall (k : nat) (i : Z) (c : Conf),
    Z.of_nat k <= i <= len ->
    exists c',
      launch_batch body k i c = (Ok (i - Z.of_nat k), c')
      /\ errors (fst c') = errors (fst c).
Proof.
  intros Hbody. induction k as [|k IH]; intros i c Hi; cbn [launch_batch].
  - exists c. split; [| reflexivity]. unfold ret. do 2 f_equal. lia.
  - destruct (Hbody (i - 1) c) as (c1 & E1 & H1); [lia |].
    rewrite (bind_run _ _ _ _ _ E1).
    destruct (IH (i - 1) c1) as (c2 & E2 & H2); [lia |].
    exists c2. rewrite E2. split; [do 2 f_equal; lia | congruence].
Qed.

Lemma batch_loop_log_clean (env : Env) (body : Z -> M unit) (prefix : string)
  (len : Z) :
  (forall i c, 0 <= i < len ->
               exists c', body i c = (Ok tt, c')
                          /\ errors (fst c') = errors (fst c)) ->
  forall n i, 0 <= i <= len -> log_clean (batch_loop env body prefix n i).
Proof.
  intros Hbody. induction n as [|n IH]; intros i Hi; cbn [batch_loop].
  - destruct (i >? 0); apply log_clean_frame; frame.
  - destruct (i >? 0) eqn:Epos; [| apply log_clean_frame; frame].
    apply Z.gtb_lt in Epos. intros c r c' Hc H.
    unfold bind at 1 in H. unfold get_self at 1 in H. cbn [fst snd] in H.
    assert (Hk : Z.of_nat (Z.to_nat (number_threads (fst c) i)) <= i <= len).
    { unfold number_threads.
      destruct (Z.ltb_spec i (max_threads (fst c))); lia. }
    destruct (launch_batch_in_range body len Hbody _ i c Hk)
      as (c1 & E1 & H1).
    rewrite (bind_run _ _ _ _ _ (unjoined_run env _ _ _ _ E1)) in H.
    refine (clears_log_clean _ _ c1 r c' _ H); [| congruence].
    apply clears_after_join. intros _.
    apply clears_bind; [apply FetchErrors_clears |]. intros _.
    apply IH. lia.
Qed.

Lemma move_loop_log_clean (env : Env) (keys : list pyval)
  (files_ids : Dict) (dest : pyval) (src name : string) :
  log_clean (move_loop env keys files_ids dest src name).
Proof.
  induction keys as [|k keys IH]; cbn [move_loop].
  - apply log_clean_frame. frame.
  - destruct (key_eqb k (PStr name)); [| exact IH].
    apply log_clean_bind; [apply log_clean_frame; frame |]. intros file_id.
    apply log_clean_bind; [apply log_clean_frame; frame |]. intros o.
    apply log_clean_bind; [apply log_clean_frame; frame |]. intros url.
    cbv zeta.
    apply log_clean_bind; [apply log_clean_frame; frame |]. intros r.
    apply log_clean_bind; [apply log_clean_frame; frame |]. intros response.
    apply log_clean_check_then. intros _. apply FetchErrors_clears.
Qed.

Lemma FetchFolderID_log_clean (env : Env) (fuel : nat) (p : string) :
  log_clean (_FetchFolderID env fuel p).
Proof.
  unfold _FetchFolderID. apply log_clean_SaveRequest.
  apply log_clean_bind; [apply CheckConnected_log_clean |]. intros _.
  cbv zeta.
  apply log_clean_bind; [apply log_clean_frame; frame |]. intros o.
  apply log_clean_bind; [apply log_clean_frame; frame |]. intros r.
  apply log_clean_bind; [apply log_clean_frame; frame |]. intros response.
  apply log_clean_check_then. intros _.
  apply clears_bind; [apply FetchErrors_clears |]. intros _.
  apply log_clean_frame. frame.
Qed.

Lemma FetchAllFiles_log_clean (env : Env) (fuel : nat) (p : string) :
  log_clean (FetchAllFiles env fuel p).
Proof.
  unfold FetchAllFiles. apply log_clean_SaveRequest.
  apply log_clean_bind; [apply CheckConnected_log_clean |]. intros _.
  cbv zeta.
  apply log_clean_bind; [apply log_clean_frame; frame |]. intros o.
  apply log_clean_bind; [apply log_clean_frame; frame |]. intros r.
  apply log_clean_bind; [apply log_clean_frame; frame |]. intros response.
  apply log_clean_check_then. intros _.
  apply clears_bind; [apply FetchErrors_clears |]. intros _.
  apply log_clean_frame. frame.
Qed.

Lemma MakeDir_log_clean (env : Env) (fuel : nat) (p name : string) :
  log_clean (MakeDir env fuel p name).
Proof.
  unfold MakeDir. apply log_clean_SaveRequest.
  apply log_clean_bind; [apply CheckConnected_log_clean |]. intros _.
  cbv zeta.
  apply log_clean_bind; [apply log_clean_frame; frame |]. intros o.
  apply log_clean_bind; [apply log_clean_frame; frame |]. intros r.
  apply log_clean_bind; [apply log_clean_frame; frame |]. intros response.
  apply log_clean_check_then. intros _. apply FetchErrors_clears.
Qed.

Lemma MoveFile_log_clean (env : Env) (fuel : nat) (dest src name : string) :
  log_clean (MoveFile env fuel dest src name).
Proof.
  unfold MoveFile. apply log_clean_SaveRequest.
  apply log_clean_bind; [apply CheckConnected_log_clean |]. intros _.
  cbv zeta.
  apply log_clean_bind; [apply FetchAllFiles_log_clean |]. intros listing.
  apply log_clean_bind; [apply FetchFolderID_log_clean |]. intros dest_id.
  apply move_loop_log_clean.
Qed.

Lemma MoveAllFiles_log_clean (env : Env) (fuel : nat) (dest src : string) :
  log_clean (MoveAllFiles env fuel dest src).
Proof.
  unfold MoveAllFiles. apply log_clean_SaveRequest.
  apply log_clean_bind; [apply CheckConnected_log_clean |]. intros _.
  cbv zeta.
  apply log_clean_bind; [apply FetchFolderID_log_clean |]. intros src_id.
  apply log_clean_bind; [apply FetchFolderID_log_clean |]. intros dest_id.
  apply log_clean_bind; [apply log_clean_frame; frame |]. intros o.
  apply log_clean_bind; [apply log_clean_frame; frame |]. intros target.
  apply log_clean_bind; [apply log_clean_frame; frame |]. intros r.
  apply log_clean_bind; [apply log_clean_frame; frame |]. intros response.
  apply log_clean_check_then. intros _. apply FetchErrors_clears.
Qed.

Lemma upload_item_in_range (filenames : list string)
  (url_pre path_onedrive url_post : string) (log : bool) (i : Z) (c : Conf) :
  0 <= i < Z.of_nat (List.length filenames) ->
  exists c',
    upload_item filenames url_pre path_onedrive url_post log i c = (Ok tt, c')
    /\ errors (fst c') = errors (fst c).
Proof.
  intros Hi. destruct (nth_error filenames (Z.to_nat i)) as [f |] eqn:Ef.
  2:{ apply nth_error_None in Ef. lia. }
  pose proof (py_index_nat _ _ _ Ef) as Hp. rewrite Z2Nat.id in Hp by lia.
  unfold upload_item, list_item. rewrite Hp. unfold bind at 1.
  unfold ret at 1.
  unfold bind, get_self. cbn [fst snd]. rewrite start_thread_run.
  eexists. split; [reflexivity |]. cbn [fst]. now destruct (fst c).
Qed.

Lemma Upload_log_clean (env : Env) (fuel : nat) (filenames : list string)
  (p : string) (log : bool) :
  log_clean (Upload env fuel filenames p log).
Proof.
  unfold Upload. apply log_clean_SaveRequest.
  apply log_clean_bind; [apply CheckConnected_log_clean |]. intros _.
  apply log_clean_bind; [apply log_clean_frame; unfold upload_path; frame |].
  intros p'.
  apply log_clean_bind; [apply log_clean_frame; frame |]. intros o. cbv zeta.
  apply (batch_loop_log_clean env _ _ (Z.of_nat (List.length filenames)));
    [| lia].
  intros i c Hi. now apply upload_item_in_range.
Qed.

(** A method entered with the error log and the thread registry empty
    leaves the log empty, whether it returns, raises or goes on for ever:
    what one call recorded never shows up in the message of the next.  This
    holds of the methods that send one request and of [Upload], whose
    threads are all joined before it raises; a [Download] that meets an id
    that is not a string leaves threads unjoined, and these may record
    later. *)
Theorem public_methods_leave_the_log_empty (env : Env) (fuel : nat)
  (c c' : Conf) :
  errors (fst c) = [] ->
  threads (fst c) = [] ->
  (forall p r, FetchAllFiles env fuel p c = (r, c') -> errors (fst c') = [])
  /\ (forall p name r,
        MakeDir env fuel p name c = (r, c') -> errors (fst c') = [])
  /\ (forall dest src name r,
        MoveFile env fuel dest src name c = (r, c') -> errors (fst c') = [])
  /\ (forall dest src r,
        MoveAllFiles env fuel dest src c = (r, c') -> errors (fst c') = [])
  /\ (forall filenames p log r,
        Upload env fuel filenames p log c = (r, c') -> errors (fst c') = []).
Proof.
  intros He _. split; [| split; [| split; [| split]]].
  - intros p r H. exact (FetchAllFiles_log_clean env fuel p c r c' He H).
  - intros p name r H. exact (MakeDir_log_clean env fuel p name c r c' He H).
  - intros dest src name r H.
    exact (MoveFile_log_clean env fuel dest src name c r c' He H).
  - intros dest src r H.
    exact (MoveAllFiles_log_clean env fuel dest src c r c' He H).
  - intros filenames p log r H.
    exact (Upload_log_clean env fuel filenames p log c r c' He H).
Qed.

Lemma public_methods_leave_the_log_empty_witness :
  errors (fst (snd (Upload (world drive_refusing_b 1000) 5
                      ["a.txt"; "b.txt"] "d" true (sample_client, []))))
  = [].
Proof.
  exact (proj2 (proj2 (proj2 (proj2
           (public_methods_leave_the_log_empty
              (world drive_refusing_b 1000) 5 (sample_client, [])
              (snd (Upload (world drive_refusing_b 1000) 5
                      ["a.txt"; "b.txt"] "d" true (sample_client, [])))
              eq_refl eq_refl))))
           ["a.txt"; "b.txt"] "d" true _ (surjective_pairing _)).
Defined.

(** ** Paths *)

Lemma lstrip_first (c : ascii) (s : string) :
  first_char (lstrip c s) <> Some c.
Proof.
  induction s as [|a s IH]; cbn [lstrip]; [discriminate |].
  destruct (Ascii.eqb a c) eqn:E; [exact IH |].
  cbn. intros H. inversion H; subst. now rewrite Ascii.eqb_refl in E.
Qed.

Lemma rstrip_last (c : ascii) (s : string) :
  last_char (rstrip c s) <> Some c.
Proof.
  induction s as [|a s IH]; cbn [rstrip]; [discriminate |].
  destruct (Ascii.eqb a c) eqn:E; cbn [andb].
  - destruct (rstrip c s) as [|b r] eqn:R; cbn [String.eqb];
      [discriminate | exact IH].
  - destruct (rstrip c s) as [|b r] eqn:R; [| exact IH].
    cbn. intros H. inversion H; subst. now rewrite Ascii.eqb_refl in E.
Qed.

Lemma rstrip_first (c : ascii) (s : string) :
  first_char s <> Some c -> first_char (rstrip c s) <> Some c.
Proof.
  destruct s as [|a s]; [easy |]. cbn [first_char rstrip]. intros H.
  destruct (Ascii.eqb a c) eqn:E.
  - apply Ascii.eqb_eq in E. now subst.
  - exact H.
Qed.

Lemma lstrip_same (c : ascii) (s : string) :
  first_char s <> Some c -> lstrip c s = s.
Proof.
  destruct s as [|a s]; [easy |]. cbn [first_char lstrip]. intros H.
  destruct (Ascii.eqb a c) eqn:E; [| reflexivity].
  apply Ascii.eqb_eq in E. now subst.
Qed.

Lemma rstrip_same (c : ascii) (s : string) :
  last_char s <> Some c -> rstrip c s = s.
Proof.
  induction s as [|a s IH]; [easy |]. intros H. cbn [rstrip].
  destruct s as [|b s].
  - cbn [rstrip String.eqb]. rewrite andb_true_r.
    destruct (Ascii.eqb a c) eqn:E; [| reflexivity].
    apply Ascii.eqb_eq in E. now subst.
  - rewrite IH by exact H. cbn [String.eqb]. now rewrite andb_false_r.
Qed.

Lemma lstrip_splits (c : ascii) (s : string) :
  exists n, s = repeat_string (String c EmptyString) n +s lstrip c s.
Proof.
  induction s as [|a s [n IH]]; [now exists O |]. cbn [lstrip].
  destruct (Ascii.eqb a c) eqn:E; [| now exists O].
  apply Ascii.eqb_eq in E. subst a. exists (S n). cbn. now rewrite <- IH.
Qed.

Lemma rstrip_splits (c : ascii) (s : string) :
  exists n, s = rstrip c s +s repeat_string (String c EmptyString) n.
Proof.
  induction s as [|a s [n IH]]; [now exists O |]. cbn [rstrip].
  destruct (Ascii.eqb a c && String.eqb (rstrip c s) EmptyString) eqn:E.
  - apply andb_true_iff in E. destruct E as [Ea Er].
    apply Ascii.eqb_eq in Ea. apply String.eqb_eq in Er. subst a.
    rewrite Er in IH. exists (S n). cbn. now rewrite IH at 1.
  - exists n. cbn. now rewrite <- IH.
Qed.

Lemma strip_slashes_twice (path : string) :
  strip_slashes (strip_slashes path) = strip_slashes path.
Proof.
  unfold strip_slashes.
  rewrite (lstrip_same char_slash (rstrip char_slash (lstrip char_slash path)))
    by apply rstrip_first, lstrip_first.
  apply rstrip_same, rstrip_last.
Qed.

(** The path the methods put into the URL is the argument without its
    leading and its trailing slashes: it neither starts nor ends with a
    slash, stripping it again changes nothing, and the argument is this
    path between a run of slashes and a run of slashes. *)
Theorem strip_slashes_takes_the_outer_slashes (path : string) :
  first_char (strip_slashes path) <> Some char_slash
  /\ last_char (strip_slashes path) <> Some char_slash
  /\ strip_slashes (strip_slashes path) = strip_slashes path
  /\ exists n m,
       path = repeat_string "/" n +s strip_slashes path +s repeat_string "/" m.
Proof.
  unfold strip_slashes.
  assert (Hf : first_char (rstrip char_slash (lstrip char_slash path))
               <> Some char_slash)
    by apply rstrip_first, lstrip_first.
  assert (Hl : last_char (rstrip char_slash (lstrip char_slash path))
               <> Some char_slash)
    by apply rstrip_last.
  repeat split; [exact Hf | exact Hl | apply strip_slashes_twice |].
  destruct (lstrip_splits char_slash path) as [n Hn].
  destruct (rstrip_splits char_slash (lstrip char_slash path)) as [m Hm].
  exists n, m. unfold char_slash in *. rewrite <- Hm. exact Hn.
Qed.

(** A path names the same folder with or without outer slashes: every
    method that takes a OneDrive path runs the same on the stripped
    path. *)
Theorem outer_slashes_of_a_path_are_ignored (env : Env) (fuel : nat)
  (path : string) :
  _FetchFolderID env fuel (strip_slashes path) = _FetchFolderID env fuel path
  /\ FetchAllFiles env fuel (strip_slashes path) = FetchAllFiles env fuel path
  /\ (forall name,
        MakeDir env fuel (strip_slashes path) name = MakeDir env fuel path name)
  /\ (forall other name,
        MoveFile env fuel (strip_slashes path) other name
        = MoveFile env fuel path other name
        /\ MoveFile env fuel other (strip_slashes path) name
           = MoveFile env fuel other path name)
  /\ (forall other,
        MoveAllFiles env fuel (strip_slashes path) other
        = MoveAllFiles env fuel path other
        /\ MoveAllFiles env fuel other (strip_slashes path)
           = MoveAllFiles env fuel other path)
  /\ (forall local file log,
        Download env fuel (strip_slashes path) local file log
        = Download env fuel path local file log).
Proof.
  pose proof (strip_slashes_twice path) as E.
  unfold _FetchFolderID, FetchAllFiles, MakeDir, MoveFile, MoveAllFiles,
    Download.
  cbv zeta. rewrite !E. repeat split; reflexivity.
Qed.

(** ** The path of an upload *)

Lemma lstrip_slash_appended (c : ascii) (s : string) :
  lstrip c (s +s String c EmptyString)
  = lstrip c s
    +s (if String.eqb (lstrip c s) EmptyString then EmptyString
        else String c EmptyString).
Proof.
  induction s as [|a s IH]; cbn [String.append lstrip].
  - now rewrite Ascii.eqb_refl.
  - destruct (Ascii.eqb a c); [exact IH | reflexivity].
Qed.

Lemma rstrip_slash_appended (c : ascii) (s : string) :
  rstrip c (s +s String c EmptyString) = rstrip c s.
Proof.
  induction s as [|a s IH]; cbn [String.append rstrip].
  - now rewrite Ascii.eqb_refl.
  - now rewrite IH.
Qed.

Lemma strip_slashes_appended (s : string) :
  strip_slashes (s +s "/") = strip_slashes s.
Proof.
  unfold strip_slashes. change "/" with (String char_slash EmptyString).
  rewrite lstrip_slash_appended.
  destruct (String.eqb (lstrip char_slash s) EmptyString) eqn:E.
  - now rewrite append_empty_r.
  - apply rstrip_slash_appended.
Qed.

Lemma last_char_appended (s : string) (a : ascii) :
  last_char (s +s String a EmptyString) = Some a.
Proof.
  induction s as [|b s IH]; [reflexivity |]. cbn [String.append last_char].
  rewrite IH. now destruct s.
Qed.

Lemma upload_path_run (path : string) (c : Conf) :
  path <> EmptyString ->
  exists path',
    upload_path path c = (Ok path', c)
    /\ first_char path' = Some char_slash
    /\ last_char path' = Some char_slash
    /\ strip_slashes path' = strip_slashes path.
Proof.
  intros Hne.
  destruct path as [|a rest]; [easy |].
  unfold upload_path, bind. cbn [first_char char_at ret fst snd].
  set (p1 := if negb (Ascii.eqb a char_slash) then "/" +s String a rest
             else String a rest).
  assert (H1 : first_char p1 = Some char_slash
               /\ strip_slashes p1 = strip_slashes (String a rest)
               /\ p1 <> EmptyString).
  { unfold p1. destruct (Ascii.eqb a char_slash) eqn:E; cbn [negb].
    - apply Ascii.eqb_eq in E. subst a. now repeat split.
    - repeat split; discriminate. }
  destruct H1 as (Hf & Hs & Hp). clearbody p1.
  destruct (last_char p1) as [b |] eqn:Hlast.
  - cbn [char_at ret]. eexists. split; [reflexivity |].
    destruct (Ascii.eqb b char_slash) eqn:E; cbn [negb].
    + apply Ascii.eqb_eq in E. subst b. now repeat split.
    + repeat split.
      * destruct p1; [easy | exact Hf].
      * apply last_char_appended.
      * now rewrite strip_slashes_appended.
  - exfalso. clear - Hlast Hp. induction p1 as [|x p1 IH]; [easy |].
    cbn [last_char] in Hlast. destruct p1; [discriminate |].
    apply IH; [discriminate | exact Hlast].
Qed.

(** The two tests of [Upload] on its path.  The empty path is refused with
    the [IndexError] of [path_onedrive[0]].  Any other path comes out
    between slashes -- one is put in front when it does not start with
    one, one behind when it does not end with one -- and still names the
    folder it named. *)
Theorem upload_path_puts_the_path_between_slashes (path : string) (c : Conf) :
  (path = EmptyString ->
   upload_path path c = (Raise (IndexError "string index out of range"), c))
  /\ (path <> EmptyString ->
      exists path',
        upload_path path c = (Ok path', c)
        /\ first_char path' = Some char_slash
        /\ last_char path' = Some char_slash
        /\ strip_slashes path' = strip_slashes path).
Proof.
  split; [now intros -> | apply upload_path_run].
Qed.

Lemma upload_path_puts_the_path_between_slashes_witness :
  exists path',
    upload_path "Test" (sample_client, []) = (Ok path', (sample_client, []))
    /\ first_char path' = Some char_slash
    /\ last_char path' = Some char_slash
    /\ strip_slashes path' = strip_slashes "Test".
Proof.
  apply (proj2 (upload_path_puts_the_path_between_slashes "Test"
                  (sample_client, []))).
  discriminate.
Defined.

(** [Upload] into the root given as the empty path: once the connection
    check has returned, the call raises [IndexError] from the first test of
    the path.  No thread is started and no file is looked at, whatever the
    list of files. *)
Theorem Upload_refuses_the_empty_path (env : Env) (fuel : nat)
  (filenames : list string) (log : bool) (c c1 : Conf) :
  _CheckConnected env fuel c = (Ok tt, c1) ->
  Upload env fuel filenames EmptyString log c
  = (Raise (IndexError "string index out of range"), c1).
Proof.
  intros Hconn. unfold Upload. rewrite SaveRequest_run.
  now rewrite (bind_run _ _ _ _ _ Hconn).
Qed.

Lemma Upload_refuses_the_empty_path_witness :
  _CheckConnected (world drive_five_files 4000) 5 (sample_client, [])
  = (Ok tt, (sample_client, [EvClock]))
  /\ Upload (world drive_five_files 4000) 5 ["a.txt"] EmptyString true
       (sample_client, [])
     = (Raise (IndexError "string index out of range"),
        (sample_client, [EvClock])).
Proof.
  assert (H : _CheckConnected (world drive_five_files 4000) 5
                (sample_client, [])
              = (Ok tt, (sample_client, [EvClock])))
    by reflexivity.
  split; [exact H |].
  exact (Upload_refuses_the_empty_path (world drive_five_files 4000) 5
           ["a.txt"] true (sample_client, []) (sample_client, [EvClock]) H).
Defined.

(** ** What a worker leaves behind *)

(** A worker changes nothing of the object but the error log, and the log
    only when it returns [True]: then it has appended one message, the one
    of its item.  A worker that ends on an exception -- the request could
    not be sent, the local file could not be opened, the answer was not
    JSON -- records nothing. *)
Theorem worker_records_only_when_it_returns_true (env : Env) (w : Worker)
  (c c' : Conf) (r : result bool) :
  worker_body env w c = (r, c') ->
  set_errors [] (fst c') = set_errors [] (fst c)
  /\ (r = Ok true ->
      exists m, errors (fst c') = errors (fst c) ++ [m] /\ message_of w m)
  /\ (r <> Ok true -> errors (fst c') = errors (fst c)).
Proof.
  intros H. repeat split.
  - pose proof (worker_body_beside_errors env w _ _ _ H
                  : beside_errors c' = beside_errors c) as Hb.
    exact (f_equal (fun x => fst (fst x)) Hb).
  - intros ->. destruct (worker_records _ _ _ _ H) as (m & Hc & Hm).
    exists m. split; [| exact Hm]. rewrite Hc. now destruct (fst c).
  - exact (worker_body_silent env w _ _ _ H).
Qed.

Lemma worker_records_only_when_it_returns_true_witness :
  errors (fst (snd (worker_body (world drive_offline 1000) worker_a
                      (sample_client, []))))
  = errors (fst (sample_client, ([] : History))).
Proof.
  refine (proj2 (proj2 (worker_records_only_when_it_returns_true
                          (world drive_offline 1000) worker_a
                          (sample_client, []) _ _
                          (surjective_pairing _))) _).
  vm_compute. discriminate.
Defined.

(** ** The join *)

Lemma run_worker_adds_at_most_one (env : Env) (w : Worker) (c : Conf) :
  exists l,
    errors (fst (snd (run_worker env w c))) = errors (fst c) ++ l
    /\ (List.length l <= 1)%nat.
Proof.
  unfold run_worker, thread_body. cbn [snd].
  destruct (worker_body env w c) as [r c'] eqn:H. cbn [snd].
  destruct r as [[|] | e |].
  - destruct (worker_records _ _ _ _ H) as (m & Hc & _).
    exists [m]. split; [| reflexivity]. rewrite Hc. now destruct (fst c).
  - exists []. rewrite app_nil_r. split; [| cbn; lia].
    apply (worker_body_silent env w _ _ _ H). discriminate.
  - exists []. rewrite app_nil_r. split; [| cbn; lia].
    apply (worker_body_silent env w _ _ _ H). discriminate.
  - exists []. rewrite app_nil_r. split; [| cbn; lia].
    apply (worker_body_silent env w _ _ _ H). discriminate.
Qed.

Lemma run_workers_add_at_most_one_each (env : Env) (ws : list Worker) :
  forall c,
    exists l,
      errors (fst (snd (run_workers env ws c))) = errors (fst c) ++ l
      /\ (List.length l <= List.length ws)%nat.
Proof.
  induction ws as [|w ws IH]; intros c.
  - exists []. cbn. now rewrite app_nil_r.
  - rewrite run_workers_cons.
    destruct (run_worker_adds_at_most_one env w c) as (l1 & H1 & L1).
    destruct (IH (snd (run_worker env w c))) as (l2 & H2 & L2).
    exists (l1 ++ l2). rewrite H2, H1, <- app_assoc. split; [reflexivity |].
    rewrite length_app. cbn [List.length]. lia.
Qed.

Lemma without_threads_and_errors (o o' : OneDrive) :
  set_errors [] o' = set_errors [] o ->
  set_errors [] (set_threads [] o') = set_errors [] (set_threads [] o).
Proof. destruct o, o'. cbn. intros H. now inversion H. Qed.

(** [_JoinThreads] always returns, with the registry empty.  Of the object
    it has changed the registry and the error log only, and the log has
    grown by at most one message for every thread that was registered. *)
Theorem JoinThreads_returns_with_an_empty_registry (env : Env) (c : Conf) :
  fair env ->
  exists (c' : Conf) (l : list string),
    _JoinThreads env c = (Ok tt, c')
    /\ threads (fst c') = []
    /\ errors (fst c') = errors (fst c) ++ l
    /\ (List.length l <= List.length (threads (fst c)))%nat
    /\ set_errors [] (fst c') = set_errors [] (set_threads [] (fst c)).
Proof.
  intros Hfair. rewrite JoinThreads_run. unfold joined.
  set (ws := sched env (snd c) (threads (fst c))).
  destruct (run_workers_add_at_most_one_each env ws c) as (l & Hl & Hlen).
  pose proof (run_workers_beside_errors env ws c _ _ (surjective_pairing _)
                : beside_errors (snd (run_workers env ws c)) = beside_errors c)
    as Hb.
  apply (f_equal (fun x => fst (fst x))) in Hb. cbn [beside_errors fst] in Hb.
  eexists. exists l. split; [reflexivity |]. cbn [fst snd].
  repeat split.
  - exact Hl.
  - unfold ws in Hlen. now rewrite (Permutation_length (Hfair _ _)) in Hlen.
  - apply without_threads_and_errors. exact Hb.
Qed.

Lemma JoinThreads_returns_with_an_empty_registry_witness :
  fair (world drive_refusing_b 1000)
  /\ exists (c' : Conf) (l : list string),
       _JoinThreads (world drive_refusing_b 1000) after_launch = (Ok tt, c')
       /\ threads (fst c') = []
       /\ errors (fst c') = errors (fst after_launch) ++ l
       /\ (List.length l <= List.length (threads (fst after_launch)))%nat
       /\ set_errors [] (fst c')
          = set_errors [] (set_threads [] (fst after_launch)).
Proof.
  assert (Hfair : fair (world drive_refusing_b 1000))
    by (intros h ws; apply Permutation_refl).
  split; [exact Hfair |].
  exact (JoinThreads_returns_with_an_empty_registry
           (world drive_refusing_b 1000) after_launch Hfair).
Defined.

(** ** Moves *)

Section Patches.

Variable env : Env.
Variable fuel : nat.

Lemma patch_before {A B : Type} (m : M A) (f : A -> M B) :
  no_patch m -> (forall a, at_most_one_patch (f a)) ->
  at_most_one_patch (bind m f).
Proof.
  intros Hm Hf c r c' H. apply bind_inv in H.
  destruct H as [(a & c1 & E1 & E2) | [(e & E1 & _) | (E1 & _)]].
  - pose proof (Hm _ _ _ E1 : patches_of c1 = patches_of c) as K.
    pose proof (Hf a _ _ _ E2) as L. unfold patches_of in K. lia.
  - pose proof (Hm _ _ _ E1 : patches_of c' = patches_of c) as K.
    unfold patches_of in K. lia.
  - pose proof (Hm _ _ _ E1 : patches_of c' = patches_of c) as K.
    unfold patches_of in K. lia.
Qed.

Lemma patch_then {A B : Type} (m : M A) (f : A -> M B) :
  at_most_one_patch m -> (forall a, no_patch (f a)) ->
  at_most_one_patch (bind m f).
Proof.
  intros Hm Hf c r c' H. apply bind_inv in H.
  destruct H as [(a & c1 & E1 & E2) | [(e & E1 & _) | (E1 & _)]].
  - pose proof (Hf a _ _ _ E2 : patches_of c' = patches_of c1) as K.
    pose proof (Hm _ _ _ E1) as L. unfold patches_of in K. lia.
  - exact (Hm _ _ _ E1).
  - exact (Hm _ _ _ E1).
Qed.

Lemma patch_none {A : Type} (m : M A) : no_patch m -> at_most_one_patch m.
Proof.
  intros Hm c r c' H.
  pose proof (Hm _ _ _ H : patches_of c' = patches_of c) as K.
  unfold patches_of in K. lia.
Qed.

Lemma patch_SaveRequest {A : Type} (m : M A) :
  at_most_one_patch m -> at_most_one_patch (_SaveRequest m).
Proof.
  intros Hm c r c' H. rewrite SaveRequest_run in H.
  destruct (m c) as [[a | e |] c1] eqn:E; inversion H; subst;
    exact (Hm _ _ _ E).
Qed.

Lemma patch_request (q : request) : at_most_one_patch (requests env q).
Proof.
  intros c r c' H. unfold requests in H.
  assert (c' = (fst c, EvRequest q :: snd c))
    by (destruct (http env (snd c) q); now inversion H).
  subst c'. unfold patches. cbn [snd requests_of filter].
  destruct (is_patch q); cbn [List.length]; lia.
Qed.

Lemma done_before {A B : Type} (m : M A) (f : A -> M B) :
  no_patch m -> (forall a, one_patch_when_done (f a)) ->
  one_patch_when_done (bind m f).
Proof.
  intros Hm Hf c b c' H. apply bind_ok in H.
  destruct H as (a & c1 & E1 & E2).
  rewrite (Hf a _ _ _ E2).
  pose proof (Hm _ _ _ E1 : patches_of c1 = patches_of c) as K.
  unfold patches_of in K. now rewrite K.
Qed.

Lemma done_then {A B : Type} (m : M A) (f : A -> M B) :
  one_patch_when_done m -> (forall a, no_patch (f a)) ->
  one_patch_when_done (bind m f).
Proof.
  intros Hm Hf c b c' H. apply bind_ok in H.
  destruct H as (a & c1 & E1 & E2).
  pose proof (Hf a _ _ _ E2 : patches_of c' = patches_of c1) as K.
  unfold patches_of in K. rewrite K. exact (Hm _ _ _ E1).
Qed.

Lemma done_SaveRequest {A : Type} (m : M A) :
  one_patch_when_done m -> one_patch_when_done (_SaveRequest m).
Proof.
  intros Hm c a c' H. apply (proj1 (SaveRequest_ok m c c' a)) in H.
  exact (Hm _ _ _ H).
Qed.

Lemma done_request (q : request) :
  req_method q = PATCH -> one_patch_when_done (requests env q).
Proof.
  intros Hq c r c' H. unfold requests in H.
  assert (c' = (fst c, EvRequest q :: snd c))
    by (destruct (http env (snd c) q); now inversion H).
  subst c'. unfold patches. cbn [snd requests_of filter].
  unfold is_patch at 1. now rewrite Hq.
Qed.

Lemma connect_loop_no_patch (n : nat) (attempts : Z) :
  no_patch (connect_loop env n attempts).
Proof.
  revert attempts. induction n as [|n IH]; intros attempts;
    cbn [connect_loop]; unfold no_patch; frame. apply IH.
Qed.

Lemma CheckConnected_no_patch : no_patch (_CheckConnected env fuel).
Proof.
  unfold no_patch, _CheckConnected. frame. apply connect_loop_no_patch.
Qed.

Lemma FetchFolderID_no_patch (p : string) : no_patch (_FetchFolderID env fuel p).
Proof.
  unfold no_patch, _FetchFolderID. frame. apply connect_loop_no_patch.
Qed.

Lemma FetchAllFiles_no_patch (p : string) : no_patch (FetchAllFiles env fuel p).
Proof.
  unfold no_patch, FetchAllFiles. frame. apply connect_loop_no_patch.
Qed.

Lemma after_the_patch (text : string) (r : Response) :
  no_patch (response <- json_loads r ;;
            _CheckError text (IsValue response) ;;
            _FetchErrors EmptyString).
Proof. unfold no_patch, _CheckError, _FetchErrors. frame. Qed.

Lemma move_loop_at_most_one (keys : list pyval)
  (files_ids : Dict) (dest : pyval) (src name : string) :
  at_most_one_patch (move_loop env keys files_ids dest src name).
Proof.
  induction keys as [|k keys IH]; cbn [move_loop].
  - apply patch_none. unfold no_patch. frame.
  - destruct (key_eqb k (PStr name)); [| exact IH].
    apply patch_before; [unfold no_patch; frame |]. intros file_id.
    apply patch_before; [unfold no_patch; frame |]. intros o.
    apply patch_before; [unfold no_patch; frame |]. intros url. cbv zeta.
    apply patch_then; [apply patch_request |]. intros r.
    apply after_the_patch.
Qed.

Lemma MoveFile_at_most_one (dest src name : string) :
  at_most_one_patch (MoveFile env fuel dest src name).
Proof.
  unfold MoveFile. apply patch_SaveRequest.
  apply patch_before; [apply CheckConnected_no_patch |]. intros _. cbv zeta.
  apply patch_before; [apply FetchAllFiles_no_patch |]. intros listing.
  apply patch_before; [apply FetchFolderID_no_patch |]. intros dest_id.
  apply move_loop_at_most_one.
Qed.

Lemma MoveAllFiles_at_most_one (dest src : string) :
  at_most_one_patch (MoveAllFiles env fuel dest src).
Proof.
  unfold MoveAllFiles. apply patch_SaveRequest.
  apply patch_before; [apply CheckConnected_no_patch |]. intros _. cbv zeta.
  apply patch_before; [apply FetchFolderID_no_patch |]. intros src_id.
  apply patch_before; [apply FetchFolderID_no_patch |]. intros dest_id.
  apply patch_before; [unfold no_patch; frame |]. intros o.
  apply patch_before; [unfold no_patch; frame |]. intros target.
  apply patch_then; [apply patch_request |]. intros r.
  apply after_the_patch.
Qed.

Lemma MoveAllFiles_one_when_done (dest src : string) :
  one_patch_when_done (MoveAllFiles env fuel dest src).
Proof.
  unfold MoveAllFiles. apply done_SaveRequest.
  apply done_before; [apply CheckConnected_no_patch |]. intros _. cbv zeta.
  apply done_before; [apply FetchFolderID_no_patch |]. intros src_id.
  apply done_before; [apply FetchFolderID_no_patch |]. intros dest_id.
  apply done_before; [unfold no_patch; frame |]. intros o.
  apply done_before; [unfold no_patch; frame |]. intros target.
  apply done_then; [now apply done_request |]. intros r.
  apply after_the_patch.
Qed.

Lemma move_loop_one_when_present (keys : list pyval)
  (files_ids : Dict) (dest : pyval) (src name : string) :
  In (PStr name) keys ->
  one_patch_when_done (move_loop env keys files_ids dest src name).
Proof.
  induction keys as [|k keys IH]; [easy |]. intros Hin. cbn [move_loop].
  destruct (key_eqb k (PStr name)) eqn:E.
  - apply done_before; [unfold no_patch; frame |]. intros file_id.
    apply done_before; [unfold no_patch; frame |]. intros o.
    apply done_before; [unfold no_patch; frame |]. intros url. cbv zeta.
    apply done_then; [now apply done_request |]. intros r.
    apply after_the_patch.
  - apply IH. destruct Hin as [-> | Hin]; [| exact Hin].
    rewrite (proj2 (key_eqb_str _ _) eq_refl) in E. discriminate.
Qed.

End Patches.

(** Whatever its outcome, a call of [MoveFile] or of [MoveAllFiles] sends
    at most one [PATCH] request, and a call of [MoveAllFiles] that returns
    has sent exactly one: the files of a folder are never moved one by
    one. *)
Theorem moves_send_at_most_one_patch (env : Env) (fuel : nat) :
  (forall dest src name, at_most_one_patch (MoveFile env fuel dest src name))
  /\ (forall dest src, at_most_one_patch (MoveAllFiles env fuel dest src))
  /\ (forall dest src, one_patch_when_done (MoveAllFiles env fuel dest src)).
Proof.
  split; [| split].
  - intros dest src name. apply MoveFile_at_most_one.
  - intros dest src. apply MoveAllFiles_at_most_one.
  - intros dest src. apply MoveAllFiles_one_when_done.
Qed.

Lemma moves_send_at_most_one_patch_witness :
  (patches (snd (sample_client, ([] : History)))
   <= patches (snd (snd (MoveFile (world drive_five_files 4000) 5
                           "dst" "src" "f2" (sample_client, []))))
   <= S (patches (snd (sample_client, ([] : History)))))%nat.
Proof.
  exact (proj1 (moves_send_at_most_one_patch (world drive_five_files 4000) 5)
           "dst" "src" "f2" (sample_client, []) _ _ (surjective_pairing _)).
Defined.

Lemma move_loop_moves (env : Env) (keys : list pyval)
  (files_ids : Dict) (dest_id : pyval)
  (src name file_id : string) (c c' : Conf) :
  In (PStr name) keys ->
  pydict_get (PStr name) files_ids = Some (PStr file_id) ->
  move_loop env keys files_ids dest_id src name c = (Ok tt, c') ->
  c' = (fst c,
        EvRequest (mkRequest PATCH (url (fst c) +s "me/drive/items/" +s file_id)
                     (headers (fst c)) (JsonBody (parent_reference dest_id)))
        :: snd c).
Proof.
  intros Hin Hget. induction keys as [|k keys IH]; [easy |].
  cbn [move_loop]. destruct (key_eqb k (PStr name)) eqn:Ek.
  - clear IH Hin. apply key_eqb_str in Ek. subst k.
    unfold lookup. rewrite Hget. intros H.
    apply bind_ok in H. destruct H as (fid & c0 & E0 & H).
    inversion E0; subst fid c0. clear E0.
    apply bind_ok in H. destruct H as (o & c1 & E1 & H).
    inversion E1; subst o c1. clear E1.
    apply bind_ok in H. destruct H as (u & c1 & E1 & H).
    inversion E1; subst u c1. clear E1. cbv zeta in H.
    rewrite append_assoc in H.
    apply bind_ok in H. destruct H as (r & c2 & E2 & H).
    assert (c2 = (fst c,
                  EvRequest
                    (mkRequest PATCH
                       (url (fst c) +s "me/drive/items/" +s file_id)
                       (headers (fst c)) (JsonBody (parent_reference dest_id)))
                  :: snd c)) as ->.
    { unfold requests in E2.
      destruct (http env (snd c) _); now inversion E2. }
    apply bind_ok in H. destruct H as (response & c3 & E3 & H).
    assert (c3 = (fst c,
                  EvRequest
                    (mkRequest PATCH
                       (url (fst c) +s "me/drive/items/" +s file_id)
                       (headers (fst c)) (JsonBody (parent_reference dest_id)))
                  :: snd c)) as ->.
    { unfold json_loads in E3. destruct (text_json r); now inversion E3. }
    apply bind_ok in H. destruct H as (b & c4 & E4 & H).
    apply FetchErrors_ok in H. destruct H as [-> Herr].
    destruct b.
    + apply CheckError_true in E4. destruct E4 as [suffix ->].
      cbn [fst] in Herr. destruct (fst c). cbn in Herr.
      now apply app_eq_nil in Herr.
    + apply CheckError_not_true in E4; [exact E4 | discriminate].
  - apply IH. destruct Hin as [-> | Hin]; [| exact Hin].
    rewrite (proj2 (key_eqb_str _ _) eq_refl) in Ek. discriminate.
Qed.

(** When the connection check, the listing of the source folder and the
    lookup of the destination folder return and the file is among the
    files listed, with a string as its id, a call of [MoveFile] that
    returns has sent one request more: the [PATCH] of the listed id of the
    file, with the id of the destination folder as its new parent. *)
Theorem MoveFile_moves_the_listed_file (env : Env) (fuel : nat)
  (dest src name file_id : string) (c c1 c2 c3 c' : Conf)
  (files folders : Dict) (dest_id : pyval) :
  _CheckConnected env fuel c = (Ok tt, c1) ->
  FetchAllFiles env fuel (strip_slashes src) c1 = (Ok (files, folders), c2) ->
  _FetchFolderID env fuel (strip_slashes dest) c2 = (Ok dest_id, c3) ->
  pydict_get (PStr name) files = Some (PStr file_id) ->
  MoveFile env fuel dest src name c = (Ok tt, c') ->
  c' = (fst c3,
        EvRequest
          (mkRequest PATCH (url (fst c3) +s "me/drive/items/" +s file_id)
             (headers (fst c3)) (JsonBody (parent_reference dest_id)))
        :: snd c3)
  /\ patches (snd c') = S (patches (snd c)).
Proof.
  intros Hconn Hlist Hdest Hget H. unfold MoveFile in H.
  apply (proj1 (SaveRequest_ok _ c c' tt)) in H.
  rewrite (bind_run _ _ _ _ _ Hconn) in H. cbv zeta in H.
  rewrite (bind_run _ _ _ _ _ Hlist) in H. cbn [fst] in H.
  rewrite (bind_run _ _ _ _ _ Hdest) in H.
  assert (Hin : In (PStr name) (pydict_keys files)).
  { destruct (pydict_get_in _ _ _ Hget) as (k' & Hk & Ek).
    apply str_key_eqb in Ek. subst k'.
    apply (in_map fst) in Hk. exact Hk. }
  apply (move_loop_moves _ _ _ _ _ _ _ _ _ Hin Hget) in H. split; [exact H |].
  subst c'. unfold patches. cbn [snd requests_of filter is_patch req_method].
  cbn [List.length]. f_equal.
  pose proof (CheckConnected_no_patch env fuel _ _ _ Hconn
              : patches_of c1 = patches_of c) as K1.
  pose proof (FetchAllFiles_no_patch env fuel _ _ _ _ Hlist
              : patches_of c2 = patches_of c1) as K2.
  pose proof (FetchFolderID_no_patch env fuel _ _ _ _ Hdest
              : patches_of c3 = patches_of c2) as K3.
  unfold patches_of, patches in K1, K2, K3. congruence.
Qed.

Lemma MoveFile_moves_the_listed_file_witness :
  snd (MoveFile (world drive_without_dst 1000) 5 "elsewhere" "src" "a.txt"
         (sample_client, []))
  = (fst (snd (_FetchFolderID (world drive_without_dst 1000) 5 "elsewhere"
                 (snd (FetchAllFiles (world drive_without_dst 1000) 5 "src"
                         (sample_client, [EvClock]))))),
     EvRequest
       (mkRequest PATCH
          (url (fst (snd (_FetchFolderID (world drive_without_dst 1000) 5
                            "elsewhere"
                            (snd (FetchAllFiles (world drive_without_dst 1000)
                                    5 "src" (sample_client, [EvClock]))))))
           +s "me/drive/items/" +s "1")
          (headers
             (fst (snd (_FetchFolderID (world drive_without_dst 1000) 5
                          "elsewhere"
                          (snd (FetchAllFiles (world drive_without_dst 1000)
                                  5 "src" (sample_client, [EvClock])))))))
          (JsonBody (parent_reference (PStr "F"))))
     :: snd (snd (_FetchFolderID (world drive_without_dst 1000) 5 "elsewhere"
                    (snd (FetchAllFiles (world drive_without_dst 1000) 5 "src"
                            (sample_client, [EvClock])))))).
Proof.
  refine (proj1 (MoveFile_moves_the_listed_file (world drive_without_dst 1000)
                   5 "elsewhere" "src" "a.txt" "1" (sample_client, [])
                   (sample_client, [EvClock]) _ _ _
                   [(PStr "a.txt", PStr "1")] []
                   (PStr "F") eq_refl eq_refl eq_refl eq_refl _)).
  vm_compute. reflexivity.
Defined.

(** ** The loop without threads *)

Lemma batch_loop_spins (env : Env) (body : Z -> M unit) (prefix : string) :
  fair env ->
  forall (n : nat) (i : Z) (c : Conf),
    0 < i ->
    max_threads (fst c) <= 0 ->
    threads (fst c) = [] ->
    errors (fst c) = [] ->
    exists c',
      batch_loop env body prefix n i c = (Diverge, c')
      /\ started (snd c') = started (snd c)
      /\ fst c' = fst c.
Proof.
  intros Hfair. induction n as [|n IH]; intros i c Hi Hmax Ht He.
  - cbn [batch_loop].
    replace (i >? 0) with true by (symmetry; apply Z.gtb_lt; lia).
    now exists c.
  - assert (Hnum : Z.to_nat (number_threads (fst c) i) = 0%nat).
    { unfold number_threads.
      destruct (Z.ltb_spec i (max_threads (fst c))); lia. }
    assert (Hlaunch : launch_batch body (Z.to_nat (number_threads (fst c) i))
                        i c = (Ok i, c))
      by (rewrite Hnum; reflexivity).
    rewrite (batch_loop_after_launch env body prefix n i i c c Hi Hlaunch).
    assert (Hjoined : joined env c = (fst c, EvJoin [] :: snd c)).
    { unfold joined. rewrite Ht.
      rewrite (Permutation_nil (Permutation_sym (Hfair (snd c) []))).
      cbn [run_workers ret snd fst]. rewrite <- Ht at 1.
      now rewrite set_threads_same. }
    rewrite Hjoined. cbn [fst snd]. rewrite He.
    destruct (IH i (fst c, EvJoin [] :: snd c) Hi Hmax Ht He)
      as (c' & Hrun & Hs & Ho).
    exists c'. split; [exact Hrun |]. split; [exact Hs | exact Ho].
Qed.

(** With [max_threads] zero or negative -- a setting the constructor
    accepts -- an [Upload] of at least one file never returns: every turn
    of the loop starts no thread, joins nothing and leaves the index where
    it was.  No file is uploaded and nothing is raised. *)
Theorem Upload_never_returns_without_threads (env : Env) (fuel : nat)
  (filenames : list string) (path : string) (log : bool) (c c1 : Conf) :
  fair env ->
  _CheckConnected env fuel c = (Ok tt, c1) ->
  max_threads (fst c1) <= 0 ->
  errors (fst c1) = [] ->
  path <> EmptyString ->
  filenames <> [] ->
  exists c',
    Upload env fuel filenames path log c = (Diverge, c')
    /\ started (snd c') = started (snd c1)
    /\ fst c' = fst c1.
Proof.
  intros Hfair Hconn Hmax He Hpath Hfiles.
  destruct (upload_path_run path c1 Hpath) as (path' & Hp & _).
  destruct (Upload_runs_the_loop env fuel filenames path path' log c c1 Hconn
              ltac:(now rewrite Hp)) as [Ht ->].
  rewrite SaveRequest_run.
  destruct (batch_loop_spins env
              (upload_item filenames (url (fst c1) +s "me/drive/root:") path'
                 ":/content" log)
              upload_prefix Hfair fuel (Z.of_nat (List.length filenames)) c1)
    as (c' & Hrun & Hs & Ho); try assumption.
  - destruct filenames; [easy | cbn [List.length]; lia].
  - exists c'. rewrite Hrun. now repeat split.
Qed.

Lemma Upload_never_returns_without_threads_witness :
  fair (world drive_five_files 4000)
  /\ exists c',
       Upload (world drive_five_files 4000) 5 ["a.txt"] "Test" true
         (client_without_threads, [])
       = (Diverge, c')
       /\ started (snd c')
          = started (snd (client_without_threads, [EvClock]))
       /\ fst c' = fst (client_without_threads, [EvClock]).
Proof.
  assert (Hfair : fair (world drive_five_files 4000))
    by (intros h ws; apply Permutation_refl).
  split; [exact Hfair |].
  apply (Upload_never_returns_without_threads (world drive_five_files 4000) 5
           ["a.txt"] "Test" true (client_without_threads, [])
           (client_without_threads, [EvClock]) Hfair);
    [reflexivity | vm_compute; discriminate | reflexivity | discriminate
    | discriminate].
Defined.

(** ** The download of one file *)

Lemma starting_nothing (P : Worker -> Prop) {A : Type} (m : M A) :
  respects (keeping started_of) m -> respects (starting P) m.
Proof.
  intros Hm c r c' H. exists []. rewrite app_nil_r. split; [| constructor].
  exact (Hm _ _ _ H).
Qed.

Lemma connect_loop_keeps_started (env : Env) (n : nat) (attempts : Z) :
  respects (keeping started_of) (connect_loop env n attempts).
Proof.
  revert attempts. induction n as [|n IH]; intros attempts;
    cbn [connect_loop]; frame. apply IH.
Qed.

Lemma run_workers_keep_started (env : Env) (ws : list Worker) :
  respects (keeping started_of) (run_workers env ws).
Proof.
  intros c r c' H.
  pose proof (run_workers_beside_errors env ws c r c' H
              : beside_errors c' = beside_errors c) as Hb.
  exact (f_equal snd Hb).
Qed.

Lemma download_item_starting (keys : list pyval)
  (all_files : Dict) (path_local specific_file : string)
  (log : bool) (i : Z) :
  specific_file <> EmptyString ->
  respects (starting (downloads path_local specific_file log))
    (download_item keys all_files path_local specific_file log i).
Proof.
  intros Hne. unfold download_item.
  apply respects_bind; [apply starting_nothing; frame |]. intros filename.
  apply String.eqb_neq in Hne. rewrite Hne. cbn [negb andb].
  rewrite orb_false_r.
  destruct (key_eqb (PStr specific_file) filename) eqn:E;
    [| apply respects_ret].
  apply str_key_eqb in E. subst filename.
  apply respects_bind; [apply starting_nothing; frame |]. intros file_id.
  apply respects_bind; [apply respects_get_self |]. intros o.
  apply respects_bind; [apply starting_nothing; frame |]. intros url.
  intros c r c' H. unfold start_thread, bind, emit, modify in H.
  inversion H; subst. cbn [snd started].
  exists [download_thread o path_local log (PStr specific_file) url].
  split; [reflexivity |]. constructor; [| constructor].
  unfold downloads, download_thread. eauto.
Qed.

Lemma JoinThreads_starting (env : Env) (P : Worker -> Prop) :
  respects (starting P) (_JoinThreads env).
Proof.
  intros c r c' H. rewrite JoinThreads_run in H. inversion H; subst.
  destruct (joined_facts env c) as (_ & _ & _ & _ & _ & Hs).
  exists []. rewrite app_nil_r. split; [exact Hs | constructor].
Qed.

Lemma batch_loop_starting (env : Env) (P : Worker -> Prop)
  (body : Z -> M unit) (prefix : string) :
  (forall i, respects (starting P) (body i)) ->
  forall n i, respects (starting P) (batch_loop env body prefix n i).
Proof.
  intros Hbody. induction n as [|n IH]; intros i; cbn [batch_loop].
  - destruct (i >? 0); [apply respects_diverge | apply respects_ret].
  - destruct (i >? 0); [| apply respects_ret].
    apply respects_bind; [apply respects_get_self |]. intros o.
    apply respects_bind;
      [apply respects_unjoined;
       [apply launch_batch_respects, Hbody
       | intros ws; apply starting_nothing, run_workers_keep_started] |].
    intros i'.
    apply respects_bind; [apply JoinThreads_starting |]. intros _.
    apply respects_bind;
      [apply starting_nothing; unfold _FetchErrors; frame |].
    intros _. apply IH.
Qed.

(** A [Download] with [specific_file] given starts threads for that file
    only: every worker started during the call, whatever the outcome of
    the call, is the download of [specific_file] into [path_local]. *)
Theorem Download_of_one_file_starts_only_its_download (env : Env) (fuel : nat)
  (path_onedrive path_local specific_file : string) (log : bool)
  (c c' : Conf) (r : result unit) :
  specific_file <> EmptyString ->
  Download env fuel path_onedrive path_local specific_file log c = (r, c') ->
  exists ws,
    started (snd c') = started (snd c) ++ ws
    /\ Forall (downloads path_local specific_file log) ws.
Proof.
  intros Hne. revert c r c'.
  change (respects (starting (downloads path_local specific_file log))
            (Download env fuel path_onedrive path_local specific_file log)).
  unfold Download. apply respects_SaveRequest.
  apply respects_bind.
  { apply starting_nothing. unfold _CheckConnected. frame.
    apply connect_loop_keeps_started. }
  intros _.
  apply respects_bind; [apply starting_nothing; frame |]. intros present.
  apply respects_bind; [apply starting_nothing; frame |]. intros _. cbv zeta.
  apply respects_bind.
  { apply starting_nothing. unfold FetchAllFiles, _CheckConnected. frame.
    apply connect_loop_keeps_started. }
  intros listing. apply batch_loop_starting. intros i.
  now apply download_item_starting.
Qed.

Lemma Download_of_one_file_starts_only_its_download_witness :
  "f2" <> EmptyString
  /\ exists ws,
       started (snd (snd (Download (world drive_five_files 4000) 5 "src" "in"
                            "f2" true (sample_client, []))))
       = started (snd (sample_client, ([] : History))) ++ ws
       /\ Forall (downloads "in" "f2" true) ws.
Proof.
  split; [discriminate |].
  apply (Download_of_one_file_starts_only_its_download
           (world drive_five_files 4000) 5 "src" "in" "f2" true
           (sample_client, []) _ _ ltac:(discriminate)
           (surjective_pairing _)).
Defined.

(** ** The connection flag *)

Lemma stays_frame {A : Type} (m : M A) :
  respects (keeping connected_of) m -> stays_connected m.
Proof.
  intros Hm c r c' Hc H.
  pose proof (Hm _ _ _ H : connected_of c' = connected_of c) as K.
  unfold connected_of in K. congruence.
Qed.

Lemma stays_bind {A B : Type} (m : M A) (f : A -> M B) :
  stays_connected m -> (forall a, stays_connected (f a)) ->
  stays_connected (bind m f).
Proof.
  intros Hm Hf c r c' Hc H. apply bind_inv in H.
  destruct H as [(a & c1 & E1 & E2) | [(e & E1 & _) | (E1 & _)]].
  - eapply Hf; [eapply Hm; eassumption | exact E2].
  - eapply Hm; eassumption.
  - eapply Hm; eassumption.
Qed.

Lemma stays_SaveRequest {A : Type} (m : M A) :
  stays_connected m -> stays_connected (_SaveRequest m).
Proof.
  intros Hm c r c' Hc H. rewrite SaveRequest_run in H.
  destruct (m c) as [[a | e |] c1] eqn:E; inversion H; subst;
    eapply Hm; eassumption.
Qed.

Lemma CheckConnected_stays (env : Env) (fuel : nat) :
  stays_connected (_CheckConnected env fuel).
Proof.
  intros c r c' Hc H. unfold _CheckConnected in H. cbv zeta in H.
  unfold bind at 1 in H. unfold get_self at 1 in H. cbn [fst snd] in H.
  rewrite Hc in H. cbn [negb] in H. unfold bind at 1 in H.
  unfold ret at 1 in H.
  refine (stays_frame _ _ c r c' Hc H).
  unfold _CheckLastHeartbeat, _CheckRequestsCompleted. frame.
Qed.

Lemma FetchFolderID_stays (env : Env) (fuel : nat) (p : string) :
  stays_connected (_FetchFolderID env fuel p).
Proof.
  unfold _FetchFolderID. apply stays_SaveRequest.
  apply stays_bind; [apply CheckConnected_stays |]. intros _.
  apply stays_frame. unfold _CheckError, _FetchErrors. frame.
Qed.

Lemma FetchAllFiles_stays (env : Env) (fuel : nat) (p : string) :
  stays_connected (FetchAllFiles env fuel p).
Proof.
  unfold FetchAllFiles. apply stays_SaveRequest.
  apply stays_bind; [apply CheckConnected_stays |]. intros _.
  apply stays_frame. unfold _CheckError, _FetchErrors. frame.
Qed.

Lemma MakeDir_stays (env : Env) (fuel : nat) (p name : string) :
  stays_connected (MakeDir env fuel p name).
Proof.
  unfold MakeDir. apply stays_SaveRequest.
  apply stays_bind; [apply CheckConnected_stays |]. intros _.
  apply stays_frame. unfold _CheckError, _FetchErrors. frame.
Qed.

Lemma move_loop_keeps_connected (env : Env) (keys : list pyval)
  (files_ids : Dict) (dest : pyval) (src name : string) :
  respects (keeping connected_of) (move_loop env keys files_ids dest src name).
Proof.
  induction keys as [|k keys IH]; cbn [move_loop];
    unfold _CheckError, _FetchErrors; frame.
Qed.

Lemma MoveFile_stays (env : Env) (fuel : nat) (dest src name : string) :
  stays_connected (MoveFile env fuel dest src name).
Proof.
  unfold MoveFile. apply stays_SaveRequest.
  apply stays_bind; [apply CheckConnected_stays |]. intros _. cbv zeta.
  apply stays_bind; [apply FetchAllFiles_stays |]. intros listing.
  apply stays_bind; [apply FetchFolderID_stays |]. intros dest_id.
  apply stays_frame, move_loop_keeps_connected.
Qed.

Lemma MoveAllFiles_stays (env : Env) (fuel : nat) (dest src : string) :
  stays_connected (MoveAllFiles env fuel dest src).
Proof.
  unfold MoveAllFiles. apply stays_SaveRequest.
  apply stays_bind; [apply CheckConnected_stays |]. intros _. cbv zeta.
  apply stays_bind; [apply FetchFolderID_stays |]. intros src_id.
  apply stays_bind; [apply FetchFolderID_stays |]. intros dest_id.
  apply stays_frame. unfold _CheckError, _FetchErrors. frame.
Qed.

Lemma run_workers_keep_connected (env : Env) (ws : list Worker) :
  respects (keeping connected_of) (run_workers env ws).
Proof.
  intros c r c' H.
  pose proof (run_workers_beside_errors env ws c r c' H
              : beside_errors c' = beside_errors c) as Hb.
  apply (f_equal (fun x => is_connected (fst (fst x)))) in Hb.
  unfold beside_errors in Hb. cbn [fst] in Hb.
  unfold connected_of. cbn [fst keeping rel].
  destruct (fst c'), (fst c). exact Hb.
Qed.

Lemma JoinThreads_keeps_connected (env : Env) :
  respects (keeping connected_of) (_JoinThreads env).
Proof.
  intros c r c' H. rewrite JoinThreads_run in H. inversion H; subst.
  unfold joined.
  pose proof (run_workers_beside_errors env
                (sched env (snd c) (threads (fst c))) c _ _
                (surjective_pairing _)
              : beside_errors _ = beside_errors c) as Hb.
  apply (f_equal (fun x => is_connected (fst (fst x)))) in Hb.
  unfold beside_errors in Hb. cbn [fst] in Hb.
  unfold connected_of. cbn [fst keeping rel].
  set (ws := sched env (snd c) (threads (fst c))) in *.
  destruct (fst (snd (run_workers env ws c))), (fst c). exact Hb.
Qed.

Lemma batch_loop_keeps_connected (env : Env) (body : Z -> M unit)
  (prefix : string) :
  (forall i, respects (keeping connected_of) (body i)) ->
  forall n i, respects (keeping connected_of) (batch_loop env body prefix n i).
Proof.
  intros Hbody. induction n as [|n IH]; intros i; cbn [batch_loop].
  - destruct (i >? 0); frame.
  - destruct (i >? 0); [| frame].
    apply respects_bind; [frame |]. intros o.
    apply respects_bind;
      [apply respects_unjoined;
       [apply launch_batch_respects, Hbody
       | apply run_workers_keep_connected] |].
    intros i'.
    apply respects_bind; [apply JoinThreads_keeps_connected |]. intros _.
    apply respects_bind; [unfold _FetchErrors; frame |]. intros _. apply IH.
Qed.

Lemma Upload_stays (env : Env) (fuel : nat) (filenames : list string)
  (p : string) (log : bool) :
  stays_connected (Upload env fuel filenames p log).
Proof.
  unfold Upload. apply stays_SaveRequest.
  apply stays_bind; [apply CheckConnected_stays |]. intros _.
  apply stays_frame.
  apply respects_bind; [unfold upload_path; frame |]. intros p'.
  apply respects_bind; [frame |]. intros o. cbv zeta.
  apply batch_loop_keeps_connected. intros i. unfold upload_item. frame.
Qed.

Lemma Download_stays (env : Env) (fuel : nat)
  (path_onedrive path_local specific_file : string) (log : bool) :
  stays_connected (Download env fuel path_onedrive path_local specific_file log).
Proof.
  unfold Download. apply stays_SaveRequest.
  apply stays_bind; [apply CheckConnected_stays |]. intros _.
  apply stays_bind; [apply stays_frame; frame |]. intros present.
  apply stays_bind; [apply stays_frame; frame |]. intros _. cbv zeta.
  apply stays_bind; [apply FetchAllFiles_stays |]. intros listing.
  apply stays_frame, batch_loop_keeps_connected. intros i.
  unfold download_item. frame.
Qed.

(** A client once connected stays flagged connected: no public method
    clears [is_connected], whether it returns, raises or goes on for ever,
    and whatever the service answers.  The flag is written by [_Connect]
    only, and [_Connect] is called only while the flag is off. *)
Theorem a_connected_client_stays_connected (env : Env) (fuel : nat) :
  (forall p, stays_connected (_FetchFolderID env fuel p))
  /\ (forall p, stays_connected (FetchAllFiles env fuel p))
  /\ (forall p name, stays_connected (MakeDir env fuel p name))
  /\ (forall dest src name, stays_connected (MoveFile env fuel dest src name))
  /\ (forall dest src, stays_connected (MoveAllFiles env fuel dest src))
  /\ (forall filenames p log, stays_connected (Upload env fuel filenames p log))
  /\ (forall p local file log,
        stays_connected (Download env fuel p local file log)).
Proof.
  split; [| split; [| split; [| split; [| split; [| split]]]]].
  - intros p. apply FetchFolderID_stays.
  - intros p. apply FetchAllFiles_stays.
  - intros p name. apply MakeDir_stays.
  - intros dest src name. apply MoveFile_stays.
  - intros dest src. apply MoveAllFiles_stays.
  - intros filenames p log. apply Upload_stays.
  - intros p local file log. apply Download_stays.
Qed.

Lemma a_connected_client_stays_connected_witness :
  is_connected
    (fst (snd (FetchAllFiles (world drive_offline 4000) 5 "src"
                 (sample_client, []))))
  = true.
Proof.
  exact (proj1 (proj2 (a_connected_client_stays_connected
                         (world drive_offline 4000) 5))
           "src" (sample_client, []) _ _ eq_refl (surjective_pairing _)).
Defined.

(** ** The answer to [MakeDir] *)

Lemma errors_set_errors (o : OneDrive) (l : list string) :
  errors (set_errors l o) = l.
Proof. now destruct o. Qed.

Lemma set_errors_back (o : OneDrive) (l : list string) :
  errors o = [] -> set_errors [] (set_errors l o) = o.
Proof. destruct o. cbn. now intros ->. Qed.

(** [MakeDir] after a connection check that returned with the log empty,
    when the service answers the one [POST] with a JSON object.  Without a
    key that contains [error] the call returns.  With the key [error]
    holding an object whose [code] is a string the call raises the text
    [Could not create the directory], the name and the code in brackets
    (once for every key that contains [error]), and the log is empty
    again.  In both cases the request is all that happened. *)
Theorem MakeDir_reports_the_answer (env : Env) (fuel : nat)
  (path name : string) (c c1 : Conf) (resp : Response)
  (d : list (string * pyval)) :
  _CheckConnected env fuel c = (Ok tt, c1) ->
  errors (fst c1) = [] ->
  http env (snd c1) (mkdir_request (fst c1) path name) = inr resp ->
  text_json resp = Some (PDict d) ->
  let c2 := (fst c1, EvRequest (mkdir_request (fst c1) path name) :: snd c1) in
  (error_keys d = [] -> MakeDir env fuel path name c = (Ok tt, c2))
  /\ (forall err code,
        dict_get "error" d = Some err ->
        getitem err "code" = inr (PStr code) ->
        MakeDir env fuel path name c
        = (Raise (Exception
                    (("Could not create the directory " +s name)
                     +s repeat_string (" (Code: " +s code +s ")")
                          (List.length (error_keys d)))),
           c2)).
Proof.
  intros Hconn He Hhttp Hjson c2.
  assert (Hrun : MakeDir env fuel path name c
                 = _SaveRequest
                     (_CheckError ("Could not create the directory " +s name)
                        (IsValue (PDict d)) ;;
                      _FetchErrors EmptyString) c2).
  { unfold MakeDir. rewrite !SaveRequest_run.
    rewrite (bind_run _ _ _ _ _ Hconn). cbv zeta.
    unfold bind at 1. unfold get_self at 1. cbn [fst snd].
    unfold bind at 1. unfold requests at 1.
    fold (mkdir_request (fst c1) path name). rewrite Hhttp.
    unfold bind at 1. unfold json_loads at 1. rewrite Hjson.
    unfold ret at 1. reflexivity. }
  rewrite Hrun, SaveRequest_run. unfold error_keys. split.
  - intros Hnone. unfold _CheckError, bind at 1.
    unfold bind at 1. unfold lift.
    rewrite (check_keys_without_error _ _ _ _ Hnone).
    unfold ret at 1. cbn [fst snd]. unfold bind, ret. unfold c2.
    rewrite FetchErrors_empty by exact He. reflexivity.
  - intros err code Herr Hcode. unfold _CheckError, bind at 1.
    unfold bind at 1. unfold lift.
    rewrite (check_keys_with_code _ (PDict d) err code
               (getitem_present d "error" err Herr) Hcode).
    assert (Hkeys : filter (str_in "error") (dict_keys d) <> []).
    { clear - Herr. induction d as [|[k v] d IH]; [discriminate |].
      cbn [dict_get] in Herr. cbn [dict_keys map fst filter].
      destruct (String.eqb_spec "error" k) as [<- | Hne]; [discriminate |].
      destruct (str_in "error" k); [discriminate | apply IH, Herr]. }
    destruct (filter (str_in "error") (dict_keys d)) as [|k ks] eqn:Ek;
      [congruence |].
    cbn [List.length Nat.eqb negb orb]. unfold ret at 1.
    unfold bind, modify, ret. unfold c2. cbn [fst snd].
    rewrite FetchErrors_nonempty
      by (rewrite errors_set_errors, He; discriminate).
    rewrite errors_set_errors, He. cbn [app String.concat fst snd].
    rewrite (set_errors_back _ _ He). unfold saved.
    cbn [str String.append String.eqb]. reflexivity.
Qed.

Lemma MakeDir_reports_the_answer_witness :
  MakeDir (world drive_with_the_folder 4000) 5 "/Test/" "new"
    (sample_client, [])
  = (Raise (Exception
              (("Could not create the directory " +s "new")
               +s repeat_string (" (Code: " +s "nameAlreadyExists" +s ")")
                    (List.length
                       (error_keys
                          [("error",
                            PDict [("code", PStr "nameAlreadyExists")])])))),
     (fst (sample_client, [EvClock]),
      EvRequest (mkdir_request (fst (sample_client, [EvClock])) "/Test/" "new")
      :: snd (sample_client, [EvClock]))).
Proof.
  exact (proj2 (MakeDir_reports_the_answer (world drive_with_the_folder 4000)
                  5 "/Test/" "new" (sample_client, [])
                  (sample_client, [EvClock])
                  (json_reply 409 name_taken)
                  [("error", PDict [("code", PStr "nameAlreadyExists")])]
                  eq_refl eq_refl eq_refl eq_refl)
           (PDict [("code", PStr "nameAlreadyExists")]) "nameAlreadyExists"
           eq_refl eq_refl).
Defined.
